(** * NC101A: fixed-point fields and the MULTIPLY engine

    A shallow embedding of the arithmetic core of [NC101A.py]: the [Field]
    dataclass ([set], [_quantize], [_fits], [clone_value]) and the engine of
    [NC101AProgram] ([_add_field], [_init_fields], [_init_constants],
    [_resolve_value], [_multiply]).

    The program computes with Python's [decimal.Decimal] under the default
    context with the precision raised to 60 digits ([getcontext().prec = 60]).
    The part of that library the program calls is modelled in the first half
    of the file: a decimal is a sign, a non-negative coefficient and an
    exponent, or an infinity, or a NaN; the context rounds a result to 60
    significant digits, half-even, and bounds exponents by Emax and Emin.

    Python exceptions are results ([Raises e]); every operation that mutates
    a field or the registry returns the state it leaves behind together with
    its result, so that the state after an exception is visible too.

    The comparison of a field with an expected value, the printing of
    decimals, the report printer and the methods that record results are
    embedded further down, after the numbers decimals denote.

    Not modelled: [float] inputs, the diagnostic digits of a NaN, strings
    with characters outside ASCII, the test paragraphs themselves and the
    writing of the report to a file. *)

From Stdlib Require Import ZArith NArith QArith Qround Qabs Qpower Lia Lqa String Ascii List Bool.
From stdpp Require Import gmap strings list fin_maps.
Import ListNotations.

Local Open Scope Z_scope.

(* ===================================================================== *)
(** ** Exceptions and results *)
(* ===================================================================== *)

(** The exceptions the core raises or catches: [decimal.InvalidOperation]
    (which covers [ConversionSyntax]), [decimal.Overflow], [ValueError] and
    [KeyError]. *)
Inductive exn : Type :=
| InvalidOperation
| Overflow
| ValueError
| KeyError (key : string).

Inductive outcome (A : Type) : Type :=
| Returns (a : A)
| Raises (e : exn).

Arguments Returns {A} a.
Arguments Raises {A} e.

Definition obind {A B : Type} (m : outcome A) (k : A -> outcome B) : outcome B :=
  match m with
  | Returns a => k a
  | Raises e => Raises e
  end.

Declare Scope py_scope.
Delimit Scope py_scope with py.
Notation "x <~ m ;; k" := (obind m (fun x => k))
  (at level 100, m at next level, right associativity) : py_scope.
Local Open Scope py_scope.

(* ===================================================================== *)
(** ** The decimal library *)
(* ===================================================================== *)

(** The arithmetic context: the default one with [prec = 60]. *)
Definition prec : Z := 60.
Definition Emax : Z := 999999.
Definition Emin : Z := -999999.
Definition Etiny : Z := Emin - prec + 1.
Definition Etop : Z := Emax - prec + 1.

Inductive rounding_mode : Type := ROUND_DOWN | ROUND_HALF_UP | ROUND_HALF_EVEN.

(** [Fin s c e] is [(-1)^s * c * 10^e]; [sign = true] is the minus sign. *)
Inductive Decimal : Type :=
| Fin (sign : bool) (coeff : N) (exp : Z)
| Inf (sign : bool)
| NaN (sign : bool) (signaling : bool).

#[global] Instance exn_eq_dec : EqDecision exn.
Proof. solve_decision. Defined.

#[global] Instance Decimal_eq_dec : EqDecision Decimal.
Proof. solve_decision. Defined.

#[global] Instance outcome_eq_dec {A : Type} `{EqDecision A} : EqDecision (outcome A).
Proof. solve_decision. Defined.

Definition pow10 (k : Z) : N := Z.to_N (10 ^ k).

(** [len(self._int)]: the number of decimal digits of the coefficient; the
    coefficient 0 is the one digit ['0']. *)
Fixpoint ndigits_fuel (fuel : nat) (c : N) : Z :=
  match fuel with
  | O => 1
  | S fuel' => if (c <? 10)%N then 1 else 1 + ndigits_fuel fuel' (c / 10)%N
  end.

Definition ndigits (c : N) : Z := ndigits_fuel (N.to_nat (N.size c)) c.

(** [Decimal.adjusted]: the exponent of the most significant digit. *)
Definition adjusted (c : N) (e : Z) : Z := e + ndigits c - 1.

(** The rounding functions ([_round_down], [_round_half_up],
    [_round_half_even]) applied when the last [k] digits of [c] are dropped
    ([0 < k]): the new coefficient. *)
Definition round_coeff (mode : rounding_mode) (c : N) (k : Z) : N :=
  let q := (c / pow10 k)%N in
  let r := (c mod pow10 k)%N in
  match mode with
  | ROUND_DOWN => q
  | ROUND_HALF_UP => if (pow10 k <=? 2 * r)%N then (q + 1)%N else q
  | ROUND_HALF_EVEN =>
      if (2 * r <? pow10 k)%N then q
      else if (2 * r =? pow10 k)%N && N.even q then q
      else (q + 1)%N
  end.

(** [Decimal._rescale]: the coefficient at exponent [t]. *)
Definition rescale_coeff (mode : rounding_mode) (c : N) (e t : Z) : N :=
  if t <=? e then (c * pow10 (e - t))%N else round_coeff mode c (t - e).

(** [Decimal._fix] on a finite number: round to the context (half-even, at
    most [prec] digits, exponent at least [Etiny]); [Overflow] is trapped by
    the default context, the other signals it sets are not. *)
Definition fix_finite (s : bool) (c : N) (e : Z) : outcome Decimal :=
  if (c =? 0)%N then
    Returns (Fin s 0 (Z.min (Z.max e Etiny) Emax))
  else
    let exp_min := ndigits c + e - prec in
    if Etop <? exp_min then Raises Overflow
    else
      let exp_min := Z.max exp_min Etiny in
      if e <? exp_min then
        let c' := round_coeff ROUND_HALF_EVEN c (exp_min - e) in
        let '(c', exp_min) :=
          if prec <? ndigits c' then ((c' / 10)%N, exp_min + 1) else (c', exp_min) in
        if Etop <? exp_min then Raises Overflow
        else Returns (Fin s c' exp_min)
      else Returns (Fin s c e).

Definition is_nan (d : Decimal) : bool :=
  match d with NaN _ _ => true | _ => false end.

Definition is_snan (d : Decimal) : bool :=
  match d with NaN _ true => true | _ => false end.

Definition is_zero (d : Decimal) : bool :=
  match d with Fin _ c _ => (c =? 0)%N | _ => false end.

Definition sign_of (d : Decimal) : bool :=
  match d with Fin s _ _ => s | Inf s => s | NaN s _ => s end.

(** [Decimal._check_nans]: a signaling NaN raises, a quiet one is the result. *)
Definition check_nans (a b : Decimal) : option (outcome Decimal) :=
  if is_snan a || is_snan b then Some (Raises InvalidOperation)
  else if is_nan a then Some (Returns a)
  else if is_nan b then Some (Returns b)
  else None.

(** [Decimal.__mul__]. *)
Definition Decimal_mul (a b : Decimal) : outcome Decimal :=
  match check_nans a b with
  | Some r => r
  | None =>
      match a, b with
      | Fin s1 c1 e1, Fin s2 c2 e2 => fix_finite (xorb s1 s2) (c1 * c2) (e1 + e2)
      | Inf s1, _ => if is_zero b then Raises InvalidOperation
                     else Returns (Inf (xorb s1 (sign_of b)))
      | _, Inf s2 => if is_zero a then Raises InvalidOperation
                     else Returns (Inf (xorb (sign_of a) s2))
      | _, _ => Raises InvalidOperation
      end
  end.

(** [Decimal.__neg__]: a zero loses its sign. *)
Definition Decimal_neg (a : Decimal) : outcome Decimal :=
  match a with
  | NaN s true => Raises InvalidOperation
  | NaN s false => Returns a
  | Inf s => Returns (Inf (negb s))
  | Fin s c e => if (c =? 0)%N then fix_finite false c e else fix_finite (negb s) c e
  end.

(** The coefficient of a finite number with its sign. *)
Definition signed_coeff (s : bool) (c : N) : Z :=
  if s then - Z.of_N c else Z.of_N c.

(** [Decimal._cmp] on numbers that are not NaN. *)
Definition Decimal_cmp (a b : Decimal) : comparison :=
  match a, b with
  | Fin s1 c1 e1, Fin s2 c2 e2 =>
      let m := Z.min e1 e2 in
      Z.compare (signed_coeff s1 c1 * 10 ^ (e1 - m)) (signed_coeff s2 c2 * 10 ^ (e2 - m))
  | Inf s1, Inf s2 => if s1 then (if s2 then Eq else Lt) else (if s2 then Gt else Eq)
  | Inf s1, _ => if s1 then Lt else Gt
  | _, Inf s2 => if s2 then Gt else Lt
  | _, _ => Eq
  end.

(** [Decimal.__lt__]: an ordering comparison with a NaN signals
    [InvalidOperation], which the default context traps. *)
Definition Decimal_lt (a b : Decimal) : outcome bool :=
  if is_nan a || is_nan b then Raises InvalidOperation
  else Returns (match Decimal_cmp a b with Lt => true | _ => false end).

(** [Decimal.quantize(exp, rounding=mode)]: only the exponent of [exp] is
    used. *)
Definition Decimal_quantize (a exp : Decimal) (mode : rounding_mode) : outcome Decimal :=
  match check_nans a exp with
  | Some r => r
  | None =>
      match a, exp with
      | Inf _, Inf _ => Returns a
      | Fin s c e, Fin _ _ t =>
          if negb ((Etiny <=? t) && (t <=? Emax)) then Raises InvalidOperation
          else if (c =? 0)%N then fix_finite s 0 t
          else if Emax <? adjusted c e then Raises InvalidOperation
          else if prec <? adjusted c e - t + 1 then Raises InvalidOperation
          else
            let c' := rescale_coeff mode c e t in
            if Emax <? adjusted c' t then Raises InvalidOperation
            else if prec <? ndigits c' then Raises InvalidOperation
            else fix_finite s c' t
      | _, _ => Raises InvalidOperation
      end
  end.

(** [Decimal("1").scaleb(n)]: the exponent is moved by [n] and the result
    rounded to the context. *)
Definition Decimal_one_scaleb (n : Z) : outcome Decimal :=
  if negb ((- (2 * (Emax + prec)) <=? n) && (n <=? 2 * (Emax + prec)))
  then Raises InvalidOperation
  else fix_finite false 1 n.

(** [Decimal(10) ** n] for an integer [n]: the power is exact when it lies
    in the range of the context; its value is modelled, not the padding of
    its coefficient. *)
Definition Decimal_pow10 (n : Z) : outcome Decimal :=
  if Emax <? n then Raises Overflow
  else if n <? Etiny then Returns (Fin false 0 Etiny)
  else Returns (Fin false 1 n).

(** *** Reading a decimal from text

    [Decimal(text)]: the text is stripped of surrounding whitespace and of
    underscores and matched, without regard to case, against
    [sign? (digits (. digits?)? | . digits) (E sign? digits)?], [Inf],
    [Infinity], [NaN digits?] or [sNaN digits?]. Anything else is a
    [ConversionSyntax] error. The conversion is exact. *)

Definition is_space (a : ascii) : bool :=
  let n := N_of_ascii a in
  ((9 <=? n) && (n <=? 13) || (28 <=? n) && (n <=? 32))%N.

Definition is_digit (a : ascii) : bool :=
  let n := N_of_ascii a in ((48 <=? n) && (n <=? 57))%N.

Definition lower (a : ascii) : ascii :=
  let n := N_of_ascii a in
  if ((65 <=? n) && (n <=? 90))%N then ascii_of_N (n + 32) else a.

Fixpoint lstrip (l : list ascii) : list ascii :=
  match l with
  | a :: r => if is_space a then lstrip r else l
  | [] => []
  end.

(** [str.strip()]. *)
Definition strip_chars (l : list ascii) : list ascii :=
  rev (lstrip (rev (lstrip l))).

Definition strip (s : string) : string :=
  string_of_list_ascii (strip_chars (list_ascii_of_string s)).

Fixpoint span_digits (l : list ascii) : list ascii * list ascii :=
  match l with
  | a :: r =>
      if is_digit a then let '(ds, rest) := span_digits r in (a :: ds, rest)
      else ([], l)
  | [] => ([], [])
  end.

(** [int(digits)]. *)
Definition N_of_digits (ds : list ascii) : N :=
  fold_left (fun acc a => (acc * 10 + (N_of_ascii a - 48))%N) ds 0%N.

Definition parse_sign (l : list ascii) : bool * list ascii :=
  match l with
  | "-"%char :: r => (true, r)
  | "+"%char :: r => (false, r)
  | _ => (false, l)
  end.

(** The exponent part after the letter E: [[-+]?\d+] up to the end. *)
Definition parse_exponent (l : list ascii) : option Z :=
  let '(s, r) := parse_sign l in
  let '(ds, rest) := span_digits r in
  match ds, rest with
  | _ :: _, [] => Some (signed_coeff s (N_of_digits ds))
  | _, _ => None
  end.

Definition parse_number (s : bool) (l : list ascii) : option Decimal :=
  let '(intpart, r1) := span_digits l in
  let '(fracpart, r2) :=
    match r1 with
    | "."%char :: r => span_digits r
    | _ => ([], r1)
    end in
  match intpart ++ fracpart with
  | [] => None
  | _ :: _ =>
      let coeff := N_of_digits (intpart ++ fracpart) in
      let nfrac := Z.of_nat (length fracpart) in
      match r2 with
      | [] => Some (Fin s coeff (- nfrac))
      | "e"%char :: r3 =>
          match parse_exponent r3 with
          | Some x => Some (Fin s coeff (x - nfrac))
          | None => None
          end
      | _ => None
      end
  end.

Definition parse_special (s : bool) (l : list ascii) : option Decimal :=
  let text := string_of_list_ascii l in
  if decide (text = "inf"%string \/ text = "infinity"%string) then Some (Inf s)
  else
    let '(signal, r) :=
      match l with
      | "s"%char :: r => (true, r)
      | _ => (false, l)
      end in
    match r with
    | "n"%char :: "a"%char :: "n"%char :: diag =>
        match span_digits diag with
        | (_, []) => Some (NaN s signal)
        | _ => None
        end
    | _ => None
    end.

Definition Decimal_of_string (text : string) : outcome Decimal :=
  let chars := strip_chars (list_ascii_of_string text) in
  let chars := filter (fun a => a <> "_"%char) chars in
  let '(s, body) := parse_sign (map lower chars) in
  match parse_number s body with
  | Some d => Returns d
  | None =>
      match parse_special s body with
      | Some d => Returns d
      | None => Raises InvalidOperation
      end
  end.

(** [Decimal(str(n))] for a Python [int]. *)
Definition Decimal_of_int (n : Z) : Decimal := Fin (n <? 0) (Z.abs_N n) 0.

(** The values the program passes around as numbers ([NumberLike], without
    [float]). *)
Inductive NumberLike : Type :=
| NL_str (s : string)
| NL_int (n : Z)
| NL_Decimal (d : Decimal).

(** [Decimal(str(raw))]. The text of a [Decimal] is read back as the same
    sign, coefficient and exponent, so a [Decimal] converts to itself. *)
Definition Decimal_of_NumberLike (raw : NumberLike) : outcome Decimal :=
  match raw with
  | NL_str s => Decimal_of_string s
  | NL_int n => Returns (Decimal_of_int n)
  | NL_Decimal d => Returns d
  end.

(* ===================================================================== *)
(** ** class Field *)
(* ===================================================================== *)

Record Field : Type := mkField {
  name : string;
  digits_left : Z;
  digits_right : Z;
  signed : bool;
  value : Decimal
}.

Definition with_value (self : Field) (v : Decimal) : Field :=
  mkField (name self) (digits_left self) (digits_right self) (signed self) v.

(** [Field.clone_value]: [Decimal(self.value)], a copy. *)
Definition clone_value (self : Field) : Decimal := value self.

(** [Field._quantize]. *)
Definition _quantize (self : Field) (v : Decimal) (rounded : bool) : outcome Decimal :=
  exponent <~ Decimal_one_scaleb (- digits_right self) ;;
  let rounding_mode := if rounded then ROUND_HALF_UP else ROUND_DOWN in
  Decimal_quantize v exponent rounding_mode.

(** [Field._fits]. *)
Definition _fits (self : Field) (v : Decimal) : outcome bool :=
  negative <~ (if signed self then Returns false
               else Decimal_lt v (Decimal_of_int 0)) ;;
  if negative then Returns false
  else
    limit <~ Decimal_pow10 (digits_left self) ;;
    minus_limit <~ Decimal_neg limit ;;
    above <~ Decimal_lt minus_limit v ;;
    if above then Decimal_lt v limit else Returns false.

(** [Field.set]: the result and the field as the call leaves it. The
    [try] covers the conversion and [_quantize]; [_fits] is outside it. *)
Definition set (self : Field) (raw : NumberLike) (rounded : bool)
  : outcome bool * Field :=
  match (d <~ Decimal_of_NumberLike raw ;; _quantize self d rounded) with
  | Raises InvalidOperation | Raises ValueError => (Returns false, self)
  | Raises e => (Raises e, self)
  | Returns v =>
      match _fits self v with
      | Raises e => (Raises e, self)
      | Returns false => (Returns false, self)
      | Returns true => (Returns true, with_value self v)
      end
  end.

(* ===================================================================== *)
(** ** class NC101AProgram: the registries and the engine *)
(* ===================================================================== *)

(** The two registries of the program object; the report state is left out. *)
Record Program : Type := mkProgram {
  fields : gmap string Field;
  constants : gmap string Decimal
}.

Definition with_fields (self : Program) (fs : gmap string Field) : Program :=
  mkProgram fs (constants self).

(** A method of the program: from the program state to a result and the
    state the call leaves. An exception keeps the state reached so far. *)
Definition method (A : Type) : Type := Program -> outcome A * Program.

Definition mbind_ {A B : Type} (m : method A) (k : A -> method B) : method B :=
  fun self =>
    match m self with
    | (Returns a, self') => k a self'
    | (Raises e, self') => (Raises e, self')
    end.

Notation "m1 ;;; m2" := (mbind_ m1 (fun _ => m2))
  (at level 100, right associativity) : py_scope.

(** [self.fields[key]]. *)
Definition get_field (self : Program) (key : string) : outcome Field :=
  match fields self !! key with
  | Some f => Returns f
  | None => Raises (KeyError key)
  end.

(** [NC101AProgram._add_field]. *)
Definition _add_field (key : string) (digits_left digits_right : Z)
    (signed : bool) (initial : NumberLike) : method unit :=
  fun self =>
    match Decimal_of_NumberLike initial with
    | Raises e => (Raises e, self)
    | Returns v =>
        (Returns tt,
         with_fields self
           (<[key := mkField key digits_left digits_right signed v]> (fields self)))
    end.

(** [NC101AProgram._init_fields]. *)
Definition _init_fields : method unit :=
  _add_field "MULT1" 3 2 false (NL_str "80.12") ;;;
  _add_field "MULT4" 2 0 true (NL_str "-56") ;;;
  _add_field "MULT5" 1 0 false (NL_str "4") ;;;
  _add_field "MULT6" 2 0 false (NL_str "20") ;;;
  _add_field "WRK_DS_18V00" 18 0 true (NL_str "0") ;;;
  _add_field "WRK_DS_06V06" 6 6 true (NL_str "0") ;;;
  _add_field "WRK_DS_10V00" 10 0 true (NL_str "0") ;;;
  _add_field "WRK_DS_02V00" 2 0 true (NL_str "0") ;;;
  _add_field "WRK_DS_0201P" 4 0 true (NL_str "0") ;;;
  _add_field "WRK_DS_05V00" 5 0 true (NL_str "0") ;;;
  _add_field "WRK_DS_01V00" 1 0 true (NL_str "0") ;;;
  _add_field "WRK_CS_18V00" 18 0 true (NL_str "0") ;;;
  _add_field "WRK_DU_18V00" 18 0 false (NL_str "0") ;;;
  _add_field "WRK_DU_4P1_1" 0 5 false (NL_str "0.00001") ;;;
  _add_field "WRK_DU_5V1_1" 5 1 false (NL_str "12345.6") ;;;
  _add_field "WRK_DU_2P4_1" 6 0 false (NL_str "990000") ;;;
  _add_field "WRK_DU_6V0_1" 6 0 false (NL_str "99999") ;;;
  _add_field "WRK_DU_6V0_2" 6 0 false (NL_str "99999") ;;;
  _add_field "WRK_DU_0V12_1" 0 12 false (NL_str "0.00001") ;;;
  _add_field "WRK_DU_2V0_1" 2 0 false (NL_str "99") ;;;
  _add_field "WRK_DU_2V0_2" 2 0 false (NL_str "0").

(** One entry of the dictionary display of [_init_constants]. *)
Definition constant_entry (key text : string) (acc : outcome (gmap string Decimal))
  : outcome (gmap string Decimal) :=
  m <~ acc ;; d <~ Decimal_of_string text ;; Returns (<[key := d]> m).

(** [NC101AProgram._init_constants]. *)
Definition _init_constants : method unit :=
  fun self =>
    let table :=
      constant_entry "A01ONE_DS_P0801" "0.000000001"
      (constant_entry "A18ONES_DS_18V00" "111111111111111111"
      (constant_entry "A01ONE_CS_00V01" "0.1"
      (constant_entry "AZERO_DS_05V05" "0"
      (constant_entry "A12THREES_DS_06V06" "333333.333333"
      (constant_entry "A10ONES_DS_10V00" "1111111111"
      (constant_entry "A08TWOS_DS_02V06" "22.222222"
      (constant_entry "A06THREES_DS_03V03" "333.333" (Returns ∅)))))))) in
    match table with
    | Raises e => (Raises e, self)
    | Returns m => (Returns tt, mkProgram (fields self) m)
    end.

(** The registries of [NC101AProgram.__init__]. *)
Definition __init__ : method unit :=
  fun _ => (_init_fields ;;; _init_constants) (mkProgram ∅ ∅).

(** [NC101AProgram._resolve_value]. *)
Definition _resolve_value (self : Program) (token : NumberLike) : outcome Decimal :=
  match token with
  | NL_Decimal d => Returns d
  | NL_int n => Returns (Decimal_of_int n)
  | NL_str s =>
      let token_str := strip s in
      match fields self !! token_str with
      | Some f => Returns (value f)
      | None =>
          match constants self !! token_str with
          | Some c => Returns c
          | None => Decimal_of_string token_str
          end
      end
  end.

(** The dictionary comprehension of [_multiply]:
    [{name: self.fields[name].clone_value() for name in receiving_names}]. *)
Fixpoint take_snapshots (self : Program) (names : list string)
    (acc : gmap string Decimal) : outcome (gmap string Decimal) :=
  match names with
  | [] => Returns acc
  | key :: rest =>
      f <~ get_field self key ;;
      take_snapshots self rest (<[key := clone_value f]> acc)
  end.

(** One turn of the restoring loop: [self.fields[target].value = value]. *)
Definition restore_one (target : string) (v : Decimal)
    (st : outcome unit * gmap string Field) : outcome unit * gmap string Field :=
  match st with
  | (Returns _, fs) =>
      match fs !! target with
      | Some f => (Returns tt, <[target := with_value f v]> fs)
      | None => (Raises (KeyError target), fs)
      end
  | (Raises e, fs) => (Raises e, fs)
  end.

(** [for target, value in snapshots.items(): ...]. *)
Definition restore (snapshots : gmap string Decimal) (fs : gmap string Field)
  : outcome unit * gmap string Field :=
  map_fold restore_one (Returns tt, fs) snapshots.

(** The storing loop of [_multiply], [for name in receiving_names: ...]. *)
Fixpoint store_loop (snapshots : gmap string Decimal) (rounded : gset string)
    (product : Decimal) (names : list string) (self : Program)
  : outcome bool * Program :=
  match names with
  | [] => (Returns false, self)
  | key :: rest =>
      match get_field self key with
      | Raises e => (Raises e, self)
      | Returns field =>
          let '(r, field') := set field (NL_Decimal product) (bool_decide (key ∈ rounded)) in
          let self' := with_fields self (<[key := field']> (fields self)) in
          match r with
          | Raises e => (Raises e, self')
          | Returns true => store_loop snapshots rounded product rest self'
          | Returns false =>
              match restore snapshots (fields self') with
              | (Returns _, fs) => (Returns true, with_fields self' fs)
              | (Raises e, fs) => (Raises e, with_fields self' fs)
              end
          end
      end
  end.

(** [NC101AProgram._multiply]: [Returns true] is a size error. *)
Definition _multiply (multiplicand : NumberLike) (multiplier : string)
    (additional_receivers : list string) (rounded_receivers : gset string)
  : method bool :=
  fun self =>
    match (multiplicand_value <~ _resolve_value self multiplicand ;;
           multiplier_field <~ get_field self multiplier ;;
           let multiplier_original := clone_value multiplier_field in
           let receiving_names := multiplier :: additional_receivers in
           snapshots <~ take_snapshots self receiving_names ∅ ;;
           product <~ Decimal_mul multiplicand_value multiplier_original ;;
           Returns (receiving_names, snapshots, product)) with
    | Raises e => (Raises e, self)
    | Returns (receiving_names, snapshots, product) =>
        store_loop snapshots rounded_receivers product receiving_names self
    end.

(** [self.fields[key].set(raw, rounded)] as the test paragraphs call it. *)
Definition set_field (key : string) (raw : NumberLike) (rounded : bool)
  : method bool :=
  fun self =>
    match get_field self key with
    | Raises e => (Raises e, self)
    | Returns f =>
        let '(r, f') := set f raw rounded in
        (r, with_fields self (<[key := f']> (fields self)))
    end.

(** The program object after [__init__]. *)
Definition initial_program : Program := snd (__init__ (mkProgram ∅ ∅)).

(* ===================================================================== *)
(** ** The numbers decimals denote, and quantization as the
       specification words it *)
(* ===================================================================== *)

Definition is_finite (d : Decimal) : bool :=
  match d with Fin _ _ _ => true | _ => false end.

(** The rational number a finite decimal denotes. *)
Definition to_Q (d : Decimal) : Q :=
  match d with
  | Fin s c e => (inject_Z (signed_coeff s c) * 10 ^ e)%Q
  | _ => 0%Q
  end.

(** Truncation: the integer part, toward zero. *)
Definition toward_zero (x : Q) : Z :=
  if Qle_bool 0 x then Qfloor x else Qceiling x.

(** Round-half-up: the nearest integer, a tie going away from zero. *)
Definition half_up (x : Q) : Z :=
  if Qle_bool 0 x then Qfloor (x + (1#2)) else Qceiling (x - (1#2)).

(** [x] quantized to [digits] fractional digits: [x] in units of
    [10^-digits], cut or rounded to a whole number of units. *)
Definition spec_quantize (x : Q) (digits : Z) (rounded : bool) : Q :=
  (inject_Z ((if rounded then half_up else toward_zero) (x * 10 ^ digits))
   * 10 ^ (- digits))%Q.

(** The product of two finite decimals needs no rounding in the context:
    it is zero, or its coefficient has at most [prec] digits and its
    exponent is not below [Etiny]. *)
Definition exact_in_context (a b : Decimal) : Prop :=
  match a, b with
  | Fin _ c1 e1, Fin _ c2 e2 =>
      (c1 * c2)%N = 0%N \/ (ndigits (c1 * c2) <= prec /\ Etiny <= e1 + e2)
  | _, _ => False
  end.

(** The width and sign constraint of a field on a number. *)
Definition spec_fits (f : Field) (x : Q) : Prop :=
  (signed f = false -> (0 <= x)%Q) /\
  (- 10 ^ digits_left f < x)%Q /\ (x < 10 ^ digits_left f)%Q.

(** The invariant of a field at rest: its value is a finite number, a
    whole number of units of [10^-digits_right], within the width and sign
    of the field. *)
Definition at_rest (f : Field) : Prop :=
  is_finite (value f) = true /\
  (exists n : Z, (to_Q (value f) == inject_Z n * 10 ^ (- digits_right f))%Q) /\
  spec_fits f (to_Q (value f)).

Definition registry_at_rest (self : Program) : Prop :=
  forall key f, fields self !! key = Some f -> at_rest f.

(** The invariant as the specification words it: the value has exactly
    [digits_right] fractional digits, that is the exponent [-digits_right]. *)
Definition exactly_quantized (f : Field) : Prop :=
  exists s c, value f = Fin s c (- digits_right f).

(** The value has at most [digits_right] fractional digits. *)
Definition fraction_within (f : Field) : Prop :=
  exists s c e, value f = Fin s c e /\ - digits_right f <= e.

(** A check that implies [at_rest], for registries given in full. *)
Definition at_rest_check (f : Field) : bool :=
  match value f with
  | Fin _ _ e =>
      (- digits_right f <=? e) &&
      match _fits f (value f) with Returns true => true | _ => false end
  | _ => false
  end.

(** The calls that write to the registry: [self.fields[key].set(...)] and
    [self._multiply(...)]. *)
Inductive call : Type :=
| Call_set (key : string) (raw : NumberLike) (rounded : bool)
| Call_multiply (multiplicand : NumberLike) (multiplier : string)
    (additional_receivers : list string) (rounded_receivers : gset string).

Definition run (c : call) : method bool :=
  match c with
  | Call_set key raw rounded => set_field key raw rounded
  | Call_multiply multiplicand multiplier additional rounded =>
      _multiply multiplicand multiplier additional rounded
  end.

(** The program states reached from [__init__] by such calls, whatever
    their results. *)
Inductive reachable : Program -> Prop :=
| reachable_init : reachable initial_program
| reachable_call (self : Program) (c : call) :
    reachable self -> reachable (snd (run c self)).

(* ===================================================================== *)
(** ** Predicates on registries used by the proofs *)
(* ===================================================================== *)

(** [snapshot_of S fs]: every entry of [S] is the value a field of [fs]
    holds under the same name. *)
Definition snapshot_of (S : gmap string Decimal) (fs : gmap string Field) : Prop :=
  forall k v, S !! k = Some v -> exists f, fs !! k = Some f /\ value f = v.

(** [touched S fs0 fs]: [fs] is [fs0] except for the values of fields that
    have a snapshot in [S]. *)
Definition touched (S : gmap string Decimal) (fs0 fs : gmap string Field) : Prop :=
  forall k,
    fs !! k = fs0 !! k \/
    exists f0 v, fs0 !! k = Some f0 /\ is_Some (S !! k) /\
                 fs !! k = Some (with_value f0 v).

(** [stored product rounded fs0 fs key]: the field [key] of [fs] is the
    field of [fs0] with the product quantized to its own picture, by
    rounding when its name is in [rounded], and the quantized value fits. *)
Definition stored (product : Decimal) (rounded : gset string)
    (fs0 fs : gmap string Field) (key : string) : Prop :=
  exists f0 q,
    fs0 !! key = Some f0 /\
    _quantize f0 product (bool_decide (key ∈ rounded)) = Returns q /\
    _fits f0 q = Returns true /\
    fs !! key = Some (with_value f0 q).

(* ===================================================================== *)
(** ** Pictures the context can hold, and what a receiver accepts *)
(* ===================================================================== *)

(** A picture with non-negative digit counts that the decimal context can
    express: [10^digits_left] and [10^-digits_right] are numbers of the
    context. Every field of [_init_fields] has such a picture. *)
Definition picture_ok (f : Field) : Prop :=
  0 <= digits_left f <= Emax /\ 0 <= digits_right f <= - Etiny.

Definition registry_ok (self : Program) : Prop :=
  forall key f, fields self !! key = Some f -> picture_ok f.

(** [accepts f p rounded]: [f.set(p, rounded)] returns [True]. *)
Definition accepts (f : Field) (p : Decimal) (rounded : bool) : bool :=
  match fst (set f (NL_Decimal p) rounded) with
  | Returns true => true
  | _ => false
  end.

(** The receiver [key] of a registry accepts the product [p]. *)
Definition receiver_accepts (fs : gmap string Field) (rounded : gset string)
    (p : Decimal) (key : string) : bool :=
  match fs !! key with
  | Some f => accepts f p (bool_decide (key ∈ rounded))
  | None => false
  end.

(** A picture of at most [prec] digits, as every picture of the program
    is: the context then holds every value of the field exactly. *)
Definition picture_in_precision (f : Field) : Prop :=
  0 <= digits_left f /\ 0 <= digits_right f /\
  digits_left f + digits_right f <= prec.

Definition registry_in_precision (self : Program) : Prop :=
  forall key f, fields self !! key = Some f -> picture_in_precision f.

(** A number with at most [prec] digits and an exponent of the context. *)
Definition in_context (d : Decimal) : bool :=
  match d with
  | Fin _ c e => (ndigits c <=? prec) && (Etiny <=? e) && (e <=? Emax)
  | _ => false
  end.

(** What holds of every field of a program run, besides [at_rest]. *)
Definition kept (f : Field) : Prop :=
  picture_in_precision f /\ in_context (value f) = true.

(** The receiver [key] has room for the number [x]: [x] cut, or rounded
    when the name is in [rounded], to the digits of the field lies within
    its width and sign. *)
Definition has_room (fs : gmap string Field) (rounded : gset string) (x : Q)
    (key : string) : Prop :=
  match fs !! key with
  | Some f => spec_fits f (spec_quantize x (digits_right f) (bool_decide (key ∈ rounded)))
  | None => False
  end.

(* ===================================================================== *)
(** ** Comparing a field with an expected value *)
(* ===================================================================== *)

(** [Decimal.__eq__]: a signaling NaN raises [InvalidOperation], a quiet
    NaN is equal to nothing, and numbers are compared by [_cmp]. *)
Definition Decimal_eq (a b : Decimal) : outcome bool :=
  if is_snan a || is_snan b then Raises InvalidOperation
  else if is_nan a || is_nan b then Returns false
  else Returns (match Decimal_cmp a b with Eq => true | _ => false end).

(** [NC101AProgram._field_equals]: the field is looked up before the
    expected value is resolved. *)
Definition _field_equals (self : Program) (name : string) (expected : NumberLike)
  : outcome bool :=
  f <~ get_field self name ;;
  v <~ _resolve_value self expected ;;
  Decimal_eq (value f) v.

(* ===================================================================== *)
(** ** Text: the string operations the report uses *)
(* ===================================================================== *)

(** [c * n] for a one-character string [c]; empty when [n] is not positive. *)
Definition repeat_char (c : ascii) (n : Z) : string :=
  string_of_list_ascii (repeat c (Z.to_nat n)).

Definition spaces (n : Z) : string := repeat_char " " n.

(** [text.ljust(width)] and [format(text, "<width")]: nothing is cut. *)
Definition ljust (width : Z) (text : string) : string :=
  text +:+ spaces (width - Z.of_nat (String.length text)).

(** [text.rjust(width)]. *)
Definition rjust (width : Z) (text : string) : string :=
  spaces (width - Z.of_nat (String.length text)) +:+ text.

(** The decimal digits of a natural number, most significant first. *)
Fixpoint digits_fuel (fuel : nat) (c : N) (acc : list ascii) : list ascii :=
  match fuel with
  | O => acc
  | S fuel' =>
      let acc' := ascii_of_N (48 + c mod 10) :: acc in
      if (c <? 10)%N then acc' else digits_fuel fuel' (c / 10)%N acc'
  end.

Definition digits_of_N (c : N) : list ascii :=
  digits_fuel (S (N.to_nat (N.size c))) c [].

(** [str(n)] for a Python [int]. *)
Definition str_of_Z (n : Z) : string :=
  (if n <? 0 then "-" else EmptyString) +:+
  string_of_list_ascii (digits_of_N (Z.abs_N n)).

(** [format(n, "{width}d")] and [format(n, ">{width}")] for an [int]. *)
Definition format_d (width : Z) (n : Z) : string := rjust width (str_of_Z n).

(** [format(n, "0{width}d")]: zeros between the sign and the digits. *)
Definition format_0d (width : Z) (n : Z) : string :=
  let sign := if n <? 0 then "-"%string else EmptyString in
  let digits := string_of_list_ascii (digits_of_N (Z.abs_N n)) in
  sign +:+
  repeat_char "0" (width - Z.of_nat (String.length sign)
                         - Z.of_nat (String.length digits)) +:+
  digits.

(** [c in text]. *)
Definition contains (c : ascii) (text : string) : bool :=
  existsb (Ascii.eqb c) (list_ascii_of_string text).

Fixpoint lstrip_char (c : ascii) (l : list ascii) : list ascii :=
  match l with
  | a :: r => if Ascii.eqb a c then lstrip_char c r else l
  | [] => []
  end.

(** [text.rstrip(c)] for a one-character string [c]. *)
Definition rstrip_char (c : ascii) (text : string) : string :=
  string_of_list_ascii (rev (lstrip_char c (rev (list_ascii_of_string text)))).

(** The truth value of an [Optional[str]]. *)
Definition truthy (o : option string) : bool :=
  match o with
  | Some text => negb (String.eqb text EmptyString)
  | None => false
  end.

(** [o or default]. *)
Definition or_else (o : option string) (default : string) : string :=
  match o with
  | Some text => if String.eqb text EmptyString then default else text
  | None => default
  end.

(** [sep.join(items)]. *)
Fixpoint join (sep : string) (items : list string) : string :=
  match items with
  | [] => EmptyString
  | [x] => x
  | x :: rest => x +:+ sep +:+ join sep rest
  end.

(* ===================================================================== *)
(** ** Printing a decimal *)
(* ===================================================================== *)

(** The sign and the fraction of a printed number: [-] for a negative
    number, and a decimal point only before a fraction that has digits. *)
Definition sign_chars (s : bool) : list ascii := if s then ["-"%char] else [].

Definition with_point (fracpart : list ascii) : list ascii :=
  match fracpart with
  | [] => []
  | _ :: _ => "."%char :: fracpart
  end.

(** [format(value, "f")]: positional notation, without an exponent. A zero
    with a positive exponent is printed as [0]; the diagnostic digits of a
    NaN are not modelled. *)
Definition format_f (value : Decimal) : string :=
  match value with
  | Inf s => string_of_list_ascii (sign_chars s) +:+ "Infinity"
  | NaN s signal =>
      string_of_list_ascii (sign_chars s) +:+ (if signal then "sNaN" else "NaN")
  | Fin s c e =>
      let e := if (c =? 0)%N && (0 <? e) then 0 else e in
      let ds := digits_of_N c in
      let n := Z.of_nat (length ds) in
      let dotplace := e + n in
      let '(intpart, fracpart) :=
        if dotplace <? 0 then
          (["0"%char], repeat "0"%char (Z.to_nat (- dotplace)) ++ ds)
        else if n <? dotplace then
          (ds ++ repeat "0"%char (Z.to_nat (dotplace - n)), [])
        else
          (match take (Z.to_nat dotplace) ds with
           | [] => ["0"%char]
           | i => i
           end,
           drop (Z.to_nat dotplace) ds) in
      string_of_list_ascii (sign_chars s ++ intpart ++ with_point fracpart)
  end.

(** [NC101AProgram._format_decimal]: trailing zeros of the fraction, and a
    decimal point left at the end, are dropped. *)
Definition _format_decimal (value : Decimal) : string :=
  let text := format_f value in
  let text :=
    if contains "." text then rstrip_char "." (rstrip_char "0" text) else text in
  if String.eqb text EmptyString then "0" else text.

(** [NC101AProgram._format_value]: the argument is [None], a string or a
    [Decimal]. *)
Definition _format_value (value : option (string + Decimal)) : option string :=
  match value with
  | None => None
  | Some (inr d) => Some (_format_decimal d)
  | Some (inl text) => Some text
  end.

(* ===================================================================== *)
(** ** The report printer *)
(* ===================================================================== *)

Module ReportPrinter.

(** The object: the static lines are constants of the class here, since
    nothing assigns to them after [_build_static_lines]. *)
Record t : Type := mk {
  test_id : string;
  lines : list string;
  record_count : Z
}.

Definition ccvs_h1 : string :=
  spaces 39 +:+ "OFFICIAL COBOL COMPILER VALIDATION SYSTEM" +:+ spaces 39.

Definition ccvs_h2a : string :=
  spaces 40 +:+ "CCVS85 " +:+ "4.2 " +:+ " COPY - NOT FOR DISTRIBUTION" +:+ spaces 41.

(** [ccvs_h2b_template.format(test_id=...)]. *)
Definition ccvs_h2b (test_id : string) : string :=
  spaces 15 +:+ "TEST RESULT OF " +:+ ljust 9 test_id +:+ " IN " +:+
  " HIGH       " +:+ " LEVEL VALIDATION FOR " +:+
  "ON-SITE VALIDATION, NATIONAL INSTITUTE OF STD & TECH.     ".

Definition ccvs_h3 : string :=
  spaces 34 +:+ " FOR OFFICIAL USE ONLY    " +:+
  "COBOL 85 VERSION 4.2, Apr  1993 SSVG                      " +:+
  "  COPYRIGHT   1985 ".

Definition ccvs_c1 : string :=
  " FEATURE              PASS  PARAGRAPH-NAME       REMARKS" +:+ spaces 20.

Definition ccvs_c2 : string := " TESTED            FAIL" +:+ spaces 96.

Definition hyphen_line : string :=
  " " +:+ repeat_char "*" 65 +:+ repeat_char "*" 54.

Definition ccvs_e3 : string :=
  " FOR OFFICIAL USE ONLY" +:+ spaces 12 +:+
  "ON-SITE VALIDATION, NATIONAL INSTITUTE OF STD & TECH.     " +:+
  spaces 13 +:+ " COPYRIGHT 1985".

Definition __init__ (test_id : string) : t := mk test_id [] 0.

(** [write_line]: the text is cut to 120 characters and padded to 120. *)
Definition write_line (text : string) (self : t) : t :=
  let formatted := ljust 120 (substring 0 120 text) in
  mk (test_id self) (lines self ++ [formatted]) (record_count self + 1).

Definition write_header (self : t) : t :=
  let self := write_line ccvs_h1 self in
  let self := write_line ccvs_h1 self in
  let self := write_line ccvs_h2a self in
  let self := write_line ccvs_h2a self in
  let self := write_line (ccvs_h2b (test_id self)) self in
  let self := write_line (ccvs_h2b (test_id self)) self in
  let self := write_line (ccvs_h2b (test_id self)) self in
  let self := write_line ccvs_h3 self in
  let self := write_line ccvs_h3 self in
  let self := write_line ccvs_h3 self in
  let self := write_line ccvs_c1 self in
  let self := write_line ccvs_c2 self in
  let self := write_line ccvs_c2 self in
  write_line hyphen_line self.

Definition write_footer_line (count : Z) (description : string)
    (prefix_spaces : Z) (self : t) : t :=
  let label := if count =? 0 then "NO "%string else format_d 3 count in
  write_line (spaces prefix_spaces +:+ label +:+ " " +:+ description) self.

Definition write_end_banner (self : t) : t :=
  let end_line :=
    spaces 52 +:+ "END OF TEST-  " +:+ ljust 9 (test_id self) +:+ spaces 45 in
  write_line end_line self.

(** [write_report]: the text written to the file. *)
Definition write_report (self : t) : string :=
  join (String "010" EmptyString) (lines self) +:+ String "010" EmptyString.

End ReportPrinter.

(* ===================================================================== *)
(** ** The program object with its report *)
(* ===================================================================== *)

(** [NC101AProgram] in full: [core] is the registry of fields and
    constants the arithmetic works on, the rest are the attributes of the
    report. *)
Record NC101AProgram : Type := mkNC101AProgram {
  core : Program;
  test_id : string;
  printer : ReportPrinter.t;
  feature : string;
  ansi_reference : string;
  paragraph_name : string;
  rec_ct : Z;
  p_or_f : string;
  remark : string;
  computed_text : option string;
  correct_text : option string;
  xrays : string;
  wrk_xn : string;
  pass_counter : Z;
  error_counter : Z;
  delete_counter : Z;
  inspect_counter : Z
}.

Definition with_core (self : NC101AProgram) (c : Program) : NC101AProgram :=
  mkNC101AProgram c (test_id self) (printer self) (feature self)
    (ansi_reference self) (paragraph_name self) (rec_ct self) (p_or_f self)
    (remark self) (computed_text self) (correct_text self) (xrays self)
    (wrk_xn self) (pass_counter self) (error_counter self)
    (delete_counter self) (inspect_counter self).

Definition with_printer (self : NC101AProgram) (p : ReportPrinter.t) : NC101AProgram :=
  mkNC101AProgram (core self) (test_id self) p (feature self)
    (ansi_reference self) (paragraph_name self) (rec_ct self) (p_or_f self)
    (remark self) (computed_text self) (correct_text self) (xrays self)
    (wrk_xn self) (pass_counter self) (error_counter self)
    (delete_counter self) (inspect_counter self).

Definition with_rec_ct (self : NC101AProgram) (n : Z) : NC101AProgram :=
  mkNC101AProgram (core self) (test_id self) (printer self) (feature self)
    (ansi_reference self) (paragraph_name self) n (p_or_f self)
    (remark self) (computed_text self) (correct_text self) (xrays self)
    (wrk_xn self) (pass_counter self) (error_counter self)
    (delete_counter self) (inspect_counter self).

Definition with_wrk_xn (self : NC101AProgram) (x : string) : NC101AProgram :=
  mkNC101AProgram (core self) (test_id self) (printer self) (feature self)
    (ansi_reference self) (paragraph_name self) (rec_ct self) (p_or_f self)
    (remark self) (computed_text self) (correct_text self) (xrays self)
    x (pass_counter self) (error_counter self)
    (delete_counter self) (inspect_counter self).

(** The four attributes of a result line: [p_or_f], [remark],
    [computed_text] and [correct_text]. *)
Definition with_result (self : NC101AProgram) (pf rem : string)
    (computed correct : option string) : NC101AProgram :=
  mkNC101AProgram (core self) (test_id self) (printer self) (feature self)
    (ansi_reference self) (paragraph_name self) (rec_ct self) pf
    rem computed correct (xrays self)
    (wrk_xn self) (pass_counter self) (error_counter self)
    (delete_counter self) (inspect_counter self).

Definition with_counters (self : NC101AProgram) (passed failed : Z) : NC101AProgram :=
  mkNC101AProgram (core self) (test_id self) (printer self) (feature self)
    (ansi_reference self) (paragraph_name self) (rec_ct self) (p_or_f self)
    (remark self) (computed_text self) (correct_text self) (xrays self)
    (wrk_xn self) passed failed
    (delete_counter self) (inspect_counter self).

(** [NC101AProgram.__init__], on the registry [__init__] builds. *)
Definition new_program : NC101AProgram :=
  mkNC101AProgram initial_program "NC101A" (ReportPrinter.__init__ "NC101A")
    EmptyString EmptyString EmptyString 0 EmptyString EmptyString None None
    " " " " 0 0 0 0.

Definition _set_feature (feature ansi : string) (self : NC101AProgram)
  : NC101AProgram :=
  mkNC101AProgram (core self) (test_id self) (printer self) feature
    ansi (paragraph_name self) (rec_ct self) (p_or_f self)
    (remark self) (computed_text self) (correct_text self) (xrays self)
    (wrk_xn self) (pass_counter self) (error_counter self)
    (delete_counter self) (inspect_counter self).

(** [_print_detail]: one line for the result, two more for a failure that
    has a computed or a correct text; then the result attributes are
    cleared. *)
Definition _print_detail (par_name : string) (self : NC101AProgram)
  : NC101AProgram :=
  let formatted_name :=
    if 0 <? rec_ct self then par_name +:+ "." +:+ format_0d 2 (rec_ct self)
    else par_name in
  let line :=
    ljust 20 (feature self) +:+ ljust 6 (p_or_f self) +:+
    ljust 24 formatted_name +:+ ljust 24 (ansi_reference self) +:+
    remark self in
  let p := ReportPrinter.write_line line (printer self) in
  let p :=
    if String.eqb (strip (p_or_f self)) "FAIL*" &&
       (truthy (computed_text self) || truthy (correct_text self))
    then
      let comp := or_else (computed_text self) "<not set>" in
      let corr := or_else (correct_text self) "<not set>" in
      let p := ReportPrinter.write_line
                 (ljust 30 EmptyString +:+ "       COMPUTED= " +:+ comp) p in
      ReportPrinter.write_line
        (ljust 30 EmptyString +:+ "       CORRECT = " +:+ corr) p
    else p in
  with_result (with_printer self p) EmptyString EmptyString None None.

Definition _record_pass (par_name : string) (rem : string)
    (self : NC101AProgram) : NC101AProgram :=
  let self := with_result self "PASS " rem (computed_text self) (correct_text self) in
  let self := with_counters self (pass_counter self + 1) (error_counter self) in
  _print_detail par_name self.

Definition _record_fail (par_name : string)
    (computed correct : option (string + Decimal)) (rem : string)
    (self : NC101AProgram) : NC101AProgram :=
  let self := with_result self "FAIL*" rem (computed_text self) (correct_text self) in
  let self := with_counters self (pass_counter self) (error_counter self + 1) in
  let self := with_result self (p_or_f self) (remark self)
                (_format_value computed) (correct_text self) in
  let self := with_result self (p_or_f self) (remark self)
                (computed_text self) (_format_value correct) in
  _print_detail par_name self.

(** One turn of the loop of [_evaluate_fields]. *)
Definition evaluate_field (expectation : string * string * NumberLike * string)
    (self : NC101AProgram) : outcome unit * NC101AProgram :=
  let '(par_name, field_name, expected, rem) := expectation in
  match _field_equals (core self) field_name expected with
  | Raises e => (Raises e, self)
  | Returns true => (Returns tt, _record_pass par_name EmptyString self)
  | Returns false =>
      match (f <~ get_field (core self) field_name ;;
             v <~ _resolve_value (core self) expected ;;
             Returns (value f, v)) with
      | Raises e => (Raises e, self)
      | Returns (computed, correct) =>
          (Returns tt,
           _record_fail par_name (Some (inr computed)) (Some (inr correct)) rem self)
      end
  end.

(** [_evaluate_fields]: [base_name] is not used by the code. *)
Fixpoint _evaluate_fields (base_name : string)
    (expectations : list (string * string * NumberLike * string))
    (self : NC101AProgram) : outcome unit * NC101AProgram :=
  match expectations with
  | [] => (Returns tt, self)
  | expectation :: rest =>
      match evaluate_field expectation self with
      | (Raises e, self) => (Raises e, self)
      | (Returns _, self) => _evaluate_fields base_name rest self
      end
  end.

(** [run_case], the function local to [_run_size_error_matrix]. *)
Definition run_case (par_prefix : string) (multiplicand : NumberLike)
    (multiplier_field : string) (expect_size_error : bool)
    (on_size_value : string) (starting_value : NumberLike)
    (self : NC101AProgram) : outcome unit * NC101AProgram :=
  let self := with_rec_ct self 1 in
  let '(r, c) := set_field multiplier_field starting_value false (core self) in
  let self := with_core self c in
  match r with
  | Raises e => (Raises e, self)
  | Returns _ =>
      let self := with_wrk_xn self (if expect_size_error then "0" else "1") in
      let '(r, c) := _multiply multiplicand multiplier_field [] ∅ (core self) in
      let self := with_core self c in
      match r with
      | Raises e => (Raises e, self)
      | Returns size_error =>
          let self :=
            with_wrk_xn self
              (if size_error
               then (if expect_size_error then "0"%string else on_size_value)
               else (if expect_size_error then "1"%string else on_size_value)) in
          let self :=
            if String.eqb (wrk_xn self)
                 (if expect_size_error then "0"%string else on_size_value)
            then _record_pass (par_prefix +:+ "-1") EmptyString self
            else
              let rem :=
                if expect_size_error then "SIZE ERROR SHOULD HAVE OCCURRED"%string
                else "NOT ON SIZE ERROR SHOULD BE EXECUTED"%string in
              let correct :=
                if expect_size_error then "0"%string else on_size_value in
              _record_fail (par_prefix +:+ "-1") (Some (inl (wrk_xn self)))
                (Some (inl correct)) rem self in
          let self := with_rec_ct self 2 in
          match _field_equals (core self) multiplier_field starting_value with
          | Raises e => (Raises e, self)
          | Returns true =>
              let self := _record_pass (par_prefix +:+ "-2") EmptyString self in
              (Returns tt, with_rec_ct self 0)
          | Returns false =>
              match (f <~ get_field (core self) multiplier_field ;;
                     v <~ _resolve_value (core self) starting_value ;;
                     Returns (value f, v)) with
              | Raises e => (Raises e, self)
              | Returns (computed, correct) =>
                  let self :=
                    _record_fail (par_prefix +:+ "-2") (Some (inr computed))
                      (Some (inr correct)) "WRONGLY AFFECTED BY SIZE ERROR" self in
                  (Returns tt, with_rec_ct self 0)
              end
          end
      end
  end.

(** [_finish_report]. *)
Definition _finish_report (self : NC101AProgram) : NC101AProgram :=
  let p := printer self in
  let p := ReportPrinter.write_line ReportPrinter.hyphen_line p in
  let p := ReportPrinter.write_line ReportPrinter.hyphen_line p in
  let p := ReportPrinter.write_line ReportPrinter.hyphen_line p in
  let p := ReportPrinter.write_line ReportPrinter.hyphen_line p in
  let p := ReportPrinter.write_line ReportPrinter.hyphen_line p in
  let p := ReportPrinter.write_end_banner p in
  let total_tests :=
    pass_counter self + error_counter self + delete_counter self
    + inspect_counter self in
  let success_line :=
    format_d 3 (pass_counter self) +:+ " OF " +:+ format_d 3 total_tests +:+
    "  TESTS WERE EXECUTED SUCCESSFULLY" in
  let p := ReportPrinter.write_line (spaces 20 +:+ success_line) p in
  let p := ReportPrinter.write_footer_line (error_counter self) "TEST(S) FAILED" 31 p in
  let p := ReportPrinter.write_footer_line (delete_counter self)
             "TEST(S) DELETED     " 31 p in
  let p := ReportPrinter.write_footer_line (inspect_counter self)
             "TEST(S) REQUIRE INSPECTION" 31 p in
  let p := ReportPrinter.write_line ReportPrinter.ccvs_e3 p in
  with_printer self p.

(* ===================================================================== *)
(** ** Runs of the program with its report *)
(* ===================================================================== *)

(** The invariant of the printer: every line is a record of 120
    characters, and [record_count] counts the lines. *)
Definition printer_ok (p : ReportPrinter.t) : Prop :=
  Forall (fun line => String.length line = 120%nat) (ReportPrinter.lines p) /\
  ReportPrinter.record_count p = Z.of_nat (length (ReportPrinter.lines p)).

(** The invariant of the program object: besides [printer_ok], every
    result counted has its line, and nothing is ever counted as deleted or
    as requiring inspection. *)
Definition report_ok (self : NC101AProgram) : Prop :=
  printer_ok (printer self) /\
  0 <= pass_counter self /\ 0 <= error_counter self /\
  pass_counter self + error_counter self
    <= Z.of_nat (length (ReportPrinter.lines (printer self))) /\
  delete_counter self = 0 /\ inspect_counter self = 0.

(** The calls a test paragraph makes on the program object. *)
Inductive report_call : Type :=
| Call_registry (c : call)
| Call_write_header
| Call_set_feature (feature ansi : string)
| Call_print_detail (par_name : string)
| Call_record_pass (par_name rem : string)
| Call_record_fail (par_name : string)
    (computed correct : option (string + Decimal)) (rem : string)
| Call_evaluate_fields (base_name : string)
    (expectations : list (string * string * NumberLike * string))
| Call_run_case (par_prefix : string) (multiplicand : NumberLike)
    (multiplier_field : string) (expect_size_error : bool)
    (on_size_value : string) (starting_value : NumberLike)
| Call_finish_report.

(** The state a call leaves behind, whether it returns or raises. *)
Definition run_report_call (c : report_call) (self : NC101AProgram)
  : NC101AProgram :=
  match c with
  | Call_registry c => with_core self (snd (run c (core self)))
  | Call_write_header =>
      with_printer self (ReportPrinter.write_header (printer self))
  | Call_set_feature feature ansi => _set_feature feature ansi self
  | Call_print_detail par_name => _print_detail par_name self
  | Call_record_pass par_name rem => _record_pass par_name rem self
  | Call_record_fail par_name computed correct rem =>
      _record_fail par_name computed correct rem self
  | Call_evaluate_fields base_name expectations =>
      snd (_evaluate_fields base_name expectations self)
  | Call_run_case par_prefix multiplicand multiplier_field expect_size_error
      on_size_value starting_value =>
      snd (run_case par_prefix multiplicand multiplier_field expect_size_error
             on_size_value starting_value self)
  | Call_finish_report => _finish_report self
  end.

Inductive reachable_report : NC101AProgram -> Prop :=
| reachable_report_init : reachable_report new_program
| reachable_report_call (self : NC101AProgram) (c : report_call) :
    reachable_report self -> reachable_report (run_report_call c self).

(** An expectation of [_evaluate_fields] holds: the field equals the
    expected value. *)
Definition holds (c : Program) (expectation : string * string * NumberLike * string)
  : bool :=
  let '(_, field_name, expected, _) := expectation in
  match _field_equals c field_name expected with
  | Returns true => true
  | _ => false
  end.

(* ===================================================================== *)
(** ** The numbers of the program *)
(* ===================================================================== *)

(** A picture of at most 18 digits, the widest the program declares. *)
Definition program_picture (f : Field) : Prop :=
  0 <= digits_left f /\ 0 <= digits_right f /\
  digits_left f + digits_right f <= 18.

(** A number of at most 18 digits with at most 18 of them after the point. *)
Definition program_number (d : Decimal) : bool :=
  match d with
  | Fin _ c e => (ndigits c <=? 18) && (-18 <=? e) && (e <=? 0)
  | _ => false
  end.
(* ===================================================================== *)
(** ** Digits, powers of ten and rationals *)
(* ===================================================================== *)

Lemma pow10_Z (k : Z) : Z.of_N (pow10 k) = 10 ^ k.
Proof. unfold pow10. apply Z2N.id. apply Z.pow_nonneg. lia. Qed.

Lemma ndigits_fuel_bounds (fuel : nat) :
  forall c : N,
    0 < Z.of_N c < 2 ^ Z.of_nat fuel ->
    1 <= ndigits_fuel fuel c /\
    10 ^ (ndigits_fuel fuel c - 1) <= Z.of_N c < 10 ^ ndigits_fuel fuel c.
Proof.
  induction fuel as [|fuel IH]; intros c Hc.
  - simpl in Hc. lia.
  - cbn [ndigits_fuel]. destruct (c <? 10)%N eqn:Hlt.
    + apply N.ltb_lt in Hlt. simpl. lia.
    + apply N.ltb_ge in Hlt.
      assert (Hdiv : Z.of_N (c / 10) = Z.of_N c / 10) by apply N2Z.inj_div.
      assert (Hpow : 2 ^ Z.of_nat (S fuel) = 2 * 2 ^ Z.of_nat fuel).
      { rewrite Nat2Z.inj_succ. apply Z.pow_succ_r. lia. }
      assert (Hq : 0 < Z.of_N c / 10 < 2 ^ Z.of_nat fuel).
      { split.
        - apply Z.div_str_pos. lia.
        - apply Z.div_lt_upper_bound; lia. }
      destruct (IH (c / 10)%N) as [H1 [H2 H3]]; [lia|].
      set (r := ndigits_fuel fuel (c / 10)%N) in *.
      pose proof (Z.div_mod (Z.of_N c) 10 ltac:(lia)) as Hdm.
      pose proof (Z.mod_pos_bound (Z.of_N c) 10 ltac:(lia)) as Hmod.
      replace (1 + r - 1) with (Z.succ (r - 1)) by lia.
      replace (1 + r) with (Z.succ r) by lia.
      rewrite !Z.pow_succ_r by lia. lia.
Qed.

Lemma ndigits_bounds (c : N) :
  (0 < c)%N ->
  1 <= ndigits c /\ 10 ^ (ndigits c - 1) <= Z.of_N c < 10 ^ ndigits c.
Proof.
  intros Hc. apply ndigits_fuel_bounds. split; [lia|].
  pose proof (N.size_gt c) as Hs.
  rewrite N_nat_Z.
  apply N2Z.inj_lt in Hs. rewrite N2Z.inj_pow in Hs. exact Hs.
Qed.

Lemma ndigits_pos (c : N) : 1 <= ndigits c.
Proof.
  destruct (N.eq_dec c 0%N) as [->|Hc]; [done|].
  apply ndigits_bounds. lia.
Qed.

Lemma ndigits_le (c : N) (n : Z) :
  0 <= n -> Z.of_N c < 10 ^ n -> (0 < c)%N -> ndigits c <= n.
Proof.
  intros Hn Hlt Hc. destruct (ndigits_bounds c Hc) as (Hd & H3 & H4).
  destruct (Z_le_gt_dec (ndigits c) n) as [|Hgt]; [done|].
  assert (10 ^ n <= 10 ^ (ndigits c - 1)) by (apply Z.pow_le_mono_r; lia). lia.
Qed.

Lemma ZQ_le (a b : Z) : a <= b <-> (inject_Z a <= inject_Z b)%Q.
Proof. by rewrite Zle_Qle. Qed.

Lemma ZQ_lt (a b : Z) : a < b <-> (inject_Z a < inject_Z b)%Q.
Proof. by rewrite Zlt_Qlt. Qed.

Lemma Qfloor_unique (x : Q) (n : Z) :
  (inject_Z n <= x)%Q -> (x < inject_Z (n + 1))%Q -> Qfloor x = n.
Proof.
  intros H1 H2.
  assert (Ha : n <= Qfloor x).
  { rewrite <- (Qfloor_Z n). by apply Qfloor_resp_le. }
  assert (Hb : Qfloor x < n + 1).
  { apply ZQ_lt. eapply Qle_lt_trans; [apply Qfloor_le|exact H2]. }
  lia.
Qed.

Lemma ten_pos (e : Z) : (0 < 10 ^ e)%Q.
Proof. apply Qpower_0_lt. reflexivity. Qed.

Lemma ten_add (a b : Z) : (10 ^ (a + b) == 10 ^ a * 10 ^ b)%Q.
Proof. apply Qpower_plus. discriminate. Qed.

Lemma ten_Z (n : Z) : 0 <= n -> (inject_Z (10 ^ n) == 10 ^ n)%Q.
Proof. intros Hn. apply (Zpower_Qpower 10 n Hn). Qed.

Lemma ten_opp (n : Z) : (10 ^ (- n) == / 10 ^ n)%Q.
Proof. apply Qpower_opp. Qed.

(** An integer times a power of ten, as an integer or as a quotient. *)
Lemma scale_up (z k : Z) :
  0 <= k -> (inject_Z z * 10 ^ k == inject_Z (z * 10 ^ k))%Q.
Proof. intros Hk. rewrite inject_Z_mult, ten_Z by done. reflexivity. Qed.

Lemma scale_down (z k : Z) :
  0 <= k -> (inject_Z z * 10 ^ (- k) == inject_Z z / inject_Z (10 ^ k))%Q.
Proof. intros Hk. rewrite ten_opp, ten_Z by done. reflexivity. Qed.

Lemma Qfloor_scale_down (z k : Z) :
  0 <= k -> Qfloor (inject_Z z * 10 ^ (- k)) = z / 10 ^ k.
Proof.
  intros Hk. rewrite Zdiv_Qdiv. apply Qfloor_comp. by apply scale_down.
Qed.

Lemma Qfloor_half_int (n : Z) : Qfloor (inject_Z n + (1#2)) = n.
Proof.
  apply Qfloor_unique.
  - lra.
  - rewrite inject_Z_plus. change (inject_Z 1) with 1%Q. lra.
Qed.

Lemma Qfloor_div_half (c D : Z) :
  0 < D ->
  Qfloor (inject_Z c / inject_Z D + (1#2)) =
  c / D + (if D <=? 2 * (c mod D) then 1 else 0).
Proof.
  intros HD.
  pose proof (Z.div_mod c D ltac:(lia)) as Hdm.
  pose proof (Z.mod_pos_bound c D HD) as Hmod.
  set (q := c / D) in *. set (r := c mod D) in *.
  assert (HDQ : (0 < inject_Z D)%Q) by (apply (proj1 (ZQ_lt 0 D)); exact HD).
  assert (Hc : (inject_Z c / inject_Z D == inject_Z q + inject_Z r / inject_Z D)%Q).
  { rewrite Hdm, inject_Z_plus, inject_Z_mult. field. lra. }
  assert (Hr0 : (0 <= inject_Z r / inject_Z D)%Q).
  { apply Qle_shift_div_l; [done|]. rewrite Qmult_0_l.
    apply (proj1 (ZQ_le 0 r)). lia. }
  assert (Hr1 : (inject_Z r / inject_Z D < 1)%Q).
  { apply Qlt_shift_div_r; [done|]. rewrite Qmult_1_l. apply (proj1 (ZQ_lt r D)). lia. }
  apply Qfloor_unique.
  - rewrite Hc. destruct (D <=? 2 * r) eqn:Hh.
    + apply Z.leb_le in Hh.
      assert ((1#2) <= inject_Z r / inject_Z D)%Q.
      { apply Qle_shift_div_l; [done|].
        apply ZQ_le in Hh. rewrite inject_Z_mult in Hh.
        change (inject_Z 2) with 2%Q in Hh. lra. }
      rewrite inject_Z_plus. change (inject_Z 1) with 1%Q. lra.
    + rewrite inject_Z_plus. change (inject_Z 0) with 0%Q. lra.
  - rewrite Hc. destruct (D <=? 2 * r) eqn:Hh.
    + rewrite !inject_Z_plus. change (inject_Z 1) with 1%Q. lra.
    + apply Z.leb_gt in Hh.
      assert (inject_Z r / inject_Z D < (1#2))%Q.
      { apply Qlt_shift_div_r; [done|].
        apply ZQ_lt in Hh. rewrite inject_Z_mult in Hh.
        change (inject_Z 2) with 2%Q in Hh. lra. }
      rewrite !inject_Z_plus. change (inject_Z 1) with 1%Q.
      change (inject_Z 0) with 0%Q. lra.
Qed.

(* ===================================================================== *)
(** ** Field.set: what a call can do to a field *)
(* ===================================================================== *)

Lemma with_value_id (f : Field) : with_value f (value f) = f.
Proof. by destruct f. Qed.

Lemma with_value_twice (f : Field) (v w : Decimal) :
  with_value (with_value f v) w = with_value f w.
Proof. done. Qed.

Lemma _quantize_with_value (f : Field) (w v : Decimal) (rounded : bool) :
  _quantize (with_value f w) v rounded = _quantize f v rounded.
Proof. done. Qed.

Lemma _fits_with_value (f : Field) (w v : Decimal) :
  _fits (with_value f w) v = _fits f v.
Proof. done. Qed.

(** A call of [set] that returns [True] has converted, quantized and
    checked the value, and stores the quantized value. *)
Lemma set_true_inv (f f' : Field) (raw : NumberLike) (rounded : bool) :
  set f raw rounded = (Returns true, f') ->
  exists d v,
    Decimal_of_NumberLike raw = Returns d /\
    _quantize f d rounded = Returns v /\
    _fits f v = Returns true /\
    f' = with_value f v.
Proof.
  unfold set. intros H.
  destruct (Decimal_of_NumberLike raw) as [d|e] eqn:Hd; simpl in H.
  - destruct (_quantize f d rounded) as [v|e] eqn:Hq.
    + destruct (_fits f v) as [[|]|e] eqn:Hf; inversion H; subst.
      exists d, v. by rewrite Hq.
    + destruct e; inversion H.
  - destruct e; inversion H.
Qed.

(** Every other result leaves the field as it was. *)
Lemma set_unchanged (f f' : Field) (raw : NumberLike) (rounded : bool)
    (r : outcome bool) :
  set f raw rounded = (r, f') -> r <> Returns true -> f' = f.
Proof.
  unfold set. intros H Hr.
  destruct (d <~ Decimal_of_NumberLike raw;; _quantize f d rounded) as [v|e].
  - destruct (_fits f v) as [[|]|e']; inversion H; subst; congruence.
  - destruct e; inversion H; subst; congruence.
Qed.

Lemma set_changes_value_only (f f' : Field) (raw : NumberLike) (rounded : bool)
    (r : outcome bool) :
  set f raw rounded = (r, f') -> f' = with_value f (value f').
Proof.
  intros H. destruct (decide (r = Returns true)) as [->|Hr].
  - apply set_true_inv in H as (d & v & _ & _ & _ & ->). done.
  - rewrite (set_unchanged _ _ _ _ _ H Hr). by rewrite with_value_id.
Qed.

(* ===================================================================== *)
(** ** The snapshots and the restoring loop *)
(* ===================================================================== *)



Lemma touched_refl (S : gmap string Decimal) (fs : gmap string Field) :
  touched S fs fs.
Proof. intros k. by left. Qed.

Lemma take_snapshots_spec (self : Program) (names : list string)
    (acc S : gmap string Decimal) :
  take_snapshots self names acc = Returns S ->
  (forall k, k ∈ names -> is_Some (S !! k)) /\
  (forall k, is_Some (acc !! k) -> is_Some (S !! k)) /\
  (forall k v, S !! k = Some v ->
     acc !! k = Some v \/ exists f, fields self !! k = Some f /\ value f = v).
Proof.
  revert acc. induction names as [|key rest IH]; intros acc H; simpl in H.
  - inversion H; subst. split; [|split].
    + intros k Hk. by apply elem_of_nil in Hk.
    + done.
    + intros k v Hk. by left.
  - unfold get_field in H.
    destruct (fields self !! key) as [f|] eqn:Hf; simpl in H; [|done].
    apply IH in H as (H1 & H2 & H3). split; [|split].
    + intros k Hk. apply elem_of_cons in Hk as [->|Hk]; [|by apply H1].
      apply H2. rewrite lookup_insert_eq. by eexists.
    + intros k Hk. apply H2.
      destruct (decide (key = k)) as [->|Hne].
      * rewrite lookup_insert_eq. by eexists.
      * by rewrite lookup_insert_ne.
    + intros k v Hk. apply H3 in Hk as [Hk|Hk]; [|by right].
      destruct (decide (key = k)) as [->|Hne].
      * rewrite lookup_insert_eq in Hk. inversion Hk; subst.
        right. by exists f.
      * rewrite lookup_insert_ne in Hk; [by left|done].
Qed.

Lemma take_snapshots_snapshot_of (self : Program) (names : list string)
    (S : gmap string Decimal) :
  take_snapshots self names ∅ = Returns S -> snapshot_of S (fields self).
Proof.
  intros H k v Hk. apply take_snapshots_spec in H as (_ & _ & H3).
  apply H3 in Hk as [Hk|Hk]; [|done]. by rewrite lookup_empty in Hk.
Qed.

(** The restoring loop writes every snapshot back and raises nothing when
    the snapshot names are names of the registry. *)
Lemma restore_lookup (S : gmap string Decimal) (fs : gmap string Field) :
  (forall k, is_Some (S !! k) -> is_Some (fs !! k)) ->
  exists fs',
    restore S fs = (Returns tt, fs') /\
    forall k, fs' !! k =
      match S !! k with
      | Some v => (fun f => with_value f v) <$> fs !! k
      | None => fs !! k
      end.
Proof.
  unfold restore.
  apply (map_fold_weak_ind
    (fun r (m : gmap string Decimal) =>
       (forall k, is_Some (m !! k) -> is_Some (fs !! k)) ->
       exists fs', r = (Returns tt, fs') /\
         forall k, fs' !! k =
           match m !! k with
           | Some v => (fun f => with_value f v) <$> fs !! k
           | None => fs !! k
           end)).
  - intros _. exists fs. split; [done|]. intros k. by rewrite lookup_empty.
  - intros i x m r Hi IH Hdom.
    destruct IH as (fs' & -> & Hfs').
    { intros k Hk. apply Hdom. destruct (decide (i = k)) as [->|Hne].
      - rewrite lookup_insert_eq. by eexists.
      - by rewrite lookup_insert_ne. }
    destruct (Hdom i) as [f Hf]. { rewrite lookup_insert_eq. by eexists. }
    simpl. rewrite Hfs', Hi, Hf.
    eexists. split; [done|]. intros k.
    destruct (decide (i = k)) as [->|Hne].
    + rewrite !lookup_insert_eq. by rewrite Hf.
    + rewrite !lookup_insert_ne by done. apply Hfs'.
Qed.

Lemma restore_touched (S : gmap string Decimal) (fs0 fs : gmap string Field) :
  snapshot_of S fs0 -> touched S fs0 fs -> restore S fs = (Returns tt, fs0).
Proof.
  intros HS Ht.
  destruct (restore_lookup S fs) as (fs' & -> & Hfs').
  { intros k [v Hv]. destruct (HS k v Hv) as (f & Hf & _).
    destruct (Ht k) as [Hk|(f0 & w & _ & _ & Hk)]; rewrite Hk; [|by eexists].
    rewrite Hf. by eexists. }
  f_equal. apply map_eq. intros k. rewrite Hfs'.
  destruct (S !! k) as [v|] eqn:Hv.
  - destruct (HS k v Hv) as (f & Hf & Hval).
    destruct (Ht k) as [Hk|(f0 & w & Hf0 & _ & Hk)]; rewrite Hk.
    + rewrite Hf. subst v. cbn [fmap option_fmap option_map].
      by rewrite with_value_id.
    + rewrite Hf0. rewrite Hf in Hf0. inversion Hf0; subst f0. subst v.
      cbn [fmap option_fmap option_map].
      by rewrite with_value_twice, with_value_id.
  - destruct (Ht k) as [Hk|(f0 & w & _ & [? Hs] & _)]; [done|].
    rewrite Hv in Hs. done.
Qed.

(* ===================================================================== *)
(** ** The storing loop and _multiply *)
(* ===================================================================== *)

Lemma with_fields_self (self : Program) (fs : gmap string Field) (self0 : Program) :
  constants self = constants self0 -> fs = fields self0 ->
  with_fields self fs = self0.
Proof. destruct self0. unfold with_fields. simpl. by intros -> ->. Qed.

Lemma touched_set (S : gmap string Decimal) (fs0 fs : gmap string Field)
    (key : string) (field field' : Field) (raw : NumberLike) (rounded : bool)
    (r : outcome bool) :
  touched S fs0 fs ->
  fs !! key = Some field ->
  is_Some (S !! key) ->
  set field raw rounded = (r, field') ->
  touched S fs0 (<[key := field']> fs).
Proof.
  intros Ht Hfield HS Hset k. destruct (decide (key = k)) as [<-|Hne].
  - right. rewrite lookup_insert_eq.
    apply set_changes_value_only in Hset.
    destruct (Ht key) as [Hk|(f0 & w & Hf0 & Hs & Hk)].
    + exists field, (value field'). rewrite <- Hk.
      repeat split; [done|done|by rewrite <- Hset].
    + exists f0, (value field'). repeat split; [done|done|].
      rewrite Hk in Hfield. inversion Hfield; subst field.
      by rewrite Hset.
  - rewrite lookup_insert_ne by done. apply Ht.
Qed.

Lemma touched_picture (S : gmap string Decimal) (fs0 fs : gmap string Field)
    (key : string) (field : Field) :
  touched S fs0 fs -> fs !! key = Some field ->
  exists f0, fs0 !! key = Some f0 /\ field = with_value f0 (value field).
Proof.
  intros Ht Hfield. destruct (Ht key) as [Hk|(f0 & w & Hf0 & _ & Hk)].
  - exists field. rewrite <- Hk. split; [done|]. by rewrite with_value_id.
  - exists f0. split; [done|]. rewrite Hk in Hfield.
    by inversion Hfield.
Qed.

(** Whatever the storing loop does, it changes only values of fields that
    were snapshotted, and a size error puts every one of them back. *)
Lemma store_loop_touched (S : gmap string Decimal) (rounded : gset string)
    (product : Decimal) (self0 : Program) (names : list string) :
  snapshot_of S (fields self0) ->
  forall (self self' : Program) (r : outcome bool),
    constants self = constants self0 ->
    touched S (fields self0) (fields self) ->
    (forall k, k ∈ names -> is_Some (S !! k)) ->
    store_loop S rounded product names self = (r, self') ->
    constants self' = constants self0 /\
    touched S (fields self0) (fields self') /\
    (r = Returns true -> self' = self0).
Proof.
  intros HS. induction names as [|key rest IH]; intros self self' r Hc Ht Hn H.
  - simpl in H. inversion H; subst. by repeat split.
  - simpl in H. unfold get_field in H.
    destruct (fields self !! key) as [field|] eqn:Hfield.
    2:{ inversion H; subst. by repeat split. }
    destruct (set field (NL_Decimal product) (bool_decide (key ∈ rounded)))
      as [r1 field'] eqn:Hset.
    assert (Ht' : touched S (fields self0) (<[key := field']> (fields self))).
    { eapply touched_set; [exact Ht|exact Hfield| |exact Hset]. apply Hn. by left. }
    destruct r1 as [[|]|e].
    + apply (IH (with_fields self (<[key := field']> (fields self))));
        [done|exact Ht'| |exact H].
      intros k Hk. apply Hn. by right.
    + simpl in H. rewrite (restore_touched S _ _ HS Ht') in H.
      inversion H; subst. repeat split; [done|apply touched_refl|].
      intros _. by apply with_fields_self.
    + inversion H; subst. by repeat split.
Qed.

(** The two ways a call of [_multiply] can go: an exception before the
    loop, with the program untouched, or the storing loop run on the
    product of the values read before the loop. *)
Lemma _multiply_inv (multiplicand : NumberLike) (multiplier : string)
    (additional : list string) (rounded : gset string)
    (self self' : Program) (r : outcome bool) :
  _multiply multiplicand multiplier additional rounded self = (r, self') ->
  (exists e, r = Raises e /\ self' = self) \/
  (exists mv f0 S product,
     _resolve_value self multiplicand = Returns mv /\
     fields self !! multiplier = Some f0 /\
     take_snapshots self (multiplier :: additional) ∅ = Returns S /\
     Decimal_mul mv (value f0) = Returns product /\
     store_loop S rounded product (multiplier :: additional) self = (r, self')).
Proof.
  unfold _multiply. intros H.
  destruct (_resolve_value self multiplicand) as [mv|e] eqn:Hmv.
  2:{ left. inversion H. by eexists. }
  cbn [obind] in H. unfold get_field in H at 1.
  destruct (fields self !! multiplier) as [f0|] eqn:Hf0.
  2:{ left. inversion H. by eexists. }
  cbn [obind] in H.
  destruct (take_snapshots self (multiplier :: additional) ∅) as [S|e] eqn:HS.
  2:{ left. inversion H. by eexists. }
  cbn [obind] in H. unfold clone_value in H.
  destruct (Decimal_mul mv (value f0)) as [product|e] eqn:Hp.
  2:{ left. inversion H. by eexists. }
  cbn [obind] in H. right. by exists mv, f0, S, product.
Qed.

(** A size error leaves the whole program object as it was. *)
Lemma _multiply_size_error_restores (multiplicand : NumberLike)
    (multiplier : string) (additional : list string) (rounded : gset string)
    (self self' : Program) :
  _multiply multiplicand multiplier additional rounded self = (Returns true, self') ->
  self' = self.
Proof.
  intros H. apply _multiply_inv in H as [(e & He & _)|(mv & f0 & S & p & _ & _ & HS & _ & H)].
  - done.
  - pose proof (take_snapshots_snapshot_of _ _ _ HS) as Hsnap.
    apply take_snapshots_spec in HS as (Hn & _ & _).
    by apply (store_loop_touched S rounded p self _ Hsnap self self' _
                eq_refl (touched_refl _ _) Hn) in H as (_ & _ & ->).
Qed.


(** A storing loop that ends without a size error has stored the product
    in every receiver and touched no other field. *)
Lemma store_loop_success (S : gmap string Decimal) (rounded : gset string)
    (product : Decimal) (fs0 : gmap string Field) (names : list string) :
  forall (self self' : Program) (D : string -> Prop),
    touched S fs0 (fields self) ->
    (forall k, k ∈ names -> is_Some (S !! k)) ->
    (forall k, D k -> stored product rounded fs0 (fields self) k) ->
    store_loop S rounded product names self = (Returns false, self') ->
    (forall k, D k \/ k ∈ names -> stored product rounded fs0 (fields self') k) /\
    (forall k, k ∉ names -> fields self' !! k = fields self !! k).
Proof.
  induction names as [|key rest IH]; intros self self' D Ht Hn HD H.
  - simpl in H. inversion H; subst. split; [|done].
    intros k [Hk|Hk]; [by apply HD|by apply elem_of_nil in Hk].
  - simpl in H. unfold get_field in H.
    destruct (fields self !! key) as [field|] eqn:Hfield; [|done].
    destruct (set field (NL_Decimal product) (bool_decide (key ∈ rounded)))
      as [r1 field'] eqn:Hset.
    assert (HSkey : is_Some (S !! key)) by (apply Hn; by left).
    pose proof (touched_set _ _ _ _ _ _ _ _ _ Ht Hfield HSkey Hset) as Ht'.
    destruct r1 as [[|]|e]; [| |done].
    2:{ simpl in H.
        destruct (restore S (<[key:=field']> (fields self))) as [[?|?] ?]; done. }
    apply set_true_inv in Hset as (d & v & Hd & Hq & Hf & ->).
    simpl in Hd. inversion Hd; subst d.
    destruct (touched_picture _ _ _ _ _ Ht Hfield) as (f0 & Hf0 & Hpic).
    rewrite Hpic, _quantize_with_value in Hq.
    rewrite Hpic, _fits_with_value in Hf.
    apply (IH _ _ (fun k => D k \/ k = key)) in H as [H1 H2].
    + split.
      * intros k [Hk|Hk]; apply H1; [by left; left|].
        apply elem_of_cons in Hk as [->|Hk]; [by left; right|by right].
      * intros k Hk. rewrite H2.
        -- simpl. rewrite lookup_insert_ne; [done|]. intros ->. apply Hk. by left.
        -- intros Hk'. apply Hk. by right.
    + exact Ht'.
    + intros k Hk. apply Hn. by right.
    + intros k [Hk| ->].
      * destruct (decide (key = k)) as [<-|Hne].
        -- exists f0, v. simpl. rewrite lookup_insert_eq, Hpic. done.
        -- destruct (HD k Hk) as (g0 & q & ? & ? & ? & ?).
           exists g0, q. simpl. by rewrite lookup_insert_ne.
      * exists f0, v. simpl. rewrite lookup_insert_eq, Hpic. done.
Qed.

(* ===================================================================== *)
(** ** The decimal operations on finite numbers *)
(* ===================================================================== *)

(** Linear arithmetic with the constants of the context unfolded. *)
Ltac ctx_lia := unfold Etiny, Etop, Emin, Emax, prec in *; lia.

Lemma pow10_pos (k : Z) : 0 <= k -> (0 < pow10 k)%N.
Proof.
  intros Hk. pose proof (pow10_Z k) as H.
  assert (0 < 10 ^ k) by (apply Z.pow_pos_nonneg; lia). lia.
Qed.

(** A number the context can hold is left alone by [_fix]. *)
Lemma fix_finite_id (s : bool) (c : N) (e : Z) :
  Etiny <= e ->
  (c = 0%N -> e <= Emax) ->
  (c <> 0%N -> ndigits c <= prec /\ adjusted c e <= Emax) ->
  fix_finite s c e = Returns (Fin s c e).
Proof.
  intros He H0 Hc. unfold fix_finite.
  destruct (c =? 0)%N eqn:Hz.
  - apply N.eqb_eq in Hz. subst c. specialize (H0 eq_refl).
    by rewrite Z.max_l, Z.min_l by lia.
  - apply N.eqb_neq in Hz. destruct (Hc Hz) as [Hd Ha].
    unfold adjusted, Etop, prec in *.
    destruct (Emax - 60 + 1 <? ndigits c + e - 60) eqn:H1;
      [apply Z.ltb_lt in H1; lia|].
    destruct (e <? Z.max (ndigits c + e - 60) Etiny) eqn:H2;
      [apply Z.ltb_lt in H2; lia|].
    done.
Qed.

Lemma round_coeff_zero (mode : rounding_mode) (k : Z) :
  0 < k -> round_coeff mode 0 k = 0%N.
Proof.
  intros Hk. pose proof (pow10_pos k ltac:(lia)) as Hp.
  assert (H10 : (2 <= pow10 k)%N).
  { assert (Z.of_N (pow10 k) = 10 ^ k) by apply pow10_Z.
    assert (10 ^ 1 <= 10 ^ k) by (apply Z.pow_le_mono_r; lia).
    change (10 ^ 1) with 10 in *. lia. }
  unfold round_coeff.
  rewrite N.Div0.div_0_l, N.Div0.mod_0_l.
  destruct mode; [done| |].
  - destruct (pow10 k <=? 2 * 0)%N eqn:H; [apply N.leb_le in H; lia|done].
  - destruct (2 * 0 <? pow10 k)%N eqn:H; [done|apply N.ltb_ge in H; lia].
Qed.

Lemma rescale_coeff_zero (mode : rounding_mode) (e t : Z) :
  rescale_coeff mode 0 e t = 0%N.
Proof.
  unfold rescale_coeff. destruct (t <=? e) eqn:H; [done|].
  apply Z.leb_gt in H. apply round_coeff_zero. lia.
Qed.

(** [quantize] of a finite number either raises [InvalidOperation] or
    returns the rescaled coefficient at the target exponent. *)
Lemma Decimal_quantize_finite (s s0 : bool) (c c0 : N) (e t : Z)
    (mode : rounding_mode) :
  Decimal_quantize (Fin s c e) (Fin s0 c0 t) mode = Raises InvalidOperation \/
  (Decimal_quantize (Fin s c e) (Fin s0 c0 t) mode =
     Returns (Fin s (rescale_coeff mode c e t) t) /\
   Etiny <= t <= Emax /\
   ndigits (rescale_coeff mode c e t) <= prec /\
   (c <> 0%N -> adjusted c e <= Emax)).
Proof.
  unfold Decimal_quantize. cbn [check_nans is_snan is_nan orb].
  destruct ((Etiny <=? t) && (t <=? Emax)) eqn:Ht; cbn [negb]; [|by left].
  apply andb_true_iff in Ht as [Ht1 Ht2].
  apply Z.leb_le in Ht1. apply Z.leb_le in Ht2.
  destruct (c =? 0)%N eqn:Hz.
  { apply N.eqb_eq in Hz. subst c. right.
    rewrite rescale_coeff_zero. split; [|done].
    apply fix_finite_id; [done|done|done]. }
  destruct (Emax <? adjusted c e) eqn:Hadj; [by left|].
  apply Z.ltb_ge in Hadj.
  destruct (prec <? adjusted c e - t + 1); [by left|].
  destruct (Emax <? adjusted (rescale_coeff mode c e t) t) eqn:Ha; [by left|].
  destruct (prec <? ndigits (rescale_coeff mode c e t)) eqn:Hd; [by left|].
  apply Z.ltb_ge in Ha. apply Z.ltb_ge in Hd.
  right. split; [|done]. apply fix_finite_id; try done.
Qed.

(** What [Decimal("1").scaleb(n)] returns when it returns. *)
Lemma Decimal_one_scaleb_returns (n : Z) (x : Decimal) :
  Decimal_one_scaleb n = Returns x ->
  n <= Emax /\
  x = Fin false (if Etiny <=? n then 1 else 0) (Z.max n Etiny).
Proof.
  unfold Decimal_one_scaleb.
  destruct (negb _); [done|].
  unfold fix_finite. change (1 =? 0)%N with false. cbv iota.
  change (ndigits 1) with 1.
  destruct (Etop <? 1 + n - prec) eqn:H1; [intros H; discriminate H|].
  apply Z.ltb_ge in H1. unfold Etop, prec in H1.
  destruct (n <? Z.max (1 + n - prec) Etiny) eqn:H2.
  - apply Z.ltb_lt in H2. unfold prec in H2.
    assert (Hn : n < Etiny) by lia.
    rewrite (Z.max_r (1 + n - prec) Etiny) by (unfold prec; lia).
    assert (Hr : round_coeff ROUND_HALF_EVEN 1 (Etiny - n) = 0%N).
    { unfold round_coeff.
      assert (Hp : (10 <= pow10 (Etiny - n))%N).
      { assert (Z.of_N (pow10 (Etiny - n)) = 10 ^ (Etiny - n)) by apply pow10_Z.
        assert (10 ^ 1 <= 10 ^ (Etiny - n)) by (apply Z.pow_le_mono_r; lia).
        change (10 ^ 1) with 10 in *. lia. }
      rewrite N.div_small, N.mod_small by lia.
      destruct (2 * 1 <? pow10 (Etiny - n))%N eqn:H; [done|].
      apply N.ltb_ge in H. lia. }
    rewrite Hr. change (ndigits 0) with 1. cbn [Z.ltb Z.compare prec].
    intros H. inversion H; subst. split; [lia|].
    rewrite (Z.max_r n Etiny) by lia.
    destruct (Etiny <=? n) eqn:H3; [apply Z.leb_le in H3; lia|done].
  - apply Z.ltb_ge in H2. unfold prec in H2.
    intros H. inversion H; subst. split; [lia|].
    assert (Etiny <= n) by lia.
    rewrite Z.max_l by lia.
    destruct (Etiny <=? n) eqn:H3; [done|apply Z.leb_gt in H3; lia].
Qed.

(** [Decimal("1").scaleb(n)] in full. *)
Lemma Decimal_one_scaleb_eq (n : Z) :
  Decimal_one_scaleb n =
  if negb ((- (2 * (Emax + prec)) <=? n) && (n <=? 2 * (Emax + prec)))
  then Raises InvalidOperation
  else if Emax <? n then Raises Overflow
  else Returns (Fin false (if Etiny <=? n then 1%N else 0%N) (Z.max n Etiny)).
Proof.
  destruct (Decimal_one_scaleb n) as [x|e] eqn:H.
  - apply Decimal_one_scaleb_returns in H as H'. destruct H' as [Hn ->].
    unfold Decimal_one_scaleb in H.
    destruct (negb _); [done|].
    destruct (Emax <? n) eqn:H1; [apply Z.ltb_lt in H1; lia|done].
  - unfold Decimal_one_scaleb in H.
    destruct (negb _); [done|].
    unfold fix_finite in H. change (1 =? 0)%N with false in H. cbv iota in H.
    change (ndigits 1) with 1 in H.
    destruct (Etop <? 1 + n - prec) eqn:H1.
    + apply Z.ltb_lt in H1. unfold Etop, prec in H1.
      destruct (Emax <? n) eqn:H2; [done|apply Z.ltb_ge in H2; lia].
    + apply Z.ltb_ge in H1. unfold Etop, prec in H1.
      destruct (n <? Z.max (1 + n - prec) Etiny) eqn:H2; [|done].
      apply Z.ltb_lt in H2. unfold prec in H2.
      assert (Hn : n < Etiny) by lia.
      rewrite (Z.max_r (1 + n - prec) Etiny) in H by (unfold prec; lia).
      destruct (prec <? ndigits (round_coeff ROUND_HALF_EVEN 1 (Etiny - n))).
      * cbn [Z.add] in H. discriminate H.
      * discriminate H.
Qed.

(** [_quantize] on a finite number returns the coefficient rescaled to
    the exponent [-digits_right] (or [Etiny], when that is above). *)
Lemma _quantize_finite (f : Field) (s : bool) (c : N) (e : Z)
    (rounded : bool) (q : Decimal) :
  _quantize f (Fin s c e) rounded = Returns q ->
  let t := Z.max (- digits_right f) Etiny in
  let mode := if rounded then ROUND_HALF_UP else ROUND_DOWN in
  q = Fin s (rescale_coeff mode c e t) t /\
  Etiny <= t <= Emax /\
  ndigits (rescale_coeff mode c e t) <= prec /\
  (c <> 0%N -> adjusted c e <= Emax).
Proof.
  unfold _quantize. rewrite Decimal_one_scaleb_eq.
  destruct (negb _); [done|].
  destruct (Emax <? - digits_right f); [done|].
  cbn [obind]. intros H.
  destruct (Decimal_quantize_finite s false c
              (if Etiny <=? - digits_right f then 1%N else 0%N) e
              (Z.max (- digits_right f) Etiny)
              (if rounded then ROUND_HALF_UP else ROUND_DOWN))
    as [Hr|(Hr & Ht & Hd & Ha)]; rewrite Hr in H; [done|].
  inversion H; subst. done.
Qed.

(** [_quantize] raises nothing but [InvalidOperation] on a field with
    fractional digits, and only that or [Overflow] otherwise. *)
Lemma _quantize_raises (f : Field) (v : Decimal) (rounded : bool) (e : exn) :
  _quantize f v rounded = Raises e ->
  e = InvalidOperation \/ (e = Overflow /\ Emax < - digits_right f).
Proof.
  unfold _quantize. rewrite Decimal_one_scaleb_eq.
  destruct (negb _); [intros H; inversion H; by left|].
  destruct (Emax <? - digits_right f) eqn:Hn.
  { apply Z.ltb_lt in Hn. intros H; inversion H. by right. }
  cbn [obind]. intros H. left.
  destruct v as [s c x|s|s [|]].
  - destruct (Decimal_quantize_finite s false c
                (if Etiny <=? - digits_right f then 1%N else 0%N) x
                (Z.max (- digits_right f) Etiny)
                (if rounded then ROUND_HALF_UP else ROUND_DOWN))
      as [Hr|(Hr & _)]; rewrite Hr in H; by inversion H.
  - by inversion H.
  - by inversion H.
  - by inversion H.
Qed.

(** [toward_zero] and [half_up] see only the value of a rational. *)
Lemma toward_zero_comp (x y : Q) : (x == y)%Q -> toward_zero x = toward_zero y.
Proof.
  intros H. unfold toward_zero. rewrite (Qleb_comp 0%Q 0%Q (Qeq_refl 0%Q) x y H).
  destruct (Qle_bool 0 y); [by apply Qfloor_comp|by apply Qceiling_comp].
Qed.

Lemma half_up_comp (x y : Q) : (x == y)%Q -> half_up x = half_up y.
Proof.
  intros H. unfold half_up. rewrite (Qleb_comp 0%Q 0%Q (Qeq_refl 0%Q) x y H).
  destruct (Qle_bool 0 y); [apply Qfloor_comp|apply Qceiling_comp]; by rewrite H.
Qed.

Lemma Qfloor_nonneg (y : Q) : (0 <= y)%Q -> 0 <= Qfloor y.
Proof. intros H. rewrite <- (Qfloor_Z 0). by apply Qfloor_resp_le. Qed.

Lemma toward_zero_signed (s : bool) (y : Q) :
  (0 <= y)%Q ->
  toward_zero (if s then - y else y)%Q = if s then - Qfloor y else Qfloor y.
Proof.
  intros Hy. unfold toward_zero. destruct s.
  - destruct (Qle_bool 0 (- y)) eqn:Hb.
    + apply Qle_bool_iff in Hb.
      assert (Hz : (y == 0)%Q) by lra.
      rewrite (Qfloor_comp _ _ Hz).
      assert (Hz' : (- y == 0)%Q) by lra.
      rewrite (Qfloor_comp _ _ Hz'). done.
    + unfold Qceiling. f_equal. apply Qfloor_comp. lra.
  - destruct (Qle_bool 0 y) eqn:Hb; [done|].
    apply Qle_bool_iff in Hy. congruence.
Qed.

Lemma half_up_signed (s : bool) (y : Q) :
  (0 <= y)%Q ->
  half_up (if s then - y else y)%Q =
  if s then - Qfloor (y + (1#2)) else Qfloor (y + (1#2)).
Proof.
  intros Hy. unfold half_up. destruct s.
  - destruct (Qle_bool 0 (- y)) eqn:Hb.
    + apply Qle_bool_iff in Hb.
      assert (Hz : (y + (1#2) == 1#2)%Q) by lra.
      rewrite (Qfloor_comp _ _ Hz).
      assert (Hz' : (- y + (1#2) == 1#2)%Q) by lra.
      rewrite (Qfloor_comp _ _ Hz'). done.
    + unfold Qceiling. f_equal. apply Qfloor_comp. lra.
  - destruct (Qle_bool 0 y) eqn:Hb; [done|].
    apply Qle_bool_iff in Hy. congruence.
Qed.

(** The rescaled coefficient is the integer part, or the nearest integer,
    of the magnitude in units of the target exponent. *)
Lemma rescale_coeff_down (c : N) (e t : Z) :
  Z.of_N (rescale_coeff ROUND_DOWN c e t) =
  Qfloor (inject_Z (Z.of_N c) * 10 ^ (e - t))%Q.
Proof.
  unfold rescale_coeff. destruct (t <=? e) eqn:Ht.
  - apply Z.leb_le in Ht.
    rewrite N2Z.inj_mul, pow10_Z.
    rewrite (Qfloor_comp _ _ (scale_up _ (e - t) ltac:(lia))).
    by rewrite Qfloor_Z.
  - apply Z.leb_gt in Ht. unfold round_coeff.
    rewrite N2Z.inj_div, pow10_Z.
    replace (e - t) with (- (t - e)) by lia.
    rewrite Qfloor_scale_down by lia. done.
Qed.

Lemma rescale_coeff_half_up (c : N) (e t : Z) :
  Z.of_N (rescale_coeff ROUND_HALF_UP c e t) =
  Qfloor (inject_Z (Z.of_N c) * 10 ^ (e - t) + (1#2))%Q.
Proof.
  unfold rescale_coeff. destruct (t <=? e) eqn:Ht.
  - apply Z.leb_le in Ht.
    rewrite N2Z.inj_mul, pow10_Z.
    assert (H : (inject_Z (Z.of_N c) * 10 ^ (e - t) + (1#2) ==
                 inject_Z (Z.of_N c * 10 ^ (e - t)) + (1#2))%Q).
    { rewrite (scale_up _ (e - t)) by lia. reflexivity. }
    rewrite (Qfloor_comp _ _ H). by rewrite Qfloor_half_int.
  - apply Z.leb_gt in Ht. unfold round_coeff.
    assert (HD : 0 < 10 ^ (t - e)) by (apply Z.pow_pos_nonneg; lia).
    assert (H : (inject_Z (Z.of_N c) * 10 ^ (e - t) + (1#2) ==
                 inject_Z (Z.of_N c) / inject_Z (10 ^ (t - e)) + (1#2))%Q).
    { replace (e - t) with (- (t - e)) by lia.
      rewrite scale_down by lia. reflexivity. }
    rewrite (Qfloor_comp _ _ H), (Qfloor_div_half _ _ HD).
    pose proof (pow10_Z (t - e)) as Hp.
    destruct (pow10 (t - e) <=? 2 * (c mod pow10 (t - e)))%N eqn:Hh.
    + apply N.leb_le in Hh.
      destruct (10 ^ (t - e) <=? 2 * (Z.of_N c mod 10 ^ (t - e))) eqn:Hz.
      * rewrite N2Z.inj_add, N2Z.inj_div, Hp. done.
      * apply Z.leb_gt in Hz. rewrite <- Hp, <- N2Z.inj_mod in Hz. lia.
    + apply N.leb_gt in Hh.
      destruct (10 ^ (t - e) <=? 2 * (Z.of_N c mod 10 ^ (t - e))) eqn:Hz.
      * apply Z.leb_le in Hz. rewrite <- Hp, <- N2Z.inj_mod in Hz. lia.
      * rewrite N2Z.inj_div, Hp. lia.
Qed.

Lemma to_Q_signed (s : bool) (c : N) (e : Z) :
  (to_Q (Fin s c e) ==
   if s then - (inject_Z (Z.of_N c) * 10 ^ e) else inject_Z (Z.of_N c) * 10 ^ e)%Q.
Proof.
  unfold to_Q, signed_coeff. destruct s; [|reflexivity].
  rewrite inject_Z_opp. ring.
Qed.

Lemma magnitude_nonneg (c : N) (e : Z) : (0 <= inject_Z (Z.of_N c) * 10 ^ e)%Q.
Proof.
  apply Qmult_le_0_compat.
  - apply (proj1 (ZQ_le 0 (Z.of_N c))). lia.
  - apply Qlt_le_weak, ten_pos.
Qed.

(** The quantized decimal denotes the number the specification asks for. *)
Lemma quantized_value (s : bool) (c : N) (e t : Z) (rounded : bool) :
  (to_Q (Fin s (rescale_coeff (if rounded then ROUND_HALF_UP else ROUND_DOWN) c e t) t)
   == spec_quantize (to_Q (Fin s c e)) (- t) rounded)%Q.
Proof.
  unfold spec_quantize. rewrite Z.opp_involutive.
  apply Qmult_comp; [|reflexivity].
  assert (Hx : (to_Q (Fin s c e) * 10 ^ (- t) ==
                if s then - (inject_Z (Z.of_N c) * 10 ^ (e - t))
                else inject_Z (Z.of_N c) * 10 ^ (e - t))%Q).
  { assert (Hp : (10 ^ (e - t) == 10 ^ e * 10 ^ (- t))%Q).
    { replace (e - t) with (e + - t) by lia. apply ten_add. }
    rewrite to_Q_signed. destruct s; rewrite Hp; ring. }
  pose proof (magnitude_nonneg c (e - t)) as Hy.
  destruct rounded.
  - rewrite (half_up_comp _ _ Hx), (half_up_signed s _ Hy).
    rewrite <- rescale_coeff_half_up. unfold signed_coeff. by destruct s.
  - rewrite (toward_zero_comp _ _ Hx), (toward_zero_signed s _ Hy).
    rewrite <- rescale_coeff_down. unfold signed_coeff. by destruct s.
Qed.

(* ===================================================================== *)
(** ** Comparison and the fit check *)
(* ===================================================================== *)

Lemma to_Q_aligned (s : bool) (c : N) (e m : Z) :
  m <= e ->
  (to_Q (Fin s c e) == inject_Z (signed_coeff s c * 10 ^ (e - m)) * 10 ^ m)%Q.
Proof.
  intros Hm. unfold to_Q.
  rewrite <- (scale_up _ (e - m)) by lia.
  rewrite <- Qmult_assoc, <- ten_add.
  replace (e - m + m) with e by lia. reflexivity.
Qed.

(** [<] on finite decimals is [<] on the numbers they denote. *)
Lemma Decimal_lt_finite (s1 s2 : bool) (c1 c2 : N) (e1 e2 : Z) :
  exists b,
    Decimal_lt (Fin s1 c1 e1) (Fin s2 c2 e2) = Returns b /\
    (b = true <-> (to_Q (Fin s1 c1 e1) < to_Q (Fin s2 c2 e2))%Q).
Proof.
  unfold Decimal_lt. cbn [is_nan orb Decimal_cmp].
  set (m := Z.min e1 e2).
  set (A := signed_coeff s1 c1 * 10 ^ (e1 - m)).
  set (B := signed_coeff s2 c2 * 10 ^ (e2 - m)).
  eexists. split; [reflexivity|].
  rewrite (to_Q_aligned s1 c1 e1 m), (to_Q_aligned s2 c2 e2 m) by lia.
  fold A B. rewrite (Qmult_lt_r _ _ _ (ten_pos m)), <- Zlt_Qlt.
  destruct (Z.compare_spec A B); split; intros; try done; lia.
Qed.

Lemma Decimal_lt_true (a b : Decimal) :
  is_finite a = true -> is_finite b = true ->
  (to_Q a < to_Q b)%Q -> Decimal_lt a b = Returns true.
Proof.
  destruct a as [s1 c1 e1| |]; [|done|done].
  destruct b as [s2 c2 e2| |]; [|done|done]. intros _ _ H.
  destruct (Decimal_lt_finite s1 s2 c1 c2 e1 e2) as (b & -> & Hb).
  f_equal. by apply Hb.
Qed.

Lemma Decimal_lt_false (a b : Decimal) :
  is_finite a = true -> is_finite b = true ->
  (to_Q b <= to_Q a)%Q -> Decimal_lt a b = Returns false.
Proof.
  destruct a as [s1 c1 e1| |]; [|done|done].
  destruct b as [s2 c2 e2| |]; [|done|done]. intros _ _ H.
  destruct (Decimal_lt_finite s1 s2 c1 c2 e1 e2) as (b & -> & Hb).
  f_equal. destruct b; [|done].
  apply Qle_not_lt in H. destruct H. by apply Hb.
Qed.

Lemma Decimal_lt_inv (a b : Decimal) (r : bool) :
  is_finite a = true -> is_finite b = true ->
  Decimal_lt a b = Returns r ->
  if r then (to_Q a < to_Q b)%Q else (to_Q b <= to_Q a)%Q.
Proof.
  destruct a as [s1 c1 e1| |]; [|done|done].
  destruct b as [s2 c2 e2| |]; [|done|done]. intros _ _ H.
  destruct (Decimal_lt_finite s1 s2 c1 c2 e1 e2) as (b & Hb & Hiff).
  rewrite Hb in H. inversion H; subst r. destruct b.
  - by apply Hiff.
  - apply Qnot_lt_le. intros Hlt. apply Hiff in Hlt. done.
Qed.

Lemma to_Q_zero : (to_Q (Decimal_of_int 0) == 0)%Q.
Proof. reflexivity. Qed.

Lemma to_Q_limit (n : Z) : (to_Q (Fin false 1 n) == 10 ^ n)%Q.
Proof. unfold to_Q, signed_coeff. change (inject_Z (Z.of_N 1)) with 1%Q. ring. Qed.

Lemma to_Q_minus_limit (n : Z) : (to_Q (Fin true 1 n) == - 10 ^ n)%Q.
Proof. unfold to_Q, signed_coeff. change (inject_Z (- Z.of_N 1)) with (-1)%Q. ring. Qed.

Lemma Decimal_neg_limit (n : Z) :
  Etiny <= n <= Emax -> Decimal_neg (Fin false 1 n) = Returns (Fin true 1 n).
Proof.
  intros Hn. unfold Decimal_neg. change (1 =? 0)%N with false. cbv iota.
  apply fix_finite_id; [lia|done|]. intros _.
  unfold adjusted. change (ndigits 1) with 1. unfold prec. lia.
Qed.

(** The fit check on a finite number, when the limit [10^digits_left] is
    within the range of the context. *)
Lemma _fits_spec (f : Field) (s : bool) (c : N) (e : Z) :
  Etiny <= digits_left f <= Emax ->
  exists b,
    _fits f (Fin s c e) = Returns b /\
    (b = true <-> spec_fits f (to_Q (Fin s c e))).
Proof.
  intros Hdl. unfold _fits, spec_fits.
  assert (Hneg : exists neg,
    (if signed f then Returns false else Decimal_lt (Fin s c e) (Decimal_of_int 0)) = Returns neg /\
    (neg = true <-> signed f = false /\ (to_Q (Fin s c e) < 0)%Q)).
  { destruct (signed f).
    - exists false. split; [done|]. split; [done|]. by intros [? _].
    - destruct (Decimal_lt_finite s false c 0 e 0) as (b & Hb & Hiff).
      exists b. split; [exact Hb|]. rewrite Hiff.
      change (to_Q (Fin false 0 0)) with (to_Q (Decimal_of_int 0)).
      rewrite to_Q_zero. tauto. }
  destruct Hneg as (neg & -> & Hneg). cbn [obind].
  destruct neg.
  { exists false. split; [done|]. split; [done|].
    intros [H0 _]. destruct Hneg as [Hneg _].
    destruct (Hneg eq_refl) as [Hs Hlt]. specialize (H0 Hs). lra. }
  assert (Hsign : signed f = false -> (0 <= to_Q (Fin s c e))%Q).
  { intros Hs. apply Qnot_lt_le. intros Hlt.
    destruct Hneg as [_ Hneg]. by specialize (Hneg (conj Hs Hlt)). }
  unfold Decimal_pow10.
  destruct (Emax <? digits_left f) eqn:H1; [apply Z.ltb_lt in H1; lia|].
  destruct (digits_left f <? Etiny) eqn:H2; [apply Z.ltb_lt in H2; lia|].
  cbn [obind]. rewrite (Decimal_neg_limit _ Hdl). cbn [obind].
  destruct (Decimal_lt_finite true s 1 c (digits_left f) e) as (b1 & -> & Hb1).
  cbn [obind].  rewrite to_Q_minus_limit in Hb1.
  destruct b1.
  - destruct (Decimal_lt_finite s false c 1 e (digits_left f)) as (b2 & -> & Hb2).
    rewrite to_Q_limit in Hb2.
    exists b2. split; [done|]. rewrite Hb2.
    destruct Hb1 as [Hb1 _]. specialize (Hb1 eq_refl). tauto.
  - exists false. split; [done|]. split; [done|].
    intros (_ & Hlo & _). apply Hb1 in Hlo. done.
Qed.

(** A value that passes the fit check is a finite number within the
    width and sign of the field. *)
Lemma _fits_true_inv (f : Field) (v : Decimal) :
  _fits f v = Returns true ->
  is_finite v = true /\ spec_fits f (to_Q v) /\ Etiny <= digits_left f <= Emax.
Proof.
  intros H.
  assert (Hdl : Etiny <= digits_left f <= Emax /\ is_finite v = true).
  { unfold _fits in H.
    destruct (if signed f then Returns false else Decimal_lt v (Decimal_of_int 0))
      as [[|]|] eqn:Hn; [done| |done].
    cbn [obind] in H. unfold Decimal_pow10 in H.
    destruct (Emax <? digits_left f) eqn:H1; [done|]. apply Z.ltb_ge in H1.
    destruct (digits_left f <? Etiny) eqn:H2.
    - cbn [obind Decimal_neg] in H. change (0 =? 0)%N with true in H.
      cbv iota in H.
      rewrite fix_finite_id in H by (unfold Etiny, Emin, Emax, prec; (lia || done)).
      cbn [obind] in H.
      destruct v as [s c e|s|s g]; [|by destruct s|done].
      destruct (Decimal_lt (Fin false 0 Etiny) (Fin s c e)) as [[|]|] eqn:Ha;
        [|done|done].
      apply Decimal_lt_inv in Ha; [|done|done].
      apply Decimal_lt_inv in H; [|done|done].
      assert (Hz : (to_Q (Fin false 0 Etiny) == 0)%Q).
      { unfold to_Q, signed_coeff. change (inject_Z (Z.of_N 0)) with 0%Q.
        generalize (10 ^ Etiny)%Q. intros x. ring. }
      rewrite Hz in Ha, H. lra.
    - apply Z.ltb_ge in H2. split; [lia|].
      cbn [obind] in H. rewrite Decimal_neg_limit in H by lia. cbn [obind] in H.
      destruct v as [s c e|s|s g]; [done| |done].
      destruct s; cbn in H; done. }
  destruct Hdl as [Hdl Hfin]. split; [done|]. split; [|done].
  destruct v as [s c e| |]; [|done|done].
  destruct (_fits_spec f s c e Hdl) as (b & Hb & Hiff).
  rewrite Hb in H. inversion H; subst b. by apply Hiff.
Qed.

(** A call of [_multiply] that reports no size error has stored the product
    of the values read before the loop in every receiver. *)
Lemma _multiply_success (multiplicand : NumberLike) (multiplier : string)
    (additional : list string) (rounded : gset string) (self self' : Program) :
  _multiply multiplicand multiplier additional rounded self = (Returns false, self') ->
  exists mv f0 product,
    _resolve_value self multiplicand = Returns mv /\
    fields self !! multiplier = Some f0 /\
    Decimal_mul mv (value f0) = Returns product /\
    (forall key, key ∈ multiplier :: additional ->
       stored product rounded (fields self) (fields self') key) /\
    (forall key, key ∉ multiplier :: additional ->
       fields self' !! key = fields self !! key).
Proof.
  intros H.
  apply _multiply_inv in H as [(e & He & _)|(mv & f0 & S & p & Hmv & Hf0 & HS & Hp & H)];
    [done|].
  exists mv, f0, p. repeat split; try done.
  - apply take_snapshots_spec in HS as (Hn & _ & _).
    apply (store_loop_success S rounded p (fields self) _ self self'
             (fun _ => False) (touched_refl _ _) Hn) in H as [H1 _]; [|done].
    intros key Hkey. apply H1. by right.
  - apply take_snapshots_spec in HS as (Hn & _ & _).
    apply (store_loop_success S rounded p (fields self) _ self self'
             (fun _ => False) (touched_refl _ _) Hn) in H as [_ H2]; [|done].
    exact H2.
Qed.

(* ===================================================================== *)
(** ** Products and quantized values *)
(* ===================================================================== *)

Lemma signed_coeff_mul (s1 s2 : bool) (c1 c2 : N) :
  signed_coeff (xorb s1 s2) (c1 * c2) = signed_coeff s1 c1 * signed_coeff s2 c2.
Proof. unfold signed_coeff. rewrite N2Z.inj_mul. destruct s1, s2; simpl; lia. Qed.

Lemma to_Q_mul (s1 s2 : bool) (c1 c2 : N) (e1 e2 : Z) :
  (to_Q (Fin (xorb s1 s2) (c1 * c2) (e1 + e2)) ==
   to_Q (Fin s1 c1 e1) * to_Q (Fin s2 c2 e2))%Q.
Proof.
  unfold to_Q. rewrite signed_coeff_mul, inject_Z_mult, ten_add. ring.
Qed.

Lemma to_Q_zero_coeff (s : bool) (e : Z) : (to_Q (Fin s 0 e) == 0)%Q.
Proof.
  unfold to_Q, signed_coeff.
  destruct s; cbn [Z.of_N Z.opp]; change (inject_Z 0) with 0%Q; apply Qmult_0_l.
Qed.

(** A product is finite only when both factors are. *)
Lemma Decimal_mul_finite (a b p : Decimal) :
  Decimal_mul a b = Returns p -> is_finite p = true ->
  is_finite a = true /\ is_finite b = true.
Proof.
  destruct a as [s1 c1 e1|s1|s1 [|]], b as [s2 c2 e2|s2|s2 [|]];
    unfold Decimal_mul; cbn [check_nans is_snan is_nan orb is_zero sign_of];
    intros H Hp; try done; try (inversion H; subst; done).
  - destruct (c1 =? 0)%N; inversion H; subst; done.
  - destruct (c2 =? 0)%N; inversion H; subst; done.
Qed.

(** The context multiplies exactly whenever the product needs no rounding. *)
Lemma Decimal_mul_exact (a b p : Decimal) :
  Decimal_mul a b = Returns p -> exact_in_context a b ->
  (to_Q p == to_Q a * to_Q b)%Q.
Proof.
  destruct a as [s1 c1 e1| |], b as [s2 c2 e2| |]; try done.
  unfold Decimal_mul. cbn [check_nans is_snan is_nan orb exact_in_context].
  rewrite <- to_Q_mul. unfold fix_finite.
  destruct (c1 * c2 =? 0)%N eqn:Hz.
  - apply N.eqb_eq in Hz. rewrite Hz. intros H _. inversion H; subst.
    by rewrite !to_Q_zero_coeff.
  - apply N.eqb_neq in Hz. intros H [Hc|[Hd He]]; [done|].
    destruct (Etop <? ndigits (c1 * c2) + (e1 + e2) - prec); [done|].
    destruct (e1 + e2 <? Z.max (ndigits (c1 * c2) + (e1 + e2) - prec) Etiny) eqn:Hlt.
    + apply Z.ltb_lt in Hlt. lia.
    + inversion H; subst. reflexivity.
Qed.

Lemma _quantize_returns_finite (f : Field) (v q : Decimal) (rounded : bool) :
  _quantize f v rounded = Returns q -> is_finite q = true -> is_finite v = true.
Proof.
  destruct v as [s c e|s|s sg]; [done| |].
  - unfold _quantize. rewrite Decimal_one_scaleb_eq.
    destruct (negb _); [done|]. destruct (Emax <? _); done.
  - unfold _quantize. rewrite Decimal_one_scaleb_eq.
    destruct (negb _); [done|]. destruct (Emax <? _); [done|].
    destruct sg; cbn; intros H; inversion H; subst; done.
Qed.

(** What [_quantize] returns for a finite number: a decimal with exactly
    [digits_right] fractional digits that denotes the quantized number. *)
Lemma _quantize_spec (f : Field) (v q : Decimal) (rounded : bool) :
  _quantize f v rounded = Returns q ->
  is_finite v = true ->
  digits_right f <= - Etiny ->
  (exists s c, q = Fin s c (- digits_right f)) /\
  (to_Q q == spec_quantize (to_Q v) (digits_right f) rounded)%Q.
Proof.
  intros H Hv Hdr. destruct v as [s c e| |]; [|done|done].
  apply _quantize_finite in H as (-> & _ & _ & _).
  rewrite Z.max_l by lia. split; [by eexists _, _|].
  rewrite quantized_value. by rewrite Z.opp_involutive.
Qed.

(* ===================================================================== *)
(** ** Magnitudes *)
(* ===================================================================== *)

Lemma Qabs_to_Q (s : bool) (c : N) (e : Z) :
  (Qabs (to_Q (Fin s c e)) == inject_Z (Z.of_N c) * 10 ^ e)%Q.
Proof.
  pose proof (magnitude_nonneg c e) as H.
  rewrite to_Q_signed. destruct s.
  - rewrite Qabs_opp. by apply Qabs_pos.
  - by apply Qabs_pos.
Qed.

Lemma ten_le (n m : Z) : n <= m -> (10 ^ n <= 10 ^ m)%Q.
Proof. intros H. by apply Qpower_le_compat_l. Qed.

Lemma ten_lt_inv (n m : Z) : (10 ^ n < 10 ^ m)%Q -> n < m.
Proof. intros H. by apply (Qpower_lt_compat_l_inv 10). Qed.

(** A non-zero coefficient with [n] digits lies between [10^(n-1)] and
    [10^n]: the magnitude lies between the powers of ten around its
    adjusted exponent. *)
Lemma magnitude_bounds (c : N) (e : Z) :
  (0 < c)%N ->
  (10 ^ adjusted c e <= inject_Z (Z.of_N c) * 10 ^ e)%Q /\
  (inject_Z (Z.of_N c) * 10 ^ e < 10 ^ (adjusted c e + 1))%Q.
Proof.
  intros Hc. destruct (ndigits_bounds c Hc) as (Hd & H1 & H2).
  apply ZQ_le in H1. apply ZQ_lt in H2.
  rewrite ten_Z in H1, H2 by lia.
  pose proof (ten_pos e) as He. unfold adjusted. split.
  - replace (e + ndigits c - 1) with (ndigits c - 1 + e) by lia.
    rewrite ten_add. by apply Qmult_le_compat_r; [|apply Qlt_le_weak].
  - replace (e + ndigits c - 1 + 1) with (ndigits c + e) by lia.
    rewrite ten_add. by apply Qmult_lt_compat_r.
Qed.

Lemma adjusted_lt (c : N) (e n : Z) :
  (0 < c)%N -> (inject_Z (Z.of_N c) * 10 ^ e < 10 ^ n)%Q -> adjusted c e < n.
Proof.
  intros Hc H. destruct (magnitude_bounds c e Hc) as [H1 _].
  apply ten_lt_inv. by apply (Qle_lt_trans _ _ _ H1).
Qed.

Lemma adjusted_ge (c : N) (e n : Z) :
  (0 < c)%N -> (10 ^ n <= inject_Z (Z.of_N c) * 10 ^ e)%Q -> n <= adjusted c e.
Proof.
  intros Hc H. destruct (magnitude_bounds c e Hc) as [_ H2].
  assert (n < adjusted c e + 1); [|lia].
  apply ten_lt_inv. by apply (Qle_lt_trans _ _ _ H).
Qed.

(** Rounding down or half-up never goes below the integer part. *)
Lemma rescale_coeff_lower (rounded : bool) (c : N) (e t n : Z) :
  (inject_Z n <= inject_Z (Z.of_N c) * 10 ^ (e - t))%Q ->
  n <= Z.of_N (rescale_coeff (if rounded then ROUND_HALF_UP else ROUND_DOWN) c e t).
Proof.
  intros H. rewrite <- (Qfloor_Z n). destruct rounded.
  - rewrite rescale_coeff_half_up. apply Qfloor_resp_le. lra.
  - rewrite rescale_coeff_down. by apply Qfloor_resp_le.
Qed.

(** Truncation never goes above the magnitude. *)
Lemma rescale_coeff_down_upper (c : N) (e t n : Z) :
  (inject_Z (Z.of_N c) * 10 ^ (e - t) < inject_Z n)%Q ->
  Z.of_N (rescale_coeff ROUND_DOWN c e t) < n.
Proof.
  intros H. rewrite rescale_coeff_down. apply ZQ_lt.
  eapply Qle_lt_trans; [apply Qfloor_le|exact H].
Qed.

(** [quantize] succeeds when the number and the result fit the context. *)
Lemma Decimal_quantize_succeeds (s s0 : bool) (c c0 : N) (e t : Z)
    (mode : rounding_mode) :
  Etiny <= t <= Emax ->
  (c <> 0%N ->
     adjusted c e <= Emax /\ adjusted c e - t + 1 <= prec /\
     ndigits (rescale_coeff mode c e t) <= prec /\
     adjusted (rescale_coeff mode c e t) t <= Emax) ->
  Decimal_quantize (Fin s c e) (Fin s0 c0 t) mode =
  Returns (Fin s (rescale_coeff mode c e t) t).
Proof.
  intros Ht Hc.
  destruct (Decimal_quantize_finite s s0 c c0 e t mode) as [Hr|(Hr & _)]; [|done].
  exfalso. revert Hr.
  unfold Decimal_quantize. cbn [check_nans is_snan is_nan orb].
  destruct ((Etiny <=? t) && (t <=? Emax)) eqn:Hb.
  2:{ apply andb_false_iff in Hb as [Hb|Hb]; apply Z.leb_gt in Hb; lia. }
  cbn [negb].
  destruct (c =? 0)%N eqn:Hz.
  { rewrite fix_finite_id; [done|lia|lia|done]. }
  apply N.eqb_neq in Hz. destruct (Hc Hz) as (H1 & H2 & H3 & H4).
  destruct (Emax <? adjusted c e) eqn:E1; [apply Z.ltb_lt in E1; lia|].
  destruct (prec <? adjusted c e - t + 1) eqn:E2; [apply Z.ltb_lt in E2; lia|].
  destruct (Emax <? adjusted (rescale_coeff mode c e t) t) eqn:E3;
    [apply Z.ltb_lt in E3; lia|].
  destruct (prec <? ndigits (rescale_coeff mode c e t)) eqn:E4;
    [apply Z.ltb_lt in E4; lia|].
  rewrite fix_finite_id; [done|lia| |done].
  intros Hz'. rewrite Hz' in H4. unfold adjusted in H4.
  change (ndigits 0) with 1 in H4. lia.
Qed.

(* ===================================================================== *)
(** ** Field.set on finite numbers *)
(* ===================================================================== *)

Lemma set_quantize_invalid (f : Field) (v : Decimal) (rounded : bool) :
  _quantize f v rounded = Raises InvalidOperation ->
  set f (NL_Decimal v) rounded = (Returns false, f).
Proof. unfold set. cbn [Decimal_of_NumberLike obind]. by intros ->. Qed.

Lemma set_quantized (f : Field) (v q : Decimal) (rounded b : bool) :
  _quantize f v rounded = Returns q ->
  _fits f q = Returns b ->
  set f (NL_Decimal v) rounded = (Returns b, if b then with_value f q else f).
Proof.
  unfold set. cbn [Decimal_of_NumberLike obind]. intros -> ->. by destruct b.
Qed.

Lemma shift_le (x y : Q) (k : Z) : (x <= y)%Q -> (x * 10 ^ k <= y * 10 ^ k)%Q.
Proof. intros H. apply Qmult_le_compat_r; [done|]. apply Qlt_le_weak, ten_pos. Qed.

Lemma shift_lt (x y : Q) (k : Z) : (x < y)%Q -> (x * 10 ^ k < y * 10 ^ k)%Q.
Proof. intros H. apply Qmult_lt_compat_r; [apply ten_pos|done]. Qed.

Lemma magnitude_shift (c : N) (e t : Z) :
  (inject_Z (Z.of_N c) * 10 ^ e * 10 ^ (- t) == inject_Z (Z.of_N c) * 10 ^ (e - t))%Q.
Proof.
  replace (e - t) with (e + - t) by lia. rewrite ten_add. ring.
Qed.

Lemma magnitude_unshift (z : Z) (e t : Z) :
  (inject_Z z * 10 ^ (e - t) * 10 ^ t == inject_Z z * 10 ^ e)%Q.
Proof.
  rewrite <- Qmult_assoc, <- ten_add. replace (e - t + t) with e by lia.
  reflexivity.
Qed.

(** A magnitude of at least [10^digits_left] is rejected, whatever the
    rounding and the sign. *)
Lemma set_rejects_wide (f : Field) (s : bool) (c : N) (e : Z) (rounded : bool) :
  0 <= digits_left f -> 0 <= digits_right f ->
  (10 ^ digits_left f <= Qabs (to_Q (Fin s c e)))%Q ->
  set f (NL_Decimal (Fin s c e)) rounded = (Returns false, f).
Proof.
  intros Hdl Hdr Hwide. rewrite Qabs_to_Q in Hwide.
  destruct (_quantize f (Fin s c e) rounded) as [q|x] eqn:Hq.
  2:{ apply set_quantize_invalid.
      destruct (_quantize_raises _ _ _ _ Hq) as [->|[_ Hbad]]; [done|ctx_lia]. }
  pose proof Hq as Hq'.
  apply _quantize_finite in Hq' as (-> & Ht & Hd & Hadj).
  set (t := Z.max (- digits_right f) Etiny) in *.
  set (c' := rescale_coeff (if rounded then ROUND_HALF_UP else ROUND_DOWN) c e t) in *.
  assert (Ht0 : t <= 0) by (unfold t, Etiny, Emin, prec; lia).
  assert (Hc : (0 < c)%N).
  { destruct (N.eq_dec c 0%N) as [->|]; [|lia].
    pose proof (ten_pos (digits_left f)).
    change (inject_Z (Z.of_N 0)) with 0%Q in Hwide. lra. }
  assert (Hdl' : Etiny <= digits_left f <= Emax).
  { split; [unfold Etiny, Emin, prec; lia|].
    pose proof (adjusted_ge c e _ Hc Hwide). specialize (Hadj ltac:(lia)). lia. }
  assert (Hc' : 10 ^ (digits_left f - t) <= Z.of_N c').
  { apply rescale_coeff_lower. rewrite ten_Z by lia.
    rewrite <- magnitude_shift.
    replace (digits_left f - t) with (digits_left f + - t) by lia.
    rewrite ten_add. by apply shift_le. }
  assert (Hmag : (10 ^ digits_left f <= inject_Z (Z.of_N c') * 10 ^ t)%Q).
  { apply ZQ_le in Hc'. rewrite ten_Z in Hc' by lia.
    apply (shift_le _ _ t) in Hc'. rewrite <- ten_add in Hc'.
    by replace (digits_left f - t + t) with (digits_left f) in Hc' by lia. }
  destruct (_fits_spec f s c' t Hdl') as (b & Hb & Hiff).
  rewrite (set_quantized _ _ _ _ _ Hq Hb). destruct b; [exfalso|done].
  destruct Hiff as [Hiff _]. destruct (Hiff eq_refl) as (_ & Hlo & Hhi).
  rewrite to_Q_signed in Hlo, Hhi. destruct s; lra.
Qed.

(** On an unsigned field a number whose quantized value is below zero is
    rejected. *)
Lemma set_rejects_negative (f : Field) (v q : Decimal) (rounded : bool) :
  signed f = false ->
  _quantize f v rounded = Returns q ->
  (to_Q q < 0)%Q ->
  set f (NL_Decimal v) rounded = (Returns false, f).
Proof.
  intros Hs Hq Hneg.
  assert (Hfin : is_finite q = true).
  { destruct q; [done| |]; cbn in Hneg; lra. }
  apply (set_quantized _ _ _ _ false Hq).
  unfold _fits. rewrite Hs.
  rewrite (Decimal_lt_true q (Decimal_of_int 0) Hfin eq_refl); [done|].
  by rewrite to_Q_zero.
Qed.

(** A quantized value within the width and sign of the field is stored. *)
Lemma set_accepts_fitting (f : Field) (v q : Decimal) (rounded : bool) :
  Etiny <= digits_left f <= Emax ->
  is_finite q = true ->
  _quantize f v rounded = Returns q ->
  spec_fits f (to_Q q) ->
  set f (NL_Decimal v) rounded = (Returns true, with_value f q).
Proof.
  intros Hdl Hfin Hq Hfit.
  destruct q as [s c e| |]; [|done|done].
  destruct (_fits_spec f s c e Hdl) as (b & Hb & Hiff).
  apply Hiff in Hfit. subst b.
  apply (set_quantized _ _ _ _ true Hq Hb).
Qed.

(** Truncation of a number in [0, 10^digits_left) always succeeds on a
    field of at most [prec] digits, and the result is in that range. *)
Lemma _quantize_truncates_in_range (f : Field) (s : bool) (c : N) (e : Z) :
  0 <= digits_left f -> 0 <= digits_right f ->
  digits_left f + digits_right f <= prec ->
  (0 <= to_Q (Fin s c e))%Q ->
  (to_Q (Fin s c e) < 10 ^ digits_left f)%Q ->
  exists q,
    _quantize f (Fin s c e) false = Returns q /\
    is_finite q = true /\
    (0 <= to_Q q)%Q /\ (to_Q q < 10 ^ digits_left f)%Q.
Proof.
  intros Hdl Hdr Hsum H0 H1. unfold prec in Hsum.
  set (t := - digits_right f).
  assert (Ht : Etiny <= t <= Emax) by (unfold t, Etiny, Emin, Emax, prec; lia).
  assert (Hscale : Decimal_one_scaleb t = Returns (Fin false 1 t)).
  { rewrite Decimal_one_scaleb_eq.
    destruct (negb _) eqn:Hb.
    { apply negb_true_iff, andb_false_iff in Hb as [Hb|Hb];
        apply Z.leb_gt in Hb; unfold Emax, prec, Etiny, Emin in *; lia. }
    destruct (Emax <? t) eqn:E1; [apply Z.ltb_lt in E1; lia|].
    destruct (Etiny <=? t) eqn:E2; [|apply Z.leb_gt in E2; lia].
    by rewrite Z.max_l by lia. }
  unfold _quantize. fold t. rewrite Hscale. cbn [obind].
  set (c' := rescale_coeff ROUND_DOWN c e t).
  assert (Hq : Decimal_quantize (Fin s c e) (Fin false 1 t) ROUND_DOWN =
               Returns (Fin s c' t)).
  { apply Decimal_quantize_succeeds; [done|]. intros Hc.
    assert (Hs : s = false).
    { destruct s; [|done]. rewrite to_Q_signed in H0.
      destruct (magnitude_bounds c e ltac:(lia)) as [Hm _].
      pose proof (ten_pos (adjusted c e)). lra. }
    subst s. rewrite to_Q_signed in H1.
    pose proof (adjusted_lt c e _ ltac:(lia) H1) as Hadj.
    assert (Hc' : Z.of_N c' < 10 ^ (digits_left f - t)).
    { apply rescale_coeff_down_upper. rewrite ten_Z by (unfold t; lia).
      rewrite <- magnitude_shift.
      replace (digits_left f - t) with (digits_left f + - t) by lia.
      rewrite ten_add. by apply shift_lt. }
    assert (Hnd : ndigits c' <= 60).
    { destruct (N.eq_dec c' 0%N) as [->|Hne].
      - change (ndigits 0) with 1. lia.
      - assert (ndigits c' <= digits_left f - t); [|unfold t in *; lia].
        apply ndigits_le; [unfold t; lia|done|lia]. }
    fold c'. assert (Ht' : t = - digits_right f) by done.
    clearbody c' t. unfold adjusted, prec, Emax in *. lia. }
  rewrite Hq. exists (Fin s c' t). split; [done|]. split; [done|].
  assert (Hle : (inject_Z (Z.of_N c') * 10 ^ t <= inject_Z (Z.of_N c) * 10 ^ e)%Q).
  { rewrite <- (magnitude_unshift (Z.of_N c) e t). apply shift_le.
    unfold c'. rewrite rescale_coeff_down. apply Qfloor_le. }
  pose proof (magnitude_nonneg c' t) as Hnn.
  rewrite to_Q_signed in H0, H1. rewrite to_Q_signed.
  destruct s; [|split; lra].
  assert (Hz : (inject_Z (Z.of_N c) * 10 ^ e == 0)%Q).
  { pose proof (magnitude_nonneg c e). lra. }
  pose proof (ten_pos (digits_left f)). split; lra.
Qed.

(** [set] sees its argument only through [Decimal(str(raw))]. *)
Lemma set_raw (f : Field) (raw : NumberLike) (v : Decimal) (rounded : bool) :
  Decimal_of_NumberLike raw = Returns v ->
  set f raw rounded = set f (NL_Decimal v) rounded.
Proof. unfold set. cbn [Decimal_of_NumberLike]. by intros ->. Qed.

(* ===================================================================== *)
(** ** The invariant of fields at rest *)
(* ===================================================================== *)

Lemma at_rest_check_sound (f : Field) : at_rest_check f = true -> at_rest f.
Proof.
  unfold at_rest_check, at_rest.
  destruct (value f) as [s c e| |] eqn:Hv; [|done|done].
  intros H. apply andb_true_iff in H as [He Hfit]. apply Z.leb_le in He.
  destruct (_fits f (Fin s c e)) as [[|]|] eqn:Hf; [|done|done].
  apply _fits_true_inv in Hf as (_ & Hspec & _).
  split; [done|]. split; [|done].
  exists (signed_coeff s c * 10 ^ (e - - digits_right f)).
  by apply to_Q_aligned.
Qed.

(** What a successful [set] stores is at rest. *)
Lemma stored_value_at_rest (f : Field) (d q : Decimal) (rounded : bool) :
  _quantize f d rounded = Returns q ->
  _fits f q = Returns true ->
  at_rest (with_value f q).
Proof.
  intros Hq Hfit. apply _fits_true_inv in Hfit as (Hfin & Hspec & _).
  pose proof (_quantize_returns_finite _ _ _ _ Hq Hfin) as Hd.
  destruct d as [s c e| |]; [|done|done].
  apply _quantize_finite in Hq as (-> & _).
  split; [done|]. split; [|done]. cbn [value with_value digits_right].
  eexists. apply to_Q_aligned. lia.
Qed.

Lemma set_at_rest (f f' : Field) (raw : NumberLike) (rounded : bool)
    (r : outcome bool) :
  at_rest f -> set f raw rounded = (r, f') -> at_rest f'.
Proof.
  intros Hf H. destruct (decide (r = Returns true)) as [->|Hr].
  - apply set_true_inv in H as (d & q & _ & Hq & Hfit & ->).
    by apply (stored_value_at_rest _ d _ rounded).
  - by rewrite (set_unchanged _ _ _ _ _ H Hr).
Qed.

Lemma registry_at_rest_insert (self : Program) (key : string) (f : Field) :
  registry_at_rest self -> at_rest f ->
  registry_at_rest (with_fields self (<[key := f]> (fields self))).
Proof.
  intros Hself Hf k g. cbn [with_fields fields].
  destruct (decide (key = k)) as [->|Hne].
  - rewrite lookup_insert_eq. by intros [= <-].
  - rewrite lookup_insert_ne by done. apply Hself.
Qed.

Lemma set_field_at_rest (key : string) (raw : NumberLike) (rounded : bool)
    (self : Program) :
  registry_at_rest self -> registry_at_rest (snd (set_field key raw rounded self)).
Proof.
  intros Hself. unfold set_field, get_field.
  destruct (fields self !! key) as [f|] eqn:Hf; [|done].
  destruct (set f raw rounded) as [r f'] eqn:Hset. cbn [snd].
  apply registry_at_rest_insert; [done|].
  apply (set_at_rest f f' raw rounded r); [by apply (Hself key)|done].
Qed.

Lemma store_loop_at_rest (S : gmap string Decimal) (rounded : gset string)
    (product : Decimal) (self0 : Program) (names : list string) :
  snapshot_of S (fields self0) ->
  registry_at_rest self0 ->
  forall (self self' : Program) (r : outcome bool),
    touched S (fields self0) (fields self) ->
    (forall k, k ∈ names -> is_Some (S !! k)) ->
    registry_at_rest self ->
    store_loop S rounded product names self = (r, self') ->
    registry_at_rest self'.
Proof.
  intros HS H0. induction names as [|key rest IH]; intros self self' r Ht Hn Hself H.
  - simpl in H. by inversion H; subst.
  - simpl in H. unfold get_field in H.
    destruct (fields self !! key) as [field|] eqn:Hfield.
    2:{ by inversion H; subst. }
    destruct (set field (NL_Decimal product) (bool_decide (key ∈ rounded)))
      as [r1 field'] eqn:Hset.
    assert (HSkey : is_Some (S !! key)) by (apply Hn; by left).
    pose proof (touched_set _ _ _ _ _ _ _ _ _ Ht Hfield HSkey Hset) as Ht'.
    assert (Hself' : registry_at_rest
                       (with_fields self (<[key := field']> (fields self)))).
    { apply registry_at_rest_insert; [done|].
      apply (set_at_rest _ _ _ _ _ (Hself key field Hfield) Hset). }
    destruct r1 as [[|]|e].
    + apply (IH (with_fields self (<[key := field']> (fields self))) self' r);
        [exact Ht'| |exact Hself'|exact H].
      intros k Hk. apply Hn. by right.
    + simpl in H. rewrite (restore_touched S _ _ HS Ht') in H.
      inversion H; subst. intros k g. cbn [with_fields fields]. apply H0.
    + by inversion H; subst.
Qed.

Lemma _multiply_at_rest (multiplicand : NumberLike) (multiplier : string)
    (additional : list string) (rounded : gset string) (self : Program) :
  registry_at_rest self ->
  registry_at_rest (snd (_multiply multiplicand multiplier additional rounded self)).
Proof.
  intros Hself.
  destruct (_multiply multiplicand multiplier additional rounded self)
    as [r self'] eqn:H. cbn [snd].
  apply _multiply_inv in H as [(e & _ & ->)|(mv & f0 & S & p & _ & _ & HS & _ & H)];
    [done|].
  pose proof (take_snapshots_snapshot_of _ _ _ HS) as Hsnap.
  apply take_snapshots_spec in HS as (Hn & _ & _).
  by apply (store_loop_at_rest S rounded p self _ Hsnap Hself self self' r
              (touched_refl _ _) Hn Hself).
Qed.

Lemma initial_program_at_rest : registry_at_rest initial_program.
Proof.
  assert (H : map_Forall (fun _ f => at_rest_check f = true)
                (fields initial_program)).
  { apply (bool_decide_unpack _). vm_compute. exact I. }
  intros key f Hf. apply at_rest_check_sound. by apply (H key).
Qed.

(* ===================================================================== *)
(** ** Truncation and round-half-up in the words of the specification *)
(* ===================================================================== *)

Lemma Qfloor_half_step (y : Q) :
  Qfloor (y + (1#2)) =
  Qfloor y + (if Qle_bool (1#2) (y - inject_Z (Qfloor y)) then 1 else 0).
Proof.
  pose proof (Qfloor_le y) as H1. pose proof (Qlt_floor y) as H2.
  rewrite inject_Z_plus in H2. change (inject_Z 1) with 1%Q in H2.
  apply Qfloor_unique.
  - destruct (Qle_bool (1#2) (y - inject_Z (Qfloor y))) eqn:Hb.
    + apply Qle_bool_iff in Hb. rewrite inject_Z_plus.
      change (inject_Z 1) with 1%Q. lra.
    + rewrite inject_Z_plus. change (inject_Z 0) with 0%Q. lra.
  - destruct (Qle_bool (1#2) (y - inject_Z (Qfloor y))) eqn:Hb.
    + rewrite !inject_Z_plus. change (inject_Z 1) with 1%Q. lra.
    + assert (Hlt : (y - inject_Z (Qfloor y) < 1#2)%Q).
      { apply Qnot_le_lt. intros Hle. apply Qle_bool_iff in Hle. congruence. }
      rewrite !inject_Z_plus. change (inject_Z 1) with 1%Q.
      change (inject_Z 0) with 0%Q. lra.
Qed.

(** Truncation goes toward zero and discards less than one unit. *)
Lemma toward_zero_spec (x : Q) :
  (Qabs (inject_Z (toward_zero x)) <= Qabs x)%Q /\
  (Qabs (x - inject_Z (toward_zero x)) < 1)%Q /\
  (0 <= x -> 0 <= inject_Z (toward_zero x))%Q /\
  (x <= 0 -> inject_Z (toward_zero x) <= 0)%Q.
Proof.
  unfold toward_zero. destruct (Qle_bool 0 x) eqn:Hb.
  - apply Qle_bool_iff in Hb.
    pose proof (Qfloor_le x) as H1. pose proof (Qlt_floor x) as H2.
    rewrite inject_Z_plus in H2. change (inject_Z 1) with 1%Q in H2.
    assert (H0 : (0 <= inject_Z (Qfloor x))%Q).
    { apply (proj1 (ZQ_le 0 (Qfloor x))). by apply Qfloor_nonneg. }
    repeat split.
    + rewrite !Qabs_pos by lra. done.
    + rewrite Qabs_pos by lra. lra.
    + done.
    + intros Hx. assert (Hz : (x == 0)%Q) by lra.
      rewrite (Qfloor_comp _ _ Hz). done.
  - assert (Hx : (x < 0)%Q).
    { apply Qnot_le_lt. intros Hle. apply Qle_bool_iff in Hle. congruence. }
    pose proof (Qle_ceiling x) as H1. pose proof (Qceiling_lt x) as H2.
    unfold Z.sub in H2. rewrite inject_Z_plus in H2.
    change (inject_Z (-1)) with (-1)%Q in H2.
    assert (H0 : (inject_Z (Qceiling x) <= 0)%Q).
    { apply (proj1 (ZQ_le (Qceiling x) 0)). rewrite <- (Qceiling_Z 0).
      apply Qceiling_resp_le. change (inject_Z 0) with 0%Q. lra. }
    change (inject_Z (- (1))) with (-1)%Q in H2.
    generalize dependent (inject_Z (Qceiling x)). intros m H1 H2 H0.
    repeat split.
    + rewrite !Qabs_neg by lra. lra.
    + rewrite Qabs_neg by lra. lra.
    + intros Hx'. lra.
    + done.
Qed.

(** Round-half-up is truncation, moved one unit away from zero exactly when
    the discarded remainder is at least half a unit. *)
Lemma half_up_spec (x : Q) :
  half_up x =
  toward_zero x +
  (if Qle_bool (1#2) (Qabs (x - inject_Z (toward_zero x)))
   then (if Qle_bool 0 x then 1 else -1) else 0).
Proof.
  unfold half_up, toward_zero. destruct (Qle_bool 0 x) eqn:Hb.
  - apply Qle_bool_iff in Hb. rewrite Qfloor_half_step.
    pose proof (Qfloor_le x) as H1.
    assert (Ha : (Qabs (x - inject_Z (Qfloor x)) == x - inject_Z (Qfloor x))%Q).
    { apply Qabs_pos. lra. }
    by rewrite (Qleb_comp _ _ (Qeq_refl (1#2)) _ _ Ha).
  - assert (Hx : (x < 0)%Q).
    { apply Qnot_le_lt. intros Hle. apply Qle_bool_iff in Hle. congruence. }
    unfold Qceiling.
    assert (Hy : (- (x - (1#2)) == - x + (1#2))%Q) by ring.
    rewrite (Qfloor_comp _ _ Hy), Qfloor_half_step.
    pose proof (Qfloor_le (- x)) as H1.
    assert (Ha : (Qabs (x - inject_Z (- Qfloor (- x))) ==
                  - x - inject_Z (Qfloor (- x)))%Q).
    { rewrite inject_Z_opp. rewrite Qabs_neg by lra. ring. }
    rewrite (Qleb_comp _ _ (Qeq_refl (1#2)) _ _ Ha).
    destruct (Qle_bool (1#2) (- x - inject_Z (Qfloor (- x)))); lia.
Qed.

(* ===================================================================== *)
(** ** Calls of set that fail *)
(* ===================================================================== *)

(** A call of [set] that returns [False] leaves the field unchanged. *)
Lemma set_false_unchanged (f f' : Field) (raw : NumberLike) (rounded : bool) :
  set f raw rounded = (Returns false, f') -> f' = f.
Proof. intros H. by apply (set_unchanged _ _ _ _ _ H). Qed.

(** So does a call that raises. *)
Lemma set_raises_unchanged (f f' : Field) (raw : NumberLike) (rounded : bool)
    (e : exn) :
  set f raw rounded = (Raises e, f') -> f' = f.
Proof. intros H. by apply (set_unchanged _ _ _ _ _ H). Qed.

(** Text that is no number makes [set] return [False]. *)
Lemma set_malformed (f : Field) (raw : NumberLike) (rounded : bool) :
  Decimal_of_NumberLike raw = Raises InvalidOperation ->
  set f raw rounded = (Returns false, f).
Proof. unfold set. by intros ->. Qed.

(** A finite number never makes [set] raise on a field whose picture is in
    the range of the context: the call returns [True] or [False]. *)
Lemma set_finite_returns (f : Field) (raw : NumberLike) (rounded : bool)
    (s : bool) (c : N) (e : Z) :
  Decimal_of_NumberLike raw = Returns (Fin s c e) ->
  0 <= digits_right f -> Etiny <= digits_left f <= Emax ->
  exists b f', set f raw rounded = (Returns b, f').
Proof.
  intros Hraw Hdr Hdl. rewrite (set_raw _ _ _ _ Hraw).
  destruct (_quantize f (Fin s c e) rounded) as [q|x] eqn:Hq.
  - pose proof Hq as Hq'. apply _quantize_finite in Hq' as (-> & _).
    match type of Hq with _ = Returns (Fin ?s' ?c' ?t') =>
      destruct (_fits_spec f s' c' t' Hdl) as (b & Hb & _) end.
    eexists _, _. by apply (set_quantized _ _ _ _ b Hq).
  - destruct (_quantize_raises _ _ _ _ Hq) as [->|[_ Hbad]]; [|ctx_lia].
    eexists _, _. by apply set_quantize_invalid.
Qed.

(* ===================================================================== *)
(** ** The first paragraphs of the test suite, run on the embedding *)
(* ===================================================================== *)

(** MPY-TEST-F1-1: MULT1 (80.12) multiplied by MULT5 (4) becomes 320.48. *)
Example mpy_test_f1_1 :
  let call := _multiply (NL_str "MULT5") "MULT1" [] ∅ initial_program in
  fst call = Returns false /\
  value <$> fields (snd call) !! "MULT1"%string = Some (Fin false 32048 (-2)).
Proof. split; vm_compute; reflexivity. Qed.

(** MPY-TEST-F1-2: MULT4 (-56) multiplied by -1.3, rounded, becomes 73. *)
Example mpy_test_f1_2 :
  let call := _multiply (NL_str "-1.3") "MULT4" [] {["MULT4"%string]}
                initial_program in
  fst call = Returns false /\
  value <$> fields (snd call) !! "MULT4"%string = Some (Fin false 73 0).
Proof. split; vm_compute; reflexivity. Qed.

(** MPY-TEST-F1-4: MULT6 (20) multiplied by 4.99, rounded, is 100: a size
    error, and MULT6 keeps 20. *)
Example mpy_test_f1_4 :
  let call := _multiply (NL_str "4.99") "MULT6" [] {["MULT6"%string]}
                initial_program in
  fst call = Returns true /\
  value <$> fields (snd call) !! "MULT6"%string = Some (Fin false 20 0).
Proof. split; vm_compute; reflexivity. Qed.

(* ===================================================================== *)
(** ** Properties of the multiply engine *)
(* ===================================================================== *)

(** C1 (atomicity). Whenever [_multiply] returns a size error, every
    receiver, the multiplier field included, holds the value it held
    immediately before the call, and no other field has changed. *)
Theorem multiply_size_error_is_atomic
    (multiplicand : NumberLike) (multiplier : string)
    (additional : list string) (rounded : gset string) (self self' : Program) :
  _multiply multiplicand multiplier additional rounded self = (Returns true, self') ->
  (forall key, key ∈ multiplier :: additional ->
     value <$> fields self' !! key = value <$> fields self !! key) /\
  (forall key, key ∉ multiplier :: additional ->
     fields self' !! key = fields self !! key).
Proof.
  intros H. apply _multiply_size_error_restores in H. subst self'. done.
Qed.

Lemma multiply_size_error_is_atomic_witness :
  let call := _multiply (NL_str "4.99") "MULT6" ["WRK_DU_2V0_1"]%string
                {["MULT6"%string]} initial_program in
  fst call = Returns true /\
  (forall key, key ∈ ["MULT6"; "WRK_DU_2V0_1"]%string ->
     value <$> fields (snd call) !! key = value <$> fields initial_program !! key) /\
  (forall key, key ∉ ["MULT6"; "WRK_DU_2V0_1"]%string ->
     fields (snd call) !! key = fields initial_program !! key).
Proof.
  split; [vm_compute; reflexivity|].
  apply (multiply_size_error_is_atomic (NL_str "4.99") "MULT6"
           ["WRK_DU_2V0_1"]%string {["MULT6"%string]} initial_program).
  vm_compute. reflexivity.
Defined.

(** C9 (idempotent re-attempt). A call that returned a size error left the
    program in the state it started from, and the same call made again
    from there returns a size error again and leaves that state again. *)
Theorem multiply_size_error_is_idempotent
    (multiplicand : NumberLike) (multiplier : string)
    (additional : list string) (rounded : gset string) (self self' : Program) :
  _multiply multiplicand multiplier additional rounded self = (Returns true, self') ->
  self' = self /\
  _multiply multiplicand multiplier additional rounded self' = (Returns true, self').
Proof.
  intros H. pose proof (_multiply_size_error_restores _ _ _ _ _ _ H) as ->.
  done.
Qed.

Lemma multiply_size_error_is_idempotent_witness :
  let call := _multiply (NL_str "MULT5") "MULT5" [] ∅ in
  call initial_program = (Returns true, initial_program) /\
  call (snd (call initial_program)) = (Returns true, snd (call initial_program)).
Proof.
  split; [vm_compute; reflexivity|].
  apply (multiply_size_error_is_idempotent (NL_str "MULT5") "MULT5" [] ∅
           initial_program).
  vm_compute. reflexivity.
Defined.

(** C7 (resolution errors). A multiplicand token that is no field name, no
    constant name and no readable literal, or a multiplier name that is no
    field name, makes [_multiply] raise an exception ([InvalidOperation]
    from the literal, [KeyError] from the registry) with the program
    untouched; the call does not return, so it reports no size error. *)
Theorem multiply_resolution_error_raises
    (multiplicand : NumberLike) (multiplier : string)
    (additional : list string) (rounded : gset string) (self : Program) :
  (exists token,
     multiplicand = NL_str token /\
     fields self !! strip token = None /\
     constants self !! strip token = None /\
     Decimal_of_string (strip token) = Raises InvalidOperation) \/
  fields self !! multiplier = None ->
  exists e,
    (e = InvalidOperation \/ e = KeyError multiplier) /\
    _multiply multiplicand multiplier additional rounded self = (Raises e, self) /\
    fst (_multiply multiplicand multiplier additional rounded self) <> Returns true.
Proof.
  intros [(token & -> & Hf & Hc & Hd)|Hm].
  - exists InvalidOperation. unfold _multiply, _resolve_value.
    rewrite Hf, Hc, Hd. cbn [obind fst]. split; [by left|by split].
  - unfold _multiply.
    destruct (_resolve_value self multiplicand) as [mv|e] eqn:Hmv.
    + exists (KeyError multiplier). unfold get_field. rewrite Hm.
      cbn [obind fst]. split; [by right|by split].
    + assert (e = InvalidOperation) as ->.
      { unfold _resolve_value in Hmv.
        destruct multiplicand as [s|n|d]; [|done|done].
        destruct (fields self !! strip s); [done|].
        destruct (constants self !! strip s); [done|].
        unfold Decimal_of_string in Hmv.
        destruct (parse_sign _) as [sg body].
        destruct (parse_number sg body); [done|].
        destruct (parse_special sg body); [done|]. by inversion Hmv. }
      exists InvalidOperation. cbn [obind fst]. split; [by left|by split].
Qed.

Lemma multiply_resolution_error_raises_witness :
  (exists e,
     (e = InvalidOperation \/ e = KeyError "MULT1") /\
     _multiply (NL_str "MULT7") "MULT1" [] ∅ initial_program
       = (Raises e, initial_program) /\
     fst (_multiply (NL_str "MULT7") "MULT1" [] ∅ initial_program) <> Returns true) /\
  (exists e,
     (e = InvalidOperation \/ e = KeyError "MULT7") /\
     _multiply (NL_str "4") "MULT7" [] ∅ initial_program
       = (Raises e, initial_program) /\
     fst (_multiply (NL_str "4") "MULT7" [] ∅ initial_program) <> Returns true).
Proof.
  split.
  - apply (multiply_resolution_error_raises (NL_str "MULT7") "MULT1" [] ∅
             initial_program).
    left. exists "MULT7"%string. repeat split; vm_compute; reflexivity.
  - apply (multiply_resolution_error_raises (NL_str "4") "MULT7" [] ∅
             initial_program).
    right. vm_compute. reflexivity.
Defined.

(** C5 (the multiplier is read first). The product is computed from the
    values the operands hold before any receiver is written: when a call
    reports no size error, the multiplier field ends up holding the product
    of the multiplicand and its own value before the call, quantized to its
    picture. Multiplying MULT5, an unsigned field of one digit holding 4, by
    itself computes 16, reports a size error and leaves MULT5 holding 4. *)
Theorem multiply_reads_multiplier_before_storing :
  (forall (multiplicand : NumberLike) (multiplier : string)
          (additional : list string) (rounded : gset string)
          (self self' : Program),
     _multiply multiplicand multiplier additional rounded self = (Returns false, self') ->
     exists mv f0 product q,
       _resolve_value self multiplicand = Returns mv /\
       fields self !! multiplier = Some f0 /\
       Decimal_mul mv (value f0) = Returns product /\
       _quantize f0 product (bool_decide (multiplier ∈ rounded)) = Returns q /\
       fields self' !! multiplier = Some (with_value f0 q)) /\
  (fields initial_program !! "MULT5"%string
     = Some (mkField "MULT5" 1 0 false (Fin false 4 0)) /\
   _resolve_value initial_program (NL_str "MULT5") = Returns (Fin false 4 0) /\
   Decimal_mul (Fin false 4 0) (Fin false 4 0) = Returns (Fin false 16 0) /\
   _multiply (NL_str "MULT5") "MULT5" [] ∅ initial_program
     = (Returns true, initial_program)).
Proof.
  split.
  - intros multiplicand multiplier additional rounded self self' H.
    apply _multiply_success in H as (mv & f0 & p & Hmv & Hf0 & Hp & Hst & _).
    destruct (Hst multiplier) as (g0 & q & Hg0 & Hq & _ & Hq').
    { by left. }
    rewrite Hf0 in Hg0. inversion Hg0; subst g0.
    by exists mv, f0, p, q.
  - repeat split; vm_compute; reflexivity.
Qed.

Lemma multiply_reads_multiplier_before_storing_witness :
  let call := _multiply (NL_str "MULT5") "MULT1" [] ∅ initial_program in
  fst call = Returns false /\
  exists mv f0 product q,
    _resolve_value initial_program (NL_str "MULT5") = Returns mv /\
    fields initial_program !! "MULT1"%string = Some f0 /\
    Decimal_mul mv (value f0) = Returns product /\
    _quantize f0 product false = Returns q /\
    fields (snd call) !! "MULT1"%string = Some (with_value f0 q).
Proof.
  split; [vm_compute; reflexivity|].
  assert (H : _multiply (NL_str "MULT5") "MULT1" [] ∅ initial_program =
              (Returns false,
               snd (_multiply (NL_str "MULT5") "MULT1" [] ∅ initial_program)))
    by (vm_compute; reflexivity).
  exact (proj1 multiply_reads_multiplier_before_storing
           (NL_str "MULT5") "MULT1" [] ∅ initial_program _ H).
Defined.

(** C2, as stated, fails: the context rounds a product to 60 significant
    digits before any receiver quantizes it. The literal below has 61
    digits; four times it is 0.99...96, which truncated to an integer is 0,
    yet the call reports no size error and MULT5 ends up holding 1. *)
Lemma multiply_product_rounded_before_quantizing :
  let literal := "0.2499999999999999999999999999999999999999999999999999999999999"%string in
  let multiplicand := Fin false 2499999999999999999999999999999999999999999999999999999999999 (-61) in
  let call := _multiply (NL_str literal) "MULT5" [] ∅ initial_program in
  _resolve_value initial_program (NL_str literal) = Returns multiplicand /\
  value <$> fields initial_program !! "MULT5"%string = Some (Fin false 4 0) /\
  fst call = Returns false /\
  value <$> fields (snd call) !! "MULT5"%string = Some (Fin false 1 0) /\
  (spec_quantize (to_Q multiplicand * to_Q (Fin false 4 0)) 0 false == 0)%Q /\
  ~ (to_Q (Fin false 1 0) == 0)%Q.
Proof.
  repeat split; try (vm_compute; reflexivity).
  intros H. vm_compute in H. discriminate H.
Qed.

(** C2 (amended). When [_multiply] reports no size error, every receiver
    holds the product as the 60-digit context computed it, quantized to the
    receiver's own [digits_right], by round-half-up when its name is in the
    rounded set and by truncation otherwise; that product is the exact
    product of the multiplicand and the value the multiplier held before the
    call whenever the exact product needs no rounding in the context. With
    multiplicand 0.00001 and multiplier value 12345.6, a receiver rounded to
    one fractional digit gets 0.1 and a receiver truncated to none gets 0. *)
Theorem multiply_success_stores_quantized_product :
  (forall (multiplicand : NumberLike) (multiplier : string)
          (additional : list string) (rounded : gset string)
          (self self' : Program),
     _multiply multiplicand multiplier additional rounded self = (Returns false, self') ->
     exists mv f0 product,
       _resolve_value self multiplicand = Returns mv /\
       fields self !! multiplier = Some f0 /\
       Decimal_mul mv (value f0) = Returns product /\
       is_finite product = true /\
       (exact_in_context mv (value f0) ->
        (to_Q product == to_Q mv * to_Q (value f0))%Q) /\
       forall key, key ∈ multiplier :: additional ->
         exists f q,
           fields self !! key = Some f /\
           fields self' !! key = Some (with_value f q) /\
           (digits_right f <= - Etiny ->
            (exists s c, q = Fin s c (- digits_right f)) /\
            (to_Q q == spec_quantize (to_Q product) (digits_right f)
                         (bool_decide (key ∈ rounded)))%Q)) /\
  (let call := _multiply (NL_str "0.00001") "WRK_DU_5V1_1"
                 ["WRK_DU_6V0_2"]%string {["WRK_DU_5V1_1"%string]}
                 initial_program in
   fields initial_program !! "WRK_DU_5V1_1"%string
     = Some (mkField "WRK_DU_5V1_1" 5 1 false (Fin false 123456 (-1))) /\
   fst call = Returns false /\
   fields (snd call) !! "WRK_DU_5V1_1"%string
     = Some (mkField "WRK_DU_5V1_1" 5 1 false (Fin false 1 (-1))) /\
   fields (snd call) !! "WRK_DU_6V0_2"%string
     = Some (mkField "WRK_DU_6V0_2" 6 0 false (Fin false 0 0))).
Proof.
  split.
  - intros multiplicand multiplier additional rounded self self' H.
    apply _multiply_success in H as (mv & f0 & p & Hmv & Hf0 & Hp & Hst & _).
    assert (Hfin : is_finite p = true).
    { destruct (Hst multiplier) as (g0 & q & _ & Hq & Hfit & _); [by left|].
      apply _fits_true_inv in Hfit as (Hqfin & _).
      by apply (_quantize_returns_finite _ _ _ _ Hq). }
    exists mv, f0, p. repeat split; try done.
    + by apply Decimal_mul_exact.
    + intros key Hkey.
      destruct (Hst key Hkey) as (g0 & q & Hg0 & Hq & _ & Hq').
      exists g0, q. repeat split; try done.
      * by apply (_quantize_spec _ _ _ _ Hq).
      * by apply (_quantize_spec _ _ _ _ Hq).
  - repeat split; vm_compute; reflexivity.
Qed.

Lemma multiply_success_stores_quantized_product_witness :
  let call := _multiply (NL_str "MULT5") "MULT1" [] ∅ initial_program in
  fst call = Returns false /\
  exists mv f0 product,
    _resolve_value initial_program (NL_str "MULT5") = Returns mv /\
    fields initial_program !! "MULT1"%string = Some f0 /\
    Decimal_mul mv (value f0) = Returns product /\
    is_finite product = true /\
    (exact_in_context mv (value f0) ->
     (to_Q product == to_Q mv * to_Q (value f0))%Q) /\
    forall key, key ∈ ["MULT1"]%string ->
      exists f q,
        fields initial_program !! key = Some f /\
        fields (snd call) !! key = Some (with_value f q) /\
        (digits_right f <= - Etiny ->
         (exists s c, q = Fin s c (- digits_right f)) /\
         (to_Q q == spec_quantize (to_Q product) (digits_right f)
                      (bool_decide (key ∈ (∅ : gset string))))%Q).
Proof.
  split; [vm_compute; reflexivity|].
  assert (H : _multiply (NL_str "MULT5") "MULT1" [] ∅ initial_program =
              (Returns false,
               snd (_multiply (NL_str "MULT5") "MULT1" [] ∅ initial_program)))
    by (vm_compute; reflexivity).
  exact (proj1 multiply_success_stores_quantized_product
           (NL_str "MULT5") "MULT1" [] ∅ initial_program _ H).
Defined.

(* ===================================================================== *)
(** ** Properties of Field.set *)
(* ===================================================================== *)

(** C4 (quantization law). [_quantize], and so a successful [set], brings a
    finite number to exactly [digits_right] fractional digits: by cutting
    toward zero when [rounded] is false, and by rounding to the nearest
    unit of the last retained place, a tie going away from zero, when it is
    true. On a field with one fractional digit, 12345.65 rounded gives
    12345.7, 12345.64 rounded gives 12345.6 and 12345.65 truncated gives
    12345.6. The last two parts say what the two modes are: truncation goes
    toward zero and discards less than one unit; round-half-up is
    truncation moved one unit away from zero exactly when the discarded
    remainder is at least half a unit. ([digits_right] may not exceed
    1000058, the number of fractional digits of the smallest exponent of
    the context.) *)
Theorem set_quantizes_to_digits_right :
  (forall (f : Field) (v q : Decimal) (rounded : bool),
     digits_right f <= - Etiny ->
     is_finite v = true ->
     _quantize f v rounded = Returns q ->
     (exists s c, q = Fin s c (- digits_right f)) /\
     (to_Q q == spec_quantize (to_Q v) (digits_right f) rounded)%Q) /\
  (forall (f f' : Field) (raw : NumberLike) (v : Decimal) (rounded : bool),
     digits_right f <= - Etiny ->
     Decimal_of_NumberLike raw = Returns v ->
     set f raw rounded = (Returns true, f') ->
     (exists s c, value f' = Fin s c (- digits_right f)) /\
     (to_Q (value f') == spec_quantize (to_Q v) (digits_right f) rounded)%Q) /\
  (let f := mkField "WRK_DU_5V1_1" 5 1 false (Fin false 123456 (-1)) in
   set f (NL_str "12345.65") true = (Returns true, with_value f (Fin false 123457 (-1))) /\
   set f (NL_str "12345.64") true = (Returns true, with_value f (Fin false 123456 (-1))) /\
   set f (NL_str "12345.65") false = (Returns true, with_value f (Fin false 123456 (-1)))) /\
  (forall x : Q,
     (Qabs (inject_Z (toward_zero x)) <= Qabs x)%Q /\
     (Qabs (x - inject_Z (toward_zero x)) < 1)%Q) /\
  (forall x : Q,
     half_up x =
     toward_zero x +
     (if Qle_bool (1#2) (Qabs (x - inject_Z (toward_zero x)))
      then (if Qle_bool 0 x then 1 else -1) else 0)).
Proof.
  split; [|split; [|split; [|split]]].
  4:{ intros x. destruct (toward_zero_spec x) as (H1 & H2 & _). by split. }
  4:{ apply half_up_spec. }
  - intros f v q rounded Hdr Hv Hq. by apply (_quantize_spec _ _ _ _ Hq).
  - intros f f' raw v rounded Hdr Hraw Hset.
    apply set_true_inv in Hset as (d & q & Hd & Hq & Hfit & ->).
    rewrite Hraw in Hd. inversion Hd; subst d.
    apply _fits_true_inv in Hfit as (Hfin & _).
    apply (_quantize_spec _ _ _ _ Hq); [|done].
    by apply (_quantize_returns_finite _ _ _ _ Hq).
  - repeat split; vm_compute; reflexivity.
Qed.

Lemma set_quantizes_to_digits_right_witness :
  let f := mkField "WRK_DU_5V1_1" 5 1 false (Fin false 123456 (-1)) in
  let v := Fin false 1234565 (-2) in
  Decimal_of_NumberLike (NL_str "12345.65") = Returns v /\
  set f (NL_str "12345.65") true = (Returns true, with_value f (Fin false 123457 (-1))) /\
  (exists s c, Fin false 123457 (-1) = Fin s c (-1)) /\
  (to_Q (Fin false 123457 (-1)) == spec_quantize (to_Q v) 1 true)%Q.
Proof.
  split; [vm_compute; reflexivity|]. split; [vm_compute; reflexivity|].
  assert (Hdr : 1 <= - Etiny) by (vm_compute; discriminate).
  assert (Hraw : Decimal_of_NumberLike (NL_str "12345.65") =
                 Returns (Fin false 1234565 (-2))) by (vm_compute; reflexivity).
  assert (Hset : set (mkField "WRK_DU_5V1_1" 5 1 false (Fin false 123456 (-1)))
                   (NL_str "12345.65") true =
                 (Returns true,
                  with_value (mkField "WRK_DU_5V1_1" 5 1 false (Fin false 123456 (-1)))
                    (Fin false 123457 (-1)))) by (vm_compute; reflexivity).
  exact (proj1 (proj2 set_quantizes_to_digits_right)
           (mkField "WRK_DU_5V1_1" 5 1 false (Fin false 123456 (-1)))
           _ _ _ _ Hdr Hraw Hset).
Defined.

(** C3, as stated, fails in three places: an unsigned field accepts the
    negative value -0.4 when it truncates to zero; it rejects 9.5, which is
    below [10^1], when rounding takes it to 10; and 99, which has as many
    integer digits as a signed field of two digits, fits that field. *)
Lemma set_width_claim_fails :
  let f := mkField "MULT5" 1 0 false (Fin false 4 0) in
  let g := mkField "MULT4" 2 0 true (Fin true 56 0) in
  (Decimal_of_NumberLike (NL_str "-0.4") = Returns (Fin true 4 (-1)) /\
   (to_Q (Fin true 4 (-1)) < 0)%Q /\
   set f (NL_str "-0.4") false = (Returns true, with_value f (Fin true 0 0))) /\
  (Decimal_of_NumberLike (NL_str "9.5") = Returns (Fin false 95 (-1)) /\
   (0 <= to_Q (Fin false 95 (-1)))%Q /\
   (Qabs (to_Q (Fin false 95 (-1))) < 10 ^ digits_left f)%Q /\
   set f (NL_str "9.5") true = (Returns false, f)) /\
  (ndigits 99 = digits_left g /\
   set g (NL_str "99") false = (Returns true, with_value g (Fin false 99 0))).
Proof.
  repeat split; try (vm_compute; reflexivity).
  vm_compute. discriminate.
Qed.

(** C3 (amended). On a field with [digits_left = d >= 0] and
    [digits_right >= 0], for every finite value: if the field is unsigned,
    [set] fails when the quantized value is below zero and when the
    magnitude of the value is at least [10^d]; it succeeds when the
    quantized value [q] satisfies [0 <= q < 10^d], and so for every value
    with [0 <= value < 10^d] under truncation on a field of at most 60
    digits. If the field is signed, the fit check on the quantized value is
    the strict inequality [-10^d < q < 10^d]: a magnitude of exactly [10^d]
    overflows. *)
Theorem set_enforces_width (f : Field) (raw : NumberLike) (rounded : bool)
    (s : bool) (c : N) (e : Z) :
  Decimal_of_NumberLike raw = Returns (Fin s c e) ->
  0 <= digits_left f -> 0 <= digits_right f ->
  (signed f = false ->
     (forall q, _quantize f (Fin s c e) rounded = Returns q ->
                (to_Q q < 0)%Q ->
                set f raw rounded = (Returns false, f)) /\
     ((10 ^ digits_left f <= Qabs (to_Q (Fin s c e)))%Q ->
      set f raw rounded = (Returns false, f)) /\
     (digits_left f <= Emax ->
      forall q, _quantize f (Fin s c e) rounded = Returns q ->
                (0 <= to_Q q)%Q -> (to_Q q < 10 ^ digits_left f)%Q ->
                set f raw rounded = (Returns true, with_value f q)) /\
     (digits_left f + digits_right f <= prec -> rounded = false ->
      (0 <= to_Q (Fin s c e))%Q -> (to_Q (Fin s c e) < 10 ^ digits_left f)%Q ->
      exists q, set f raw rounded = (Returns true, with_value f q))) /\
  (signed f = true -> digits_left f <= Emax ->
     forall q, is_finite q = true ->
       exists b, _fits f q = Returns b /\
                 (b = true <->
                  (- 10 ^ digits_left f < to_Q q)%Q /\ (to_Q q < 10 ^ digits_left f)%Q)).
Proof.
  intros Hraw Hdl Hdr. rewrite (set_raw _ _ _ _ Hraw).
  assert (HE : Etiny <= 0) by ctx_lia.
  split.
  - intros Hs. split; [|split; [|split]].
    + intros q Hq Hneg. by apply (set_rejects_negative _ _ q).
    + intros Hwide. by apply set_rejects_wide.
    + intros HdlE q Hq H0 H1.
      apply set_accepts_fitting; [lia| |done|].
      * by apply _quantize_finite in Hq as (-> & _).
      * pose proof (ten_pos (digits_left f)). repeat split; [done|lra|done].
    + intros Hsum -> H0 H1.
      destruct (_quantize_truncates_in_range f s c e Hdl Hdr Hsum H0 H1)
        as (q & Hq & Hfin & Hq0 & Hq1).
      exists q. apply set_accepts_fitting; [ctx_lia|done|done|].
      pose proof (ten_pos (digits_left f)). repeat split; [done|lra|done].
  - intros Hs HdlE q Hfin. destruct q as [s' c' e'| |]; [|done|done].
    destruct (_fits_spec f s' c' e' ltac:(lia)) as (b & Hb & Hiff).
    exists b. split; [done|]. rewrite Hiff. unfold spec_fits. rewrite Hs.
    split; [by intros (_ & ? & ?)|]. intros [? ?]. by repeat split.
Qed.

Lemma set_enforces_width_witness :
  let f := mkField "MULT5" 1 0 false (Fin false 4 0) in
  Decimal_of_NumberLike (NL_str "9.5") = Returns (Fin false 95 (-1)) /\
  set f (NL_str "9.5") true = (Returns false, f) /\
  exists q, set f (NL_str "9.5") false = (Returns true, with_value f q).
Proof.
  assert (Hraw : Decimal_of_NumberLike (NL_str "9.5") = Returns (Fin false 95 (-1)))
    by (vm_compute; reflexivity).
  assert (Hdl : 0 <= 1) by lia.
  assert (Hdr : 0 <= 0) by lia.
  split; [exact Hraw|]. split; [vm_compute; reflexivity|].
  refine (proj2 (proj2 (proj2 (proj1
    (set_enforces_width (mkField "MULT5" 1 0 false (Fin false 4 0))
       (NL_str "9.5") false false 95 (-1) Hraw Hdl Hdr) eq_refl))) _ eq_refl _ _).
  - vm_compute. discriminate.
  - vm_compute. discriminate.
  - vm_compute. reflexivity.
Defined.



(* ===================================================================== *)
(** ** A call of set that raises *)
(* ===================================================================== *)

(** C6 (a failing set). The code misses one case of what the claim asks:
    the text "NaN" converts and quantizes without error, and the comparison
    in [_fits], which is outside the [try] of [set], raises
    [InvalidOperation] instead of letting [set] return [False]. Text that
    is no number at all, and an infinity, do make [set] return [False]. In
    all three cases the field is unchanged. *)
Theorem set_raises_on_nan :
  let f := mkField "MULT5" 1 0 false (Fin false 4 0) in
  Decimal_of_NumberLike (NL_str "NaN") = Returns (NaN false false) /\
  _quantize f (NaN false false) false = Returns (NaN false false) /\
  _fits f (NaN false false) = Raises InvalidOperation /\
  set f (NL_str "NaN") false = (Raises InvalidOperation, f) /\
  set f (NL_str "abc") false = (Returns false, f) /\
  set f (NL_str "Infinity") false = (Returns false, f).
Proof. repeat split; vm_compute; reflexivity. Qed.

(* ===================================================================== *)
(** ** More on Field.set: which calls return and which raise *)
(* ===================================================================== *)

Lemma Decimal_of_NumberLike_raises (raw : NumberLike) (e : exn) :
  Decimal_of_NumberLike raw = Raises e -> e = InvalidOperation.
Proof.
  destruct raw as [s|n|d]; [|done|done]. cbn [Decimal_of_NumberLike].
  unfold Decimal_of_string.
  destruct (parse_sign _) as [sg body].
  destruct (parse_number sg body); [done|].
  destruct (parse_special sg body); [done|]. by intros [= <-].
Qed.

Lemma Decimal_one_scaleb_picture (f : Field) :
  picture_ok f ->
  Decimal_one_scaleb (- digits_right f) = Returns (Fin false 1 (- digits_right f)).
Proof.
  intros [_ Hdr]. rewrite Decimal_one_scaleb_eq.
  destruct (negb _) eqn:Hb.
  { apply negb_true_iff, andb_false_iff in Hb as [Hb|Hb];
      apply Z.leb_gt in Hb; ctx_lia. }
  destruct (Emax <? - digits_right f) eqn:E1; [apply Z.ltb_lt in E1; ctx_lia|].
  destruct (Etiny <=? - digits_right f) eqn:E2; [|apply Z.leb_gt in E2; lia].
  by rewrite Z.max_l by lia.
Qed.

(** On a picture of the context [set] returns for every finite input. *)
Lemma set_finite_total (f : Field) (s : bool) (c : N) (e : Z) (rounded : bool) :
  picture_ok f ->
  exists b, set f (NL_Decimal (Fin s c e)) rounded =
            (Returns b, snd (set f (NL_Decimal (Fin s c e)) rounded)).
Proof.
  intros [Hdl Hdr].
  destruct (set_finite_returns f (NL_Decimal (Fin s c e)) rounded s c e eq_refl)
    as (b & f' & H); [lia|ctx_lia|].
  exists b. by rewrite H.
Qed.

(** An infinity and a signaling NaN are stopped by [_quantize]; a quiet
    NaN passes it and makes the comparison of [_fits] raise. *)
Lemma set_special (f : Field) (d : Decimal) (rounded : bool) :
  picture_ok f -> is_finite d = false ->
  set f (NL_Decimal d) rounded =
  if is_nan d && negb (is_snan d) then (Raises InvalidOperation, f)
  else (Returns false, f).
Proof.
  intros Hpic Hd. pose proof (Decimal_one_scaleb_picture f Hpic) as Hs.
  destruct Hpic as [Hdl Hdr].
  unfold set, _quantize. cbn [Decimal_of_NumberLike obind]. rewrite Hs.
  cbn [obind]. destruct d as [s c e|s|s [|]]; [done|done|done|].
  cbn [Decimal_quantize check_nans is_snan is_nan orb andb negb].
  unfold _fits. destruct (signed f).
  - cbn [obind]. unfold Decimal_pow10.
    destruct (Emax <? digits_left f) eqn:E1; [apply Z.ltb_lt in E1; lia|].
    destruct (digits_left f <? Etiny) eqn:E2; [apply Z.ltb_lt in E2; ctx_lia|].
    cbn [obind]. rewrite Decimal_neg_limit by ctx_lia. done.
  - done.
Qed.

(** When [set] returns or raises, in terms of the converted input. *)
Lemma set_by_kind (f : Field) (raw : NumberLike) (rounded : bool) :
  picture_ok f ->
  match Decimal_of_NumberLike raw with
  | Raises _ => set f raw rounded = (Returns false, f)
  | Returns d =>
      if is_finite d then exists b f', set f raw rounded = (Returns b, f')
      else if is_nan d && negb (is_snan d)
           then set f raw rounded = (Raises InvalidOperation, f)
           else set f raw rounded = (Returns false, f)
  end.
Proof.
  intros Hpic. destruct (Decimal_of_NumberLike raw) as [d|e] eqn:Hraw.
  - rewrite (set_raw _ _ _ _ Hraw). destruct (is_finite d) eqn:Hd.
    + destruct d as [s c x| |]; [|done|done].
      destruct (set_finite_total f s c x rounded Hpic) as [b Hb]. by eexists _, _.
    + rewrite (set_special _ _ _ Hpic Hd). by destruct (is_nan d && negb (is_snan d)).
  - pose proof (Decimal_of_NumberLike_raises _ _ Hraw) as ->.
    by apply set_malformed.
Qed.

(** X1: the calls of set that raise. On a field with a picture of the
    context, [set] raises exactly when its argument converts to a quiet
    NaN; it then raises [InvalidOperation] and the field is unchanged.
    Every other argument (text that is no number, a finite number, an
    infinity, a signaling NaN) makes it return [True] or [False]. *)
Theorem set_raises_exactly_on_quiet_nan (f : Field) (raw : NumberLike)
    (rounded : bool) :
  picture_ok f ->
  (forall e f', set f raw rounded = (Raises e, f') ->
     e = InvalidOperation /\ f' = f /\
     exists s, Decimal_of_NumberLike raw = Returns (NaN s false)) /\
  (forall s, Decimal_of_NumberLike raw = Returns (NaN s false) ->
     set f raw rounded = (Raises InvalidOperation, f)) /\
  ((forall s, Decimal_of_NumberLike raw <> Returns (NaN s false)) ->
     exists b f', set f raw rounded = (Returns b, f')).
Proof.
  intros Hpic. pose proof (set_by_kind f raw rounded Hpic) as H.
  destruct (Decimal_of_NumberLike raw) as [d|e0] eqn:Hraw.
  - destruct d as [s c x|s|s [|]]; cbn in H.
    + destruct H as (b & g & H). split; [|split].
      * intros e f' He. rewrite H in He. done.
      * intros s' Hs. done.
      * intros _. by exists b, g.
    + split; [|split].
      * intros e f' He. rewrite H in He. done.
      * intros s' Hs. done.
      * intros _. by eexists _, _.
    + split; [|split].
      * intros e f' He. rewrite H in He. done.
      * intros s' Hs. done.
      * intros _. by eexists _, _.
    + split; [|split].
      * intros e f' He. rewrite H in He. inversion He; subst.
        repeat split. by exists s.
      * intros s' _. done.
      * intros Hn. by destruct (Hn s).
  - split; [|split].
    + intros e f' He. rewrite H in He. done.
    + intros s Hs. done.
    + intros _. by eexists _, _.
Qed.

Lemma set_raises_exactly_on_quiet_nan_witness :
  let f := mkField "MULT4" 2 0 true (Fin true 56 0) in
  set f (NL_str "-nan") true = (Raises InvalidOperation, f) /\
  exists b f', set f (NL_str "sNaN") true = (Returns b, f').
Proof.
  assert (Hpic : picture_ok (mkField "MULT4" 2 0 true (Fin true 56 0))).
  { repeat split; vm_compute; discriminate. }
  split.
  - apply (proj1 (proj2 (set_raises_exactly_on_quiet_nan
             (mkField "MULT4" 2 0 true (Fin true 56 0)) (NL_str "-nan") true Hpic))
             true).
    vm_compute. reflexivity.
  - apply (proj2 (proj2 (set_raises_exactly_on_quiet_nan
             (mkField "MULT4" 2 0 true (Fin true 56 0)) (NL_str "sNaN") true Hpic))).
    intros s H. vm_compute in H. discriminate H.
Defined.

Lemma rescale_coeff_same (mode : rounding_mode) (c : N) (t : Z) :
  rescale_coeff mode c t t = c.
Proof.
  unfold rescale_coeff. rewrite Z.leb_refl, Z.sub_diag.
  change (pow10 0) with 1%N. lia.
Qed.

(** A value that [_quantize] produced and [_fits] accepted is a fixed
    point of [_quantize], in either rounding mode. *)
Lemma _quantize_fixpoint (f : Field) (d q : Decimal) (rounded rounded' : bool) :
  _quantize f d rounded = Returns q ->
  _fits f q = Returns true ->
  _quantize f q rounded' = Returns q.
Proof.
  intros Hq Hfit.
  apply _fits_true_inv in Hfit as (Hfin & (_ & Hlo & Hhi) & Hdl).
  pose proof (_quantize_returns_finite _ _ _ _ Hq Hfin) as Hd.
  destruct d as [s c e| |]; [|done|done].
  pose proof Hq as Hq0. unfold _quantize in Hq0.
  rewrite Decimal_one_scaleb_eq in Hq0.
  apply _quantize_finite in Hq as (-> & Ht & Hnd & _).
  set (t := Z.max (- digits_right f) Etiny) in *.
  set (c' := rescale_coeff (if rounded then ROUND_HALF_UP else ROUND_DOWN) c e t) in *.
  unfold _quantize. rewrite Decimal_one_scaleb_eq.
  destruct (negb _) eqn:Hb; [done|].
  destruct (Emax <? - digits_right f) eqn:E1; [done|].
  cbn [obind]. fold t.
  rewrite Decimal_quantize_succeeds; [by rewrite rescale_coeff_same|done|].
  intros Hc. rewrite rescale_coeff_same.
  assert (Hadj : adjusted c' t < digits_left f).
  { apply adjusted_lt; [lia|].
    rewrite to_Q_signed in Hlo, Hhi. destruct s; lra. }
  unfold adjusted in *. unfold prec in *. lia.
Qed.

(** X2: writing a stored value back. After a call of [set] that returned
    [True], setting the field to the value it now holds, with or without
    rounding, returns [True] and changes nothing: what [set] stores is
    already quantized and within the width. The test paragraphs copy a
    field into another with [set(field.value)]. *)
Theorem set_stored_value_is_stable (f f' : Field) (raw : NumberLike)
    (rounded rounded' : bool) :
  set f raw rounded = (Returns true, f') ->
  set f' (NL_Decimal (value f')) rounded' = (Returns true, f').
Proof.
  intros H. apply set_true_inv in H as (d & q & _ & Hq & Hfit & ->).
  cbn [value with_value].
  rewrite (set_quantized (with_value f q) q q rounded' true).
  - done.
  - rewrite _quantize_with_value. by apply (_quantize_fixpoint f d q rounded).
  - by rewrite _fits_with_value.
Qed.

Lemma set_stored_value_is_stable_witness :
  let f := mkField "WRK_DS_06V06" 6 6 true (Fin false 0 0) in
  let f' := with_value f (Fin false 8888889 (-6)) in
  set f (NL_str "8.8888888") true = (Returns true, f') /\
  set f' (NL_Decimal (value f')) false = (Returns true, f').
Proof.
  assert (H : set (mkField "WRK_DS_06V06" 6 6 true (Fin false 0 0))
                (NL_str "8.8888888") true =
              (Returns true,
               with_value (mkField "WRK_DS_06V06" 6 6 true (Fin false 0 0))
                 (Fin false 8888889 (-6)))) by (vm_compute; reflexivity).
  split; [exact H|].
  exact (set_stored_value_is_stable _ _ _ _ false H).
Defined.

(* ===================================================================== *)
(** ** Rounding can only add size errors *)
(* ===================================================================== *)

Lemma ndigits_mono (a b : N) : (a <= b)%N -> ndigits a <= ndigits b.
Proof.
  intros Hab. destruct (N.eq_dec a 0%N) as [->|Ha].
  - change (ndigits 0) with 1. apply ndigits_pos.
  - destruct (ndigits_bounds a ltac:(lia)) as (_ & H1 & _).
    destruct (ndigits_bounds b ltac:(lia)) as (Hb & _ & H2).
    destruct (Z_le_gt_dec (ndigits a) (ndigits b)) as [|Hgt]; [done|].
    assert (10 ^ ndigits b <= 10 ^ (ndigits a - 1)) by (apply Z.pow_le_mono_r; lia).
    lia.
Qed.

Lemma rescale_coeff_down_le_half_up (c : N) (e t : Z) :
  (rescale_coeff ROUND_DOWN c e t <= rescale_coeff ROUND_HALF_UP c e t)%N.
Proof.
  apply N2Z.inj_le. rewrite rescale_coeff_down, rescale_coeff_half_up.
  apply Qfloor_resp_le. lra.
Qed.

(** All the checks a successful [quantize] of a non-zero number passed. *)
Lemma Decimal_quantize_returns_inv (s s0 : bool) (c c0 : N) (e t : Z)
    (mode : rounding_mode) (x : Decimal) :
  Decimal_quantize (Fin s c e) (Fin s0 c0 t) mode = Returns x ->
  c <> 0%N ->
  adjusted c e <= Emax /\ adjusted c e - t + 1 <= prec /\
  adjusted (rescale_coeff mode c e t) t <= Emax /\
  ndigits (rescale_coeff mode c e t) <= prec.
Proof.
  unfold Decimal_quantize. cbn [check_nans is_snan is_nan orb].
  destruct (negb _); [done|]. intros H Hc.
  apply N.eqb_neq in Hc. rewrite Hc in H.
  destruct (Emax <? adjusted c e) eqn:E1; [done|].
  destruct (prec <? adjusted c e - t + 1) eqn:E2; [done|].
  destruct (Emax <? adjusted (rescale_coeff mode c e t) t) eqn:E3; [done|].
  destruct (prec <? ndigits (rescale_coeff mode c e t)) eqn:E4; [done|].
  apply Z.ltb_ge in E1, E2, E3, E4. done.
Qed.

(** If [_quantize] succeeds with rounding, it succeeds with truncation,
    with the same sign and exponent and a coefficient that is not larger. *)
Lemma _quantize_rounded_then_truncated (f : Field) (s : bool) (c : N) (e : Z)
    (q : Decimal) :
  _quantize f (Fin s c e) true = Returns q ->
  exists cu cd t,
    q = Fin s cu t /\ (cd <= cu)%N /\
    _quantize f (Fin s c e) false = Returns (Fin s cd t).
Proof.
  intros Hq. pose proof Hq as Hq0.
  apply _quantize_finite in Hq0 as (-> & Ht & Hnd & _).
  set (t := Z.max (- digits_right f) Etiny) in *.
  exists (rescale_coeff ROUND_HALF_UP c e t), (rescale_coeff ROUND_DOWN c e t), t.
  split; [done|]. split; [apply rescale_coeff_down_le_half_up|].
  unfold _quantize in *. rewrite Decimal_one_scaleb_eq in *.
  destruct (negb _); [done|].
  destruct (Emax <? - digits_right f); [done|].
  cbn [obind] in *. fold t in Hq |- *.
  apply Decimal_quantize_succeeds; [done|]. intros Hc.
  destruct (Decimal_quantize_returns_inv _ _ _ _ _ _ _ _ Hq Hc) as (H1 & H2 & H3 & H4).
  pose proof (ndigits_mono _ _ (rescale_coeff_down_le_half_up c e t)) as Hm.
  unfold adjusted in *. lia.
Qed.

(** A number that a field accepts once rounded, it accepts once truncated:
    the truncated value has the same sign and exponent and a coefficient
    that is not larger. *)
Lemma set_truncated_of_rounded (f : Field) (d q : Decimal) :
  _quantize f d true = Returns q ->
  _fits f q = Returns true ->
  exists s cu cd t,
    q = Fin s cu t /\ (cd <= cu)%N /\
    set f (NL_Decimal d) false = (Returns true, with_value f (Fin s cd t)).
Proof.
  intros Hq Hfit.
  apply _fits_true_inv in Hfit as (Hfin & (Hsg & Hlo & Hhi) & Hdl).
  pose proof (_quantize_returns_finite _ _ _ _ Hq Hfin) as Hd.
  destruct d as [s c e| |]; [|done|done].
  destruct (_quantize_rounded_then_truncated f s c e q Hq)
    as (cu & cd & t & -> & Hle & Hqd).
  exists s, cu, cd, t. split; [done|]. split; [done|].
  assert (Hmag : (inject_Z (Z.of_N cd) * 10 ^ t <= inject_Z (Z.of_N cu) * 10 ^ t)%Q).
  { apply shift_le. apply (proj1 (ZQ_le _ _)). lia. }
  pose proof (magnitude_nonneg cd t) as Hnn.
  apply set_accepts_fitting; [done|done|done|].
  rewrite to_Q_signed in Hsg, Hlo, Hhi. unfold spec_fits. rewrite to_Q_signed.
  destruct s.
  - repeat split; [intros Hs; specialize (Hsg Hs)|..]; lra.
  - repeat split; [intros _|..]; lra.
Qed.

Lemma accepts_rounded_then_truncated (f : Field) (p : Decimal) :
  accepts f p true = true -> accepts f p false = true.
Proof.
  unfold accepts. intros H.
  destruct (set f (NL_Decimal p) true) as [[[|]|] f1] eqn:E; try done.
  apply set_true_inv in E as (d & q & [= <-] & Hq & Hfit & _).
  destruct (set_truncated_of_rounded f p q Hq Hfit) as (s & cu & cd & t & _ & _ & ->).
  done.
Qed.

(** X3: rounding can only add size errors. A value that a field accepts
    with [rounded = True] it also accepts with [rounded = False], and the
    truncated value it then stores is not larger in magnitude than the
    rounded one. *)
Theorem set_rounded_implies_truncated (f f1 : Field) (raw : NumberLike) :
  set f raw true = (Returns true, f1) ->
  exists f2,
    set f raw false = (Returns true, f2) /\
    (Qabs (to_Q (value f2)) <= Qabs (to_Q (value f1)))%Q.
Proof.
  intros H. apply set_true_inv in H as (d & q & Hraw & Hq & Hfit & ->).
  rewrite (set_raw _ _ _ _ Hraw).
  destruct (set_truncated_of_rounded f d q Hq Hfit)
    as (s & cu & cd & t & -> & Hle & Hset).
  exists (with_value f (Fin s cd t)). split; [exact Hset|].
  cbn [value with_value]. rewrite !Qabs_to_Q.
  apply shift_le. apply (proj1 (ZQ_le _ _)). lia.
Qed.

Lemma set_rounded_implies_truncated_witness :
  let f := mkField "WRK_DS_02V00" 2 0 true (Fin false 0 0) in
  set f (NL_str "-98.9") true = (Returns true, with_value f (Fin true 99 0)) /\
  exists f2,
    set f (NL_str "-98.9") false = (Returns true, f2) /\
    (Qabs (to_Q (value f2)) <= Qabs (to_Q (Fin true 99 0)))%Q.
Proof.
  assert (H : set (mkField "WRK_DS_02V00" 2 0 true (Fin false 0 0))
                (NL_str "-98.9") true =
              (Returns true,
               with_value (mkField "WRK_DS_02V00" 2 0 true (Fin false 0 0))
                 (Fin true 99 0))) by (vm_compute; reflexivity).
  split; [exact H|].
  exact (set_rounded_implies_truncated _ _ _ H).
Defined.

(* ===================================================================== *)
(** ** More on _multiply: what a call touches *)
(* ===================================================================== *)

Lemma take_snapshots_keys (self : Program) (names : list string)
    (acc S : gmap string Decimal) :
  take_snapshots self names acc = Returns S ->
  forall k, is_Some (S !! k) -> k ∈ names \/ is_Some (acc !! k).
Proof.
  revert acc. induction names as [|key rest IH]; intros acc H k Hk; simpl in H.
  - inversion H; subst. by right.
  - unfold get_field in H.
    destruct (fields self !! key) as [f|]; simpl in H; [|done].
    destruct (IH _ H k Hk) as [Hin|Hacc].
    + left. by right.
    + destruct (decide (key = k)) as [->|Hne]; [left; by left|].
      right. by rewrite lookup_insert_ne in Hacc.
Qed.

(** The snapshots of existing receivers are taken without error. *)
Lemma take_snapshots_returns (self : Program) (names : list string)
    (acc : gmap string Decimal) :
  (forall k, k ∈ names -> is_Some (fields self !! k)) ->
  exists S, take_snapshots self names acc = Returns S.
Proof.
  revert acc. induction names as [|key rest IH]; intros acc H; simpl.
  - by eexists.
  - unfold get_field. destruct (H key) as [f ->]; [by left|]. cbn [obind].
    apply IH. intros k Hk. apply H. by right.
Qed.


(** What the snapshot dictionary holds. *)
Lemma take_snapshots_lookup (self : Program) (names : list string)
    (S : gmap string Decimal) :
  take_snapshots self names ∅ = Returns S ->
  forall k, S !! k = if decide (k ∈ names) then value <$> fields self !! k else None.
Proof.
  intros H k. pose proof (take_snapshots_spec _ _ _ _ H) as (H1 & _ & H3).
  pose proof (take_snapshots_keys _ _ _ _ H k) as H4.
  destruct (decide (k ∈ names)) as [Hin|Hout].
  - destruct (H1 k Hin) as [v Hv]. rewrite Hv.
    destruct (H3 k v Hv) as [Hacc|(f & -> & <-)]; [by rewrite lookup_empty in Hacc|done].
  - destruct (S !! k) as [v|] eqn:Hv; [|done].
    destruct H4 as [Hin|[? Hacc]]; [by eexists|done|by rewrite lookup_empty in Hacc].
Qed.

(** X4: the frame of a multiply call. Whatever a call of [_multiply]
    returns or raises, it leaves the constants alone, deletes and creates
    no field, changes of a field nothing but its value, and changes no
    field outside the receivers. *)
Theorem multiply_frame (multiplicand : NumberLike) (multiplier : string)
    (additional : list string) (rounded : gset string) (self : Program) :
  let self' := snd (_multiply multiplicand multiplier additional rounded self) in
  constants self' = constants self /\
  (forall key, key ∉ multiplier :: additional ->
     fields self' !! key = fields self !! key) /\
  (forall key,
     match fields self !! key with
     | Some f => exists v, fields self' !! key = Some (with_value f v)
     | None => fields self' !! key = None
     end).
Proof.
  destruct (_multiply multiplicand multiplier additional rounded self)
    as [r self'] eqn:H. cbn [snd].
  apply _multiply_inv in H as [(e & _ & ->)|(mv & f0 & S & p & _ & _ & HS & _ & H)].
  - split; [done|]. split; [done|].
    intros key. destruct (fields self !! key) as [f|]; [|done].
    exists (value f). by rewrite with_value_id.
  - pose proof (take_snapshots_snapshot_of _ _ _ HS) as Hsnap.
    pose proof (take_snapshots_keys _ _ _ _ HS) as Hkeys.
    apply take_snapshots_spec in HS as (Hn & _ & _).
    apply (store_loop_touched S rounded p self _ Hsnap self self' _
             eq_refl (touched_refl _ _) Hn) in H as (Hc & Ht & _).
    split; [done|]. split.
    + intros key Hkey. destruct (Ht key) as [Hk|(g & v & _ & Hs & _)]; [done|].
      destruct (Hkeys key Hs) as [Hin|[? Hacc]]; [done|by rewrite lookup_empty in Hacc].
    + intros key. destruct (Ht key) as [Hk|(g & v & Hg & _ & Hk)].
      * rewrite Hk. destruct (fields self !! key) as [f|]; [|done].
        exists (value f). by rewrite with_value_id.
      * rewrite Hg. by exists v.
Qed.

(* ===================================================================== *)
(** ** The storing loop, forwards *)
(* ===================================================================== *)

(** The result of [set] depends on the picture of the field, not on the
    value it holds. *)
Lemma set_fst_with_value (f : Field) (w : Decimal) (raw : NumberLike)
    (rounded : bool) :
  fst (set (with_value f w) raw rounded) = fst (set f raw rounded).
Proof.
  unfold set. destruct (Decimal_of_NumberLike raw) as [d|e]; cbn [obind].
  - rewrite _quantize_with_value.
    destruct (_quantize f d rounded) as [v|e].
    + rewrite _fits_with_value. by destruct (_fits f v) as [[|]|].
    + by destruct e.
  - by destruct e.
Qed.

Lemma receiver_accepts_true (fs : gmap string Field) (rounded : gset string)
    (p : Decimal) (key : string) (f : Field) :
  fs !! key = Some f ->
  receiver_accepts fs rounded p key = true <->
  fst (set f (NL_Decimal p) (bool_decide (key ∈ rounded))) = Returns true.
Proof.
  intros Hf. unfold receiver_accepts, accepts. rewrite Hf.
  destruct (fst (set f (NL_Decimal p) (bool_decide (key ∈ rounded)))) as [[|]|];
    split; (done || congruence).
Qed.

(** When no receiver's [set] raises, the loop returns, and it returns a
    size error exactly when some receiver does not accept the product. *)
Lemma store_loop_flag (S : gmap string Decimal) (rounded : gset string)
    (p : Decimal) (fs0 : gmap string Field) (names : list string) :
  snapshot_of S fs0 ->
  (forall k f0, k ∈ names -> fs0 !! k = Some f0 ->
     exists b, fst (set f0 (NL_Decimal p) (bool_decide (k ∈ rounded))) = Returns b) ->
  forall self : Program,
    touched S fs0 (fields self) ->
    (forall k, k ∈ names -> is_Some (S !! k)) ->
    fst (store_loop S rounded p names self) =
    Returns (negb (forallb (receiver_accepts fs0 rounded p) names)).
Proof.
  intros HS Hret. induction names as [|key rest IH]; intros self Ht Hn.
  - done.
  - cbn [store_loop forallb]. unfold get_field.
    assert (HSkey : is_Some (S !! key)) by (apply Hn; by left).
    destruct HSkey as [v Hv]. destruct (HS key v Hv) as (g & Hg & _).
    destruct (fields self !! key) as [field|] eqn:Hfield.
    2:{ destruct (Ht key) as [Hk|(? & ? & _ & _ & Hk)]; rewrite Hfield in Hk;
          [by rewrite Hg in Hk|done]. }
    destruct (touched_picture _ _ _ _ _ Ht Hfield) as (f0 & Hf0 & Hpic).
    destruct (set field (NL_Decimal p) (bool_decide (key ∈ rounded)))
      as [r1 field'] eqn:Hset.
    assert (Hfst : r1 = fst (set f0 (NL_Decimal p) (bool_decide (key ∈ rounded)))).
    { rewrite Hpic in Hset. rewrite <- (set_fst_with_value f0 (value field)).
      by rewrite Hset. }
    destruct (Hret key f0 ltac:(by left) Hf0) as [b Hb]. rewrite Hb in Hfst.
    subst r1.
    pose proof (touched_set _ _ _ _ _ _ _ _ _ Ht Hfield (ex_intro _ v Hv) Hset) as Ht'.
    unfold receiver_accepts at 1. rewrite Hf0. unfold accepts. rewrite Hb.
    destruct b.
    + cbn [andb]. apply IH.
      * intros k f1 Hk. apply Hret. by right.
      * exact Ht'.
      * intros k Hk. apply Hn. by right.
    + cbn [andb negb with_fields fields]. rewrite (restore_touched S _ _ HS Ht'). done.
Qed.

(** With a quiet NaN as product the first [set] raises, before anything
    is written. *)
Lemma store_loop_nan (S : gmap string Decimal) (rounded : gset string)
    (s : bool) (key : string) (rest : list string) (self : Program) (f : Field) :
  fields self !! key = Some f -> picture_ok f ->
  store_loop S rounded (NaN s false) (key :: rest) self =
  (Raises InvalidOperation, self).
Proof.
  intros Hf Hpic. cbn [store_loop]. unfold get_field. rewrite Hf.
  rewrite (set_special f (NaN s false) _ Hpic eq_refl).
  cbn [is_nan is_snan negb andb]. f_equal.
  destruct self as [fs cs]. unfold with_fields. cbn [fields constants] in *.
  f_equal. by apply insert_id.
Qed.

(** On pictures of the context, [set] returns for every product that is
    not a quiet NaN. *)
Lemma set_product_returns (f : Field) (p : Decimal) (rounded : bool) :
  picture_ok f -> is_nan p && negb (is_snan p) = false ->
  exists b, fst (set f (NL_Decimal p) rounded) = Returns b.
Proof.
  intros Hpic Hp. pose proof (set_by_kind f (NL_Decimal p) rounded Hpic) as H.
  cbn [Decimal_of_NumberLike] in H. rewrite Hp in H.
  destruct (is_finite p).
  - destruct H as (b & f' & ->). by exists b.
  - rewrite H. by exists false.
Qed.

(** A product is never a signaling NaN. *)
Lemma Decimal_mul_not_snan (a b p : Decimal) :
  Decimal_mul a b = Returns p -> is_snan p = false.
Proof.
  destruct a as [s1 c1 e1|s1|s1 [|]], b as [s2 c2 e2|s2|s2 [|]];
    unfold Decimal_mul, fix_finite;
    cbn [check_nans is_snan is_nan orb is_zero sign_of];
    intros H;
    repeat match type of H with
           | context [if ?b then _ else _] => destruct b
           | context [let '(_, _) := ?x in _] => destruct x
           end;
    try done; by inversion H; subst.
Qed.

(* ===================================================================== *)
(** ** More on _multiply: its result from the results of set *)
(* ===================================================================== *)



(** A call whose operands resolve and whose receivers exist runs the
    storing loop on the product. *)
Lemma _multiply_runs_loop (multiplicand : NumberLike) (multiplier : string)
    (additional : list string) (rounded : gset string) (self : Program)
    (mv : Decimal) (f0 : Field) (p : Decimal) :
  _resolve_value self multiplicand = Returns mv ->
  fields self !! multiplier = Some f0 ->
  (forall x, x ∈ additional -> is_Some (fields self !! x)) ->
  Decimal_mul mv (value f0) = Returns p ->
  exists S,
    take_snapshots self (multiplier :: additional) ∅ = Returns S /\
    _multiply multiplicand multiplier additional rounded self =
    store_loop S rounded p (multiplier :: additional) self.
Proof.
  intros Hmv Hf0 Hadd Hp.
  destruct (take_snapshots_returns self (multiplier :: additional) ∅) as [S HS].
  { intros k Hk. apply elem_of_cons in Hk as [->|Hk]; [by eexists|by apply Hadd]. }
  exists S. split; [done|].
  unfold _multiply. rewrite Hmv. cbn [obind]. unfold get_field at 1.
  rewrite Hf0. cbn [obind]. rewrite HS. cbn [obind]. unfold clone_value.
  by rewrite Hp.
Qed.

Lemma negb_forallb_true {A : Type} (P : A -> bool) (l : list A) :
  negb (forallb P l) = true <-> exists x, x ∈ l /\ P x = false.
Proof.
  induction l as [|a l IH]; cbn [forallb].
  - split; [done|]. intros (x & Hx & _). by apply elem_of_nil in Hx.
  - destruct (P a) eqn:Ha; cbn [andb].
    + rewrite IH. split.
      * intros (x & Hx & HP). exists x. split; [by right|done].
      * intros (x & Hx & HP). apply elem_of_cons in Hx as [->|Hx]; [congruence|].
        by exists x.
    + split; [|done]. intros _. exists a. split; [by left|done].
Qed.

(** Every field of the initialized registry has a picture of the context. *)
Lemma initial_program_ok : registry_ok initial_program.
Proof.
  assert (H : map_Forall
                (fun _ f => bool_decide (0 <= digits_left f <= Emax /\
                                         0 <= digits_right f <= - Etiny) = true)
                (fields initial_program)).
  { apply (bool_decide_unpack _). vm_compute. exact I. }
  intros key f Hf. apply (H key) in Hf. by apply bool_decide_eq_true_1 in Hf.
Qed.

(** X5: a size error is the failure of some receiver's own set. When the
    operands resolve, the receivers exist with pictures of the context and
    the product is a number or an infinity, [_multiply] returns, and it
    reports a size error exactly when some receiver does not accept the
    product, that is when [set(product, rounded)] on that receiver alone
    would not return [True]. *)
Theorem multiply_size_error_iff_receiver_rejects
    (multiplicand : NumberLike) (multiplier : string)
    (additional : list string) (rounded : gset string) (self : Program)
    (mv : Decimal) (f0 : Field) (p : Decimal) :
  registry_ok self ->
  _resolve_value self multiplicand = Returns mv ->
  fields self !! multiplier = Some f0 ->
  (forall x, x ∈ additional -> is_Some (fields self !! x)) ->
  Decimal_mul mv (value f0) = Returns p ->
  is_nan p = false ->
  exists b,
    fst (_multiply multiplicand multiplier additional rounded self) = Returns b /\
    (b = true <->
     exists key, key ∈ multiplier :: additional /\
                 receiver_accepts (fields self) rounded p key = false).
Proof.
  intros Hok Hmv Hf0 Hadd Hp Hnan.
  destruct (_multiply_runs_loop _ _ _ rounded _ _ _ _ Hmv Hf0 Hadd Hp) as (S & HS & ->).
  pose proof (take_snapshots_snapshot_of _ _ _ HS) as Hsnap.
  apply take_snapshots_spec in HS as (Hn & _ & _).
  rewrite (store_loop_flag S rounded p (fields self) _ Hsnap).
  - eexists. split; [done|]. apply negb_forallb_true.
  - intros k f Hk Hf. apply set_product_returns; [by apply (Hok k)|].
    by rewrite Hnan.
  - apply touched_refl.
  - exact Hn.
Qed.

Lemma multiply_size_error_iff_receiver_rejects_witness :
  let rounded : gset string := {["WRK_DU_2V0_1"%string]} in
  let p := Fin false 12222144 (-1) in
  exists b,
    fst (_multiply (NL_str "WRK_DU_5V1_1") "WRK_DU_2V0_1" ["WRK_DU_6V0_1"]%string
           rounded initial_program) = Returns b /\
    (b = true <->
     exists key, key ∈ ["WRK_DU_2V0_1"; "WRK_DU_6V0_1"]%string /\
                 receiver_accepts (fields initial_program) rounded p key = false).
Proof.
  pose proof initial_program_ok as Hok.
  apply (multiply_size_error_iff_receiver_rejects (NL_str "WRK_DU_5V1_1")
           "WRK_DU_2V0_1" ["WRK_DU_6V0_1"]%string {["WRK_DU_2V0_1"%string]}
           initial_program (Fin false 123456 (-1))
           (mkField "WRK_DU_2V0_1" 2 0 false (Fin false 99 0))
           (Fin false 12222144 (-1)) Hok).
  - vm_compute. reflexivity.
  - vm_compute. reflexivity.
  - intros x Hx. apply list_elem_of_singleton in Hx as ->. vm_compute. by eexists.
  - vm_compute. reflexivity.
  - reflexivity.
Defined.



Lemma forallb_same_elements {A : Type} (P : A -> bool) (l l' : list A) :
  (forall x, x ∈ l <-> x ∈ l') -> forallb P l = forallb P l'.
Proof.
  intros H. destruct (forallb P l) eqn:E1, (forallb P l') eqn:E2; try done.
  - rewrite forallb_forall in E1.
    assert (forallb P l' = true); [|congruence].
    apply forallb_forall. intros x Hx. apply E1.
    apply list_elem_of_In, H, list_elem_of_In, Hx.
  - rewrite forallb_forall in E2.
    assert (forallb P l = true); [|congruence].
    apply forallb_forall. intros x Hx. apply E2.
    apply list_elem_of_In, H, list_elem_of_In, Hx.
Qed.

Lemma stored_functional (p : Decimal) (rounded : gset string)
    (fs0 fs1 fs2 : gmap string Field) (key : string) :
  stored p rounded fs0 fs1 key -> stored p rounded fs0 fs2 key ->
  fs1 !! key = fs2 !! key.
Proof.
  intros (f1 & q1 & Hf1 & Hq1 & _ & ->) (f2 & q2 & Hf2 & Hq2 & _ & ->).
  rewrite Hf1 in Hf2. inversion Hf2; subst f2.
  rewrite Hq1 in Hq2. by inversion Hq2.
Qed.

(** The storing loop run over two receiver lists with the same elements
    ends in the same result and state. *)
Lemma store_loop_same_elements (S : gmap string Decimal) (rounded : gset string)
    (p : Decimal) (self : Program) (names names' : list string) :
  snapshot_of S (fields self) ->
  (forall k f0, fields self !! k = Some f0 ->
     exists b, fst (set f0 (NL_Decimal p) (bool_decide (k ∈ rounded))) = Returns b) ->
  (forall k, k ∈ names -> is_Some (S !! k)) ->
  (forall x, x ∈ names <-> x ∈ names') ->
  store_loop S rounded p names self = store_loop S rounded p names' self.
Proof.
  intros HS Hret Hn Hsame.
  assert (Hn' : forall k, k ∈ names' -> is_Some (S !! k)).
  { intros k Hk. by apply Hn, Hsame. }
  pose proof (store_loop_flag S rounded p (fields self) names HS
                (fun k f _ => Hret k f) self (touched_refl _ _) Hn) as H1.
  pose proof (store_loop_flag S rounded p (fields self) names' HS
                (fun k f _ => Hret k f) self (touched_refl _ _) Hn') as H2.
  rewrite <- (forallb_same_elements _ _ _ Hsame) in H2.
  destruct (store_loop S rounded p names self) as [r1 s1] eqn:E1.
  destruct (store_loop S rounded p names' self) as [r2 s2] eqn:E2.
  cbn [fst] in H1, H2. subst r1 r2. f_equal.
  pose proof (store_loop_touched S rounded p self names HS self s1 _
                eq_refl (touched_refl _ _) Hn E1) as (Hc1 & _ & Hr1).
  pose proof (store_loop_touched S rounded p self names' HS self s2 _
                eq_refl (touched_refl _ _) Hn' E2) as (Hc2 & _ & Hr2).
  destruct (negb (forallb (receiver_accepts (fields self) rounded p) names)).
  - by rewrite Hr1, Hr2.
  - destruct (store_loop_success S rounded p (fields self) names self s1
                (fun _ => False) (touched_refl _ _) Hn ltac:(done) E1) as [Ha1 Hb1].
    destruct (store_loop_success S rounded p (fields self) names' self s2
                (fun _ => False) (touched_refl _ _) Hn' ltac:(done) E2) as [Ha2 Hb2].
    destruct s1 as [fs1 cs1], s2 as [fs2 cs2]. cbn [fields constants] in *.
    f_equal; [|congruence]. apply map_eq. intros key.
    destruct (decide (key ∈ names)) as [Hin|Hout].
    + apply (stored_functional p rounded (fields self)).
      * apply Ha1. by right.
      * apply Ha2. right. by apply Hsame.
    + rewrite Hb1 by done. rewrite Hb2; [done|]. intros Hin. by apply Hout, Hsame.
Qed.

(** X7: the receivers count as a set. On a registry whose pictures are of
    the context, two calls of [_multiply] that differ only in the order or
    the repetition of additional receivers, all of them existing fields,
    give the same result and leave the same program state. *)
Theorem multiply_receivers_as_set
    (multiplicand : NumberLike) (multiplier : string)
    (additional additional' : list string) (rounded : gset string)
    (self : Program) :
  registry_ok self ->
  (forall x, x ∈ additional -> is_Some (fields self !! x)) ->
  (forall x, x ∈ multiplier :: additional <-> x ∈ multiplier :: additional') ->
  _multiply multiplicand multiplier additional rounded self =
  _multiply multiplicand multiplier additional' rounded self.
Proof.
  intros Hok Hadd Hsame.
  destruct (_resolve_value self multiplicand) as [mv|e0] eqn:Hmv.
  2:{ unfold _multiply. by rewrite Hmv. }
  destruct (fields self !! multiplier) as [f0|] eqn:Hf0.
  2:{ unfold _multiply, get_field. rewrite Hmv. cbn [obind]. by rewrite Hf0. }
  assert (Hadd' : forall x, x ∈ additional' -> is_Some (fields self !! x)).
  { intros x Hx. assert (Hin : x ∈ multiplier :: additional) by (apply Hsame; by right).
    apply elem_of_cons in Hin as [->|Hin]; [by eexists|by apply Hadd]. }
  destruct (take_snapshots_returns self (multiplier :: additional) ∅) as [S HS].
  { intros k Hk. apply elem_of_cons in Hk as [->|Hk]; [by eexists|by apply Hadd]. }
  destruct (take_snapshots_returns self (multiplier :: additional') ∅) as [S' HS'].
  { intros k Hk. apply elem_of_cons in Hk as [->|Hk]; [by eexists|by apply Hadd']. }
  assert (S' = S) as ->.
  { apply map_eq. intros k.
    rewrite (take_snapshots_lookup _ _ _ HS), (take_snapshots_lookup _ _ _ HS').
    destruct (decide (k ∈ multiplier :: additional)) as [Hin|Hout];
      destruct (decide (k ∈ multiplier :: additional')) as [Hin'|Hout']; try done.
    - by apply Hsame in Hin.
    - by apply Hsame in Hin'. }
  unfold _multiply, get_field. rewrite Hmv. cbn [obind]. rewrite Hf0.
  cbn [obind]. rewrite HS, HS'. cbn [obind]. unfold clone_value.
  destruct (Decimal_mul mv (value f0)) as [p|e0] eqn:Hp; [|done]. cbn [obind].
  pose proof (Decimal_mul_not_snan _ _ _ Hp) as Hsn.
  destruct (is_nan p) eqn:Hnan.
  - destruct p as [| |s [|]]; [done|done|done|].
    by rewrite !(store_loop_nan S rounded s multiplier _ self f0 Hf0 (Hok _ _ Hf0)).
  - pose proof (take_snapshots_snapshot_of _ _ _ HS) as Hsnap.
    apply take_snapshots_spec in HS as (Hn & _ & _).
    apply store_loop_same_elements; try done.
    intros k f Hf. apply set_product_returns; [by apply (Hok k)|].
    by rewrite Hnan.
Qed.

Lemma multiply_receivers_as_set_witness :
  _multiply (NL_str "0.5") "WRK_DS_02V00" ["WRK_DS_05V00"; "WRK_DS_10V00"]%string
    {["WRK_DS_05V00"%string]} initial_program =
  _multiply (NL_str "0.5") "WRK_DS_02V00"
    ["WRK_DS_10V00"; "WRK_DS_02V00"; "WRK_DS_05V00"; "WRK_DS_10V00"]%string
    {["WRK_DS_05V00"%string]} initial_program.
Proof.
  apply (multiply_receivers_as_set (NL_str "0.5") "WRK_DS_02V00"
           ["WRK_DS_05V00"; "WRK_DS_10V00"]%string
           ["WRK_DS_10V00"; "WRK_DS_02V00"; "WRK_DS_05V00"; "WRK_DS_10V00"]%string
           {["WRK_DS_05V00"%string]} initial_program initial_program_ok).
  - intros x Hx. apply elem_of_cons in Hx as [->|Hx]; [vm_compute; by eexists|].
    apply list_elem_of_singleton in Hx as ->. vm_compute. by eexists.
  - intros x. rewrite !elem_of_cons, !elem_of_nil. tauto.
Defined.

(* ===================================================================== *)
(** ** [set] and [_multiply] against exact arithmetic *)
(* ===================================================================== *)

Lemma spec_fits_comp (f : Field) (x y : Q) :
  (x == y)%Q -> spec_fits f x -> spec_fits f y.
Proof.
  intros E (H1 & H2 & H3). unfold spec_fits. rewrite <- E. done.
Qed.

Lemma wide_not_fits (f : Field) (s : bool) (c : N) (e : Z) :
  (10 ^ digits_left f <= inject_Z (Z.of_N c) * 10 ^ e)%Q ->
  ~ spec_fits f (to_Q (Fin s c e)).
Proof.
  intros H (_ & H2 & H3). rewrite to_Q_signed in H2, H3.
  destruct s; lra.
Qed.

(** A coefficient of more than [prec] digits at exponent [-digits_right]
    is too wide for a picture of at most [prec] digits. *)
Lemma many_digits_wide (c : N) (dl dr : Z) :
  0 <= dl -> 0 <= dr -> dl + dr <= prec -> prec < ndigits c ->
  (10 ^ dl <= inject_Z (Z.of_N c) * 10 ^ (- dr))%Q.
Proof.
  intros Hdl Hdr Hp Hn.
  assert (Hc : (0 < c)%N).
  { destruct (N.eq_dec c 0%N) as [->|]; [|lia].
    change (ndigits 0) with 1 in Hn. unfold prec in Hn. lia. }
  destruct (ndigits_bounds c Hc) as (_ & Hlo & _).
  assert (H1 : 10 ^ (dl + dr) <= Z.of_N c).
  { etransitivity; [|exact Hlo]. apply Z.pow_le_mono_r; lia. }
  apply (proj1 (ZQ_le _ _)) in H1. rewrite ten_Z in H1 by lia.
  rewrite ten_add in H1.
  apply (shift_le _ _ (- dr)) in H1.
  assert (E : (10 ^ dl * 10 ^ dr * 10 ^ (- dr) == 10 ^ dl)%Q).
  { rewrite <- Qmult_assoc, <- ten_add. replace (dr + - dr) with 0 by lia.
    change (10 ^ 0)%Q with 1%Q. ring. }
  by rewrite E in H1.
Qed.

(** A number of magnitude at least [10^digits_left] stays that wide when
    it is cut or rounded to [digits_right] fractional digits. *)
Lemma wide_quantized (rounded : bool) (c : N) (e dl dr : Z) :
  0 <= dl -> 0 <= dr ->
  (10 ^ dl <= inject_Z (Z.of_N c) * 10 ^ e)%Q ->
  (10 ^ dl <=
   inject_Z (Z.of_N (rescale_coeff (if rounded then ROUND_HALF_UP else ROUND_DOWN)
                       c e (- dr))) * 10 ^ (- dr))%Q.
Proof.
  intros Hdl Hdr H.
  assert (H1 : 10 ^ (dl + dr) <=
               Z.of_N (rescale_coeff (if rounded then ROUND_HALF_UP else ROUND_DOWN)
                         c e (- dr))).
  { apply rescale_coeff_lower. rewrite ten_Z by lia. rewrite ten_add.
    replace (e - - dr) with (e + dr) by lia. rewrite (ten_add e dr).
    rewrite Qmult_assoc. by apply shift_le. }
  apply (proj1 (ZQ_le _ _)) in H1. rewrite ten_Z in H1 by lia.
  rewrite ten_add in H1.
  apply (shift_le _ _ (- dr)) in H1.
  assert (E : (10 ^ dl * 10 ^ dr * 10 ^ (- dr) == 10 ^ dl)%Q).
  { rewrite <- Qmult_assoc, <- ten_add. replace (dr + - dr) with 0 by lia.
    change (10 ^ 0)%Q with 1%Q. ring. }
  by rewrite E in H1.
Qed.

(** [_quantize] on a picture of the context, with its checks spelled out. *)
Lemma _quantize_eq (f : Field) (s : bool) (c : N) (e : Z) (rounded : bool) :
  0 <= digits_right f <= - Etiny ->
  _quantize f (Fin s c e) rounded =
  Decimal_quantize (Fin s c e) (Fin false 1 (- digits_right f))
    (if rounded then ROUND_HALF_UP else ROUND_DOWN).
Proof.
  intros Hdr. unfold _quantize. rewrite Decimal_one_scaleb_eq.
  destruct (negb _) eqn:E1.
  { apply negb_true_iff, andb_false_iff in E1 as [E1|E1];
      [apply Z.leb_gt in E1|apply Z.leb_gt in E1]; ctx_lia. }
  destruct (Emax <? - digits_right f) eqn:E2.
  { apply Z.ltb_lt in E2. ctx_lia. }
  cbn [obind].
  destruct (Etiny <=? - digits_right f) eqn:E3.
  2:{ apply Z.leb_gt in E3. lia. }
  rewrite Z.max_l by lia. by destruct rounded.
Qed.

(** What [set] does with a finite number on a picture of at most [prec]
    digits: it stores the number quantized to [digits_right] digits when
    that fits the width and sign, and reports a size error otherwise. *)
Lemma set_finite_by_spec (f : Field) (s : bool) (c : N) (e : Z) (rounded : bool) :
  0 <= digits_left f -> 0 <= digits_right f ->
  digits_left f + digits_right f <= prec ->
  let y := spec_quantize (to_Q (Fin s c e)) (digits_right f) rounded in
  (spec_fits f y /\
   exists s' c',
     set f (NL_Decimal (Fin s c e)) rounded =
       (Returns true, with_value f (Fin s' c' (- digits_right f))) /\
     (to_Q (Fin s' c' (- digits_right f)) == y)%Q) \/
  (~ spec_fits f y /\
   set f (NL_Decimal (Fin s c e)) rounded = (Returns false, f)).
Proof.
  intros Hdl Hdr Hp y.
  set (mode := if rounded then ROUND_HALF_UP else ROUND_DOWN).
  set (c' := rescale_coeff mode c e (- digits_right f)).
  assert (Hy : (to_Q (Fin s c' (- digits_right f)) == y)%Q).
  { unfold c', mode, y. rewrite quantized_value. by rewrite Z.opp_involutive. }
  assert (Hpic : 0 <= digits_right f <= - Etiny) by ctx_lia.
  assert (Hdlr : Etiny <= digits_left f <= Emax) by ctx_lia.
  destruct (_quantize f (Fin s c e) rounded) as [q|ex] eqn:Hq.
  - pose proof Hq as Hq0. apply _quantize_finite in Hq0 as (-> & _ & _ & _).
    rewrite Z.max_l in Hq by ctx_lia.
    fold mode in Hq |- *. fold c' in Hq |- *.
    destruct (_fits_spec f s c' (- digits_right f) Hdlr) as (b & Hb & Hiff).
    pose proof (set_quantized _ _ _ _ _ Hq Hb) as Hset.
    destruct b.
    + left. split; [apply (spec_fits_comp _ _ _ Hy); by apply Hiff|].
      by exists s, c'.
    + right. split; [|done]. intros Hfit.
      apply (spec_fits_comp _ _ _ (Qeq_sym _ _ Hy)) in Hfit. apply Hiff in Hfit. done.
  - right.
    assert (ex = InvalidOperation) as ->.
    { apply _quantize_raises in Hq as [->|[_ Hbad]]; [done|ctx_lia]. }
    split; [|by apply set_quantize_invalid].
    intros Hfit. apply (spec_fits_comp _ _ _ (Qeq_sym _ _ Hy)) in Hfit.
    revert Hfit. apply wide_not_fits.
    rewrite (_quantize_eq _ _ _ _ _ Hpic) in Hq. fold mode in Hq.
    destruct (N.eq_dec c 0%N) as [->|Hc].
    { rewrite Decimal_quantize_succeeds in Hq; [done|ctx_lia|done]. }
    assert (Hc0 : (0 < c)%N) by lia.
    destruct (Z_le_gt_dec (digits_left f) (adjusted c e)) as [Hwide|Hnarrow].
    + apply wide_quantized; [done|done|].
      apply Qle_trans with (10 ^ adjusted c e)%Q; [by apply ten_le|].
      apply (magnitude_bounds c e Hc0).
    + destruct (Z_le_gt_dec (ndigits c') prec) as [Hfew|Hmany].
      * rewrite Decimal_quantize_succeeds in Hq; [done|ctx_lia|].
        intros _. fold c'. unfold adjusted in *. ctx_lia.
      * apply many_digits_wide; try done. lia.
Qed.

Lemma spec_quantize_comp (x y : Q) (digits : Z) (rounded : bool) :
  (x == y)%Q -> (spec_quantize x digits rounded == spec_quantize y digits rounded)%Q.
Proof.
  intros E. unfold spec_quantize.
  assert (E' : (x * 10 ^ digits == y * 10 ^ digits)%Q) by (by rewrite E).
  destruct rounded; [rewrite (half_up_comp _ _ E')|rewrite (toward_zero_comp _ _ E')];
    reflexivity.
Qed.

Lemma picture_in_precision_ok (f : Field) : picture_in_precision f -> picture_ok f.
Proof. intros (H1 & H2 & H3). unfold picture_ok. ctx_lia. Qed.

(** A receiver accepts a finite product exactly when it has room for the
    number the product denotes. *)
Lemma receiver_accepts_by_spec (fs : gmap string Field) (rounded : gset string)
    (s : bool) (c : N) (e : Z) (x : Q) (key : string) (f : Field) :
  fs !! key = Some f -> picture_in_precision f ->
  (to_Q (Fin s c e) == x)%Q ->
  receiver_accepts fs rounded (Fin s c e) key = true <-> has_room fs rounded x key.
Proof.
  intros Hf (Hdl & Hdr & Hp) Hx.
  rewrite (receiver_accepts_true _ _ _ _ _ Hf). unfold has_room. rewrite Hf.
  destruct (set_finite_by_spec f s c e (bool_decide (key ∈ rounded)) Hdl Hdr Hp)
    as [(Hfit & s' & c' & Hset & _)|(Hno & Hset)]; rewrite Hset; cbn [fst].
  - split; [intros _|done].
    apply (spec_fits_comp _ _ _ (spec_quantize_comp _ _ _ _ Hx) Hfit).
  - split; [done|]. intros Hfit. exfalso. apply Hno.
    apply (spec_fits_comp _ _ _ (spec_quantize_comp _ _ _ _ (Qeq_sym _ _ Hx)) Hfit).
Qed.

Lemma forallb_elem_of {A : Type} (P : A -> bool) (l : list A) :
  forallb P l = true <-> forall x, x ∈ l -> P x = true.
Proof.
  rewrite forallb_forall. split; intros H x Hx; apply H; by apply list_elem_of_In.
Qed.

(** [_multiply] in terms of the number [x] its product denotes: a size
    error exactly when some receiver has no room for [x]; otherwise every
    receiver holds [x] quantized to its own digits. *)
Lemma _multiply_by_spec (multiplicand : NumberLike) (multiplier : string)
    (additional : list string) (rounded : gset string) (self : Program)
    (mv : Decimal) (f0 : Field) (s : bool) (c : N) (e : Z) (x : Q) :
  registry_in_precision self ->
  _resolve_value self multiplicand = Returns mv ->
  fields self !! multiplier = Some f0 ->
  (forall k, k ∈ additional -> is_Some (fields self !! k)) ->
  Decimal_mul mv (value f0) = Returns (Fin s c e) ->
  (to_Q (Fin s c e) == x)%Q ->
  exists b self',
    _multiply multiplicand multiplier additional rounded self = (Returns b, self') /\
    (b = false <->
     forall key, key ∈ multiplier :: additional -> has_room (fields self) rounded x key) /\
    (b = true -> self' = self) /\
    (b = false ->
     (forall key, key ∈ multiplier :: additional ->
        exists f s' c',
          fields self !! key = Some f /\
          fields self' !! key = Some (with_value f (Fin s' c' (- digits_right f))) /\
          (to_Q (Fin s' c' (- digits_right f)) ==
           spec_quantize x (digits_right f) (bool_decide (key ∈ rounded)))%Q) /\
     (forall key, key ∉ multiplier :: additional ->
        fields self' !! key = fields self !! key)).
Proof.
  intros Hok Hmv Hf0 Hadd Hp Hx.
  destruct (_multiply_runs_loop _ _ _ rounded _ _ _ _ Hmv Hf0 Hadd Hp) as (S & HS & Hrun).
  pose proof (take_snapshots_snapshot_of _ _ _ HS) as Hsnap.
  pose proof HS as HS0. apply take_snapshots_spec in HS0 as (Hn & _ & _).
  assert (Hex : forall k, k ∈ multiplier :: additional -> is_Some (fields self !! k)).
  { intros k Hk. apply elem_of_cons in Hk as [->|Hk]; [by eexists|by apply Hadd]. }
  pose proof (store_loop_flag S rounded (Fin s c e) (fields self) _ Hsnap
                (fun k f _ Hf => set_product_returns f (Fin s c e) _
                   (picture_in_precision_ok _ (Hok k f Hf)) eq_refl)
                self (touched_refl _ _) Hn) as Hflag.
  destruct (store_loop S rounded (Fin s c e) (multiplier :: additional) self)
    as [r self'] eqn:Hloop.
  cbn [fst] in Hflag. subst r.
  set (b := negb (forallb (receiver_accepts (fields self) rounded (Fin s c e))
                    (multiplier :: additional))) in *.
  exists b, self'. split; [by rewrite Hrun|].
  split; [|split].
  - unfold b. rewrite negb_false_iff, forallb_elem_of.
    split; intros H key Hk; destruct (Hex key Hk) as [f Hf];
      apply (receiver_accepts_by_spec _ _ _ _ _ _ _ _ Hf (Hok _ _ Hf) Hx); by apply H.
  - intros Hb. rewrite Hb in Hloop.
    by destruct (store_loop_touched S rounded _ self _ Hsnap self self' _
                   eq_refl (touched_refl _ _) Hn Hloop) as (_ & _ & ->).
  - intros Hb. rewrite Hb in Hloop.
    destruct (store_loop_success S rounded _ (fields self) _ self self'
                (fun _ => False) (touched_refl _ _) Hn ltac:(done) Hloop) as [Ha Hb'].
    split; [|exact Hb'].
    intros key Hk. destruct (Ha key (or_intror Hk)) as (f & q & Hf & Hq & Hfit & Hf').
    destruct (Hok _ _ Hf) as (Hdl & Hdr & Hpr).
    destruct (_quantize_spec _ _ _ _ Hq eq_refl ltac:(ctx_lia)) as ((s' & c' & ->) & Hval).
    exists f, s', c'. split; [done|]. split; [done|].
    rewrite Hval. by apply spec_quantize_comp.
Qed.

(* ===================================================================== *)
(** ** Invariants of the fields of a run *)
(* ===================================================================== *)

Section FieldInvariant.
Variable P : Field -> Prop.
Hypothesis P_set :
  forall (f f' : Field) (raw : NumberLike) (rounded : bool) (r : outcome bool),
    P f -> set f raw rounded = (r, f') -> P f'.

Lemma insert_preserves (fs : gmap string Field) (key : string) (f : Field) :
  (forall k g, fs !! k = Some g -> P g) -> P f ->
  forall k g, <[key := f]> fs !! k = Some g -> P g.
Proof.
  intros Hfs Hf k g. destruct (decide (key = k)) as [->|Hne].
  - rewrite lookup_insert_eq. by intros [= <-].
  - rewrite lookup_insert_ne by done. apply Hfs.
Qed.

Lemma set_field_preserves (key : string) (raw : NumberLike) (rounded : bool)
    (self : Program) :
  (forall k g, fields self !! k = Some g -> P g) ->
  forall k g, fields (snd (set_field key raw rounded self)) !! k = Some g -> P g.
Proof.
  intros Hself. unfold set_field, get_field.
  destruct (fields self !! key) as [f|] eqn:Hf; [|done].
  destruct (set f raw rounded) as [r f'] eqn:Hset. cbn [snd with_fields fields].
  apply insert_preserves; [done|].
  apply (P_set f f' raw rounded r); [by apply (Hself key)|done].
Qed.

Lemma store_loop_preserves (S : gmap string Decimal) (rounded : gset string)
    (product : Decimal) (self0 : Program) (names : list string) :
  snapshot_of S (fields self0) ->
  (forall k g, fields self0 !! k = Some g -> P g) ->
  forall (self self' : Program) (r : outcome bool),
    touched S (fields self0) (fields self) ->
    (forall k, k ∈ names -> is_Some (S !! k)) ->
    (forall k g, fields self !! k = Some g -> P g) ->
    store_loop S rounded product names self = (r, self') ->
    forall k g, fields self' !! k = Some g -> P g.
Proof.
  intros HS H0. induction names as [|key rest IH]; intros self self' r Ht Hn Hself H.
  - simpl in H. by inversion H; subst.
  - simpl in H. unfold get_field in H.
    destruct (fields self !! key) as [field|] eqn:Hfield.
    2:{ by inversion H; subst. }
    destruct (set field (NL_Decimal product) (bool_decide (key ∈ rounded)))
      as [r1 field'] eqn:Hset.
    assert (HSkey : is_Some (S !! key)) by (apply Hn; by left).
    pose proof (touched_set _ _ _ _ _ _ _ _ _ Ht Hfield HSkey Hset) as Ht'.
    assert (Hself' : forall k g,
              fields (with_fields self (<[key := field']> (fields self))) !! k = Some g ->
              P g).
    { cbn [with_fields fields]. apply insert_preserves; [done|].
      apply (P_set _ _ _ _ _ (Hself key field Hfield) Hset). }
    destruct r1 as [[|]|e].
    + apply (IH (with_fields self (<[key := field']> (fields self))) self' r);
        [exact Ht'| |exact Hself'|exact H].
      intros k Hk. apply Hn. by right.
    + simpl in H. rewrite (restore_touched S _ _ HS Ht') in H.
      inversion H; subst. intros k g. cbn [with_fields fields]. apply H0.
    + by inversion H; subst.
Qed.

Lemma _multiply_preserves (multiplicand : NumberLike) (multiplier : string)
    (additional : list string) (rounded : gset string) (self : Program) :
  (forall k g, fields self !! k = Some g -> P g) ->
  forall k g,
    fields (snd (_multiply multiplicand multiplier additional rounded self)) !! k
      = Some g -> P g.
Proof.
  intros Hself.
  destruct (_multiply multiplicand multiplier additional rounded self)
    as [r self'] eqn:H. cbn [snd].
  apply _multiply_inv in H as [(e & _ & ->)|(mv & f0 & S & p & _ & _ & HS & _ & H)];
    [done|].
  pose proof (take_snapshots_snapshot_of _ _ _ HS) as Hsnap.
  apply take_snapshots_spec in HS as (Hn & _ & _).
  by apply (store_loop_preserves S rounded p self _ Hsnap Hself self self' r
              (touched_refl _ _) Hn Hself).
Qed.

Lemma reachable_preserves :
  (forall k g, fields initial_program !! k = Some g -> P g) ->
  forall self, reachable self ->
  forall k g, fields self !! k = Some g -> P g.
Proof.
  intros Hinit self Hreach. induction Hreach as [|self c _ IH]; [done|].
  destruct c as [key raw rounded|multiplicand multiplier additional rounded];
    cbn [run].
  - by apply set_field_preserves.
  - by apply _multiply_preserves.
Qed.
End FieldInvariant.

Lemma set_kept (f f' : Field) (raw : NumberLike) (rounded : bool)
    (r : outcome bool) :
  kept f -> set f raw rounded = (r, f') -> kept f'.
Proof.
  intros Hf H. destruct (decide (r = Returns true)) as [->|Hr].
  - destruct Hf as [Hpic _].
    apply set_true_inv in H as (d & q & _ & Hq & Hfit & ->).
    split; [done|]. cbn [with_value value].
    apply _fits_true_inv in Hfit as (Hfin & _ & _).
    pose proof (_quantize_returns_finite _ _ _ _ Hq Hfin) as Hd.
    destruct d as [s c e| |]; [|done|done].
    apply _quantize_finite in Hq as (-> & Ht & Hnd & _).
    cbn [in_context]. rewrite !andb_true_iff, !Z.leb_le. lia.
  - by rewrite (set_unchanged _ _ _ _ _ H Hr).
Qed.

Lemma initial_program_kept :
  forall k g, fields initial_program !! k = Some g -> at_rest g /\ kept g.
Proof.
  assert (H : map_Forall
                (fun _ f => bool_decide (0 <= digits_left f /\ 0 <= digits_right f /\
                                         digits_left f + digits_right f <= prec) = true /\
                            in_context (value f) = true)
                (fields initial_program)).
  { apply (bool_decide_unpack _). vm_compute. exact I. }
  intros key f Hf. split; [by apply (initial_program_at_rest key)|].
  apply (H key) in Hf as [Hf1 Hf2]. split; [|done].
  by apply bool_decide_eq_true_1 in Hf1.
Qed.

(** Every field of a run is at rest, has a picture of at most [prec]
    digits and holds a number of the context. *)
Lemma reachable_kept (self : Program) :
  reachable self ->
  forall k g, fields self !! k = Some g -> at_rest g /\ kept g.
Proof.
  apply (reachable_preserves (fun g => at_rest g /\ kept g)).
  - intros f f' raw rounded r [H1 H2] Hset. split.
    + by apply (set_at_rest f f' raw rounded r).
    + by apply (set_kept f f' raw rounded r).
  - apply initial_program_kept.
Qed.

Lemma toward_zero_int (n : Z) : toward_zero (inject_Z n) = n.
Proof.
  unfold toward_zero. destruct (Qle_bool 0 (inject_Z n)).
  - apply Qfloor_Z.
  - apply Qceiling_Z.
Qed.

Lemma half_up_int (n : Z) : half_up (inject_Z n) = n.
Proof.
  unfold half_up. destruct (Qle_bool 0 (inject_Z n)).
  - apply Qfloor_half_int.
  - unfold Qceiling.
    assert (E : (- (inject_Z n - (1#2)) == inject_Z (- n) + (1#2))%Q).
    { rewrite inject_Z_opp. ring. }
    rewrite (Qfloor_comp _ _ E), Qfloor_half_int. lia.
Qed.

(** Quantizing a whole number of units changes nothing. *)
Lemma spec_quantize_multiple (x : Q) (digits n : Z) (rounded : bool) :
  (x == inject_Z n * 10 ^ (- digits))%Q ->
  (spec_quantize x digits rounded == x)%Q.
Proof.
  intros Hx. unfold spec_quantize.
  assert (E : (x * 10 ^ digits == inject_Z n)%Q).
  { rewrite Hx, <- Qmult_assoc, <- ten_add.
    replace (- digits + digits) with 0 by lia. change (10 ^ 0)%Q with 1%Q. ring. }
  destruct rounded.
  - rewrite (half_up_comp _ _ E), half_up_int. by rewrite Hx.
  - rewrite (toward_zero_comp _ _ E), toward_zero_int. by rewrite Hx.
Qed.

Lemma fix_finite_returns (s : bool) (c : N) (e : Z) (p : Decimal) :
  fix_finite s c e = Returns p -> exists c' e', p = Fin s c' e'.
Proof.
  unfold fix_finite. intros H.
  repeat match type of H with
         | context [if ?b then _ else _] => destruct b
         | context [let '(_, _) := ?x in _] => destruct x
         end; try done; inversion H; subst; by eexists _, _.
Qed.

(** X8: rounding fewer receivers cannot bring a size error. On a registry
    whose pictures are of the context, if [_multiply] stores its product
    without a size error, the same call with a smaller set of rounded
    receivers reports no size error either. *)
Theorem multiply_fewer_rounded_still_succeeds
    (multiplicand : NumberLike) (multiplier : string)
    (additional : list string) (rounded rounded' : gset string)
    (self self' : Program) :
  registry_ok self ->
  rounded' ⊆ rounded ->
  _multiply multiplicand multiplier additional rounded self = (Returns false, self') ->
  fst (_multiply multiplicand multiplier additional rounded' self) = Returns false.
Proof.
  intros Hok Hsub H.
  apply _multiply_success in H as (mv & f0 & p & Hmv & Hf0 & Hp & Hst & _).
  assert (Hadd : forall x, x ∈ additional -> is_Some (fields self !! x)).
  { intros x Hx. destruct (Hst x) as (f & _ & Hf & _); [by right|by eexists]. }
  assert (Hfin : is_finite p = true).
  { destruct (Hst multiplier) as (f & q & _ & Hq & Hfit & _); [by left|].
    apply _fits_true_inv in Hfit as (Hfin & _).
    apply (_quantize_returns_finite _ _ _ _ Hq Hfin). }
  destruct (_multiply_runs_loop _ _ _ rounded' _ _ _ _ Hmv Hf0 Hadd Hp) as (S & HS & ->).
  pose proof (take_snapshots_snapshot_of _ _ _ HS) as Hsnap.
  apply take_snapshots_spec in HS as (Hn & _ & _).
  rewrite (store_loop_flag S rounded' p (fields self) _ Hsnap).
  - f_equal. apply negb_false_iff, forallb_elem_of. intros key Hk.
    destruct (Hst key Hk) as (f & q & Hf & Hq & Hfit & _).
    unfold receiver_accepts. rewrite Hf.
    assert (Hacc : accepts f p (bool_decide (key ∈ rounded)) = true).
    { unfold accepts. by rewrite (set_quantized _ _ _ _ _ Hq Hfit). }
    destruct (decide (key ∈ rounded')) as [Hin|Hout].
    + rewrite bool_decide_eq_true_2 by done.
      rewrite bool_decide_eq_true_2 in Hacc; [done|]. by apply Hsub.
    + rewrite bool_decide_eq_false_2 by done.
      destruct (bool_decide (key ∈ rounded)); [|done].
      by apply accepts_rounded_then_truncated.
  - intros k f Hk Hf. apply set_product_returns; [by apply (Hok k)|].
    by destruct p.
  - apply touched_refl.
  - exact Hn.
Qed.

Lemma multiply_fewer_rounded_still_succeeds_witness :
  fst (_multiply (NL_str "0.5") "WRK_DS_02V00" ["WRK_DS_05V00"]%string ∅
         initial_program) = Returns false.
Proof.
  pose proof initial_program_ok as Hok.
  apply (multiply_fewer_rounded_still_succeeds (NL_str "0.5") "WRK_DS_02V00"
           ["WRK_DS_05V00"]%string {["WRK_DS_05V00"%string]} ∅ initial_program
           (snd (_multiply (NL_str "0.5") "WRK_DS_02V00" ["WRK_DS_05V00"]%string
                   {["WRK_DS_05V00"%string]} initial_program)) Hok).
  - apply empty_subseteq.
  - vm_compute. reflexivity.
Defined.

(** X9: what [set] does with a number, in full. On a picture of at most
    [prec] digits, [set] of a finite number [x] is decided by the number
    [y] that [x] becomes when cut (or rounded half-up, with
    [rounded = True]) to [digits_right] fractional digits: when [y] lies
    within the width and sign of the field, [set] returns [True] and the
    field holds a decimal of exponent [-digits_right] that denotes [y];
    otherwise [set] returns [False] and the field is as it was. *)
Theorem set_stores_quantized_or_rejects (f : Field) (raw : NumberLike)
    (rounded : bool) (s : bool) (c : N) (e : Z) :
  Decimal_of_NumberLike raw = Returns (Fin s c e) ->
  picture_in_precision f ->
  let y := spec_quantize (to_Q (Fin s c e)) (digits_right f) rounded in
  (spec_fits f y ->
   exists s' c',
     set f raw rounded = (Returns true, with_value f (Fin s' c' (- digits_right f))) /\
     (to_Q (Fin s' c' (- digits_right f)) == y)%Q) /\
  (~ spec_fits f y -> set f raw rounded = (Returns false, f)).
Proof.
  intros Hraw (Hdl & Hdr & Hp) y. rewrite (set_raw _ _ _ _ Hraw).
  destruct (set_finite_by_spec f s c e rounded Hdl Hdr Hp)
    as [(Hfit & Hset)|(Hno & Hset)]; fold y in Hfit, Hset || fold y in Hno.
  - split; [by intros _|]. intros Hno. by destruct Hno.
  - split; [|done]. intros Hfit. by destruct Hno.
Qed.

Lemma set_stores_quantized_or_rejects_witness :
  let f := mkField "WRK_DU_2V0_1" 2 0 false (Fin false 99 0) in
  let y := spec_quantize (to_Q (Fin false 995 (-1))) 0 true in
  (spec_fits f y ->
   exists s' c',
     set f (NL_str "99.5") true = (Returns true, with_value f (Fin s' c' (- 0))) /\
     (to_Q (Fin s' c' (- 0)) == y)%Q) /\
  (~ spec_fits f y -> set f (NL_str "99.5") true = (Returns false, f)).
Proof.
  apply (set_stores_quantized_or_rejects
           (mkField "WRK_DU_2V0_1" 2 0 false (Fin false 99 0)) (NL_str "99.5") true
           false 995 (-1)).
  - vm_compute. reflexivity.
  - unfold picture_in_precision, prec. simpl. lia.
Defined.

Lemma initial_program_in_precision : registry_in_precision initial_program.
Proof. intros k g Hg. by destruct (initial_program_kept k g Hg) as (_ & Hk & _). Qed.

(** X10: what [_multiply] does, in full, when the product is exact. On a
    registry whose pictures have at most [prec] digits, with operands that
    resolve, receivers that exist and a product [x] that the context
    neither rounds nor overflows, [_multiply] returns; it reports a size
    error exactly when some receiver has no room for [x] quantized to its
    own digits, and then the program is as it was; otherwise every receiver
    holds [x] quantized to its own digits, by rounding when its name is in
    the rounded set, and no other field has changed. *)
Theorem multiply_is_product_with_size_check
    (multiplicand : NumberLike) (multiplier : string)
    (additional : list string) (rounded : gset string) (self : Program)
    (mv : Decimal) (f0 : Field) (p : Decimal) :
  registry_in_precision self ->
  _resolve_value self multiplicand = Returns mv ->
  fields self !! multiplier = Some f0 ->
  (forall k, k ∈ additional -> is_Some (fields self !! k)) ->
  Decimal_mul mv (value f0) = Returns p ->
  exact_in_context mv (value f0) ->
  let x := (to_Q mv * to_Q (value f0))%Q in
  exists b self',
    _multiply multiplicand multiplier additional rounded self = (Returns b, self') /\
    (b = false <->
     forall key, key ∈ multiplier :: additional -> has_room (fields self) rounded x key) /\
    (b = true -> self' = self) /\
    (b = false ->
     (forall key, key ∈ multiplier :: additional ->
        exists f s' c',
          fields self !! key = Some f /\
          fields self' !! key = Some (with_value f (Fin s' c' (- digits_right f))) /\
          (to_Q (Fin s' c' (- digits_right f)) ==
           spec_quantize x (digits_right f) (bool_decide (key ∈ rounded)))%Q) /\
     (forall key, key ∉ multiplier :: additional ->
        fields self' !! key = fields self !! key)).
Proof.
  intros Hok Hmv Hf0 Hadd Hp Hex x.
  pose proof (Decimal_mul_exact _ _ _ Hp Hex) as Hx. fold x in Hx.
  assert (Hfin : exists s c e, p = Fin s c e).
  { destruct mv as [s1 c1 e1| |], (value f0) as [s2 c2 e2| |]; try done.
    unfold Decimal_mul in Hp. cbn [check_nans is_snan is_nan orb] in Hp.
    apply fix_finite_returns in Hp as (c' & e' & ->). by eexists _, _, _. }
  destruct Hfin as (s & c & e & ->).
  apply (_multiply_by_spec _ _ _ _ _ _ _ _ _ _ _ Hok Hmv Hf0 Hadd Hp Hx).
Qed.

Lemma multiply_is_product_with_size_check_witness :
  let rounded : gset string := {["WRK_DU_2V0_1"%string]} in
  let x := (to_Q (Fin false 123456 (-1)) * to_Q (Fin false 99 0))%Q in
  exists b self',
    _multiply (NL_str "WRK_DU_5V1_1") "WRK_DU_2V0_1" ["WRK_DU_6V0_1"]%string
      rounded initial_program = (Returns b, self') /\
    (b = false <->
     forall key, key ∈ ["WRK_DU_2V0_1"; "WRK_DU_6V0_1"]%string ->
                 has_room (fields initial_program) rounded x key) /\
    (b = true -> self' = initial_program) /\
    (b = false ->
     (forall key, key ∈ ["WRK_DU_2V0_1"; "WRK_DU_6V0_1"]%string ->
        exists f s' c',
          fields initial_program !! key = Some f /\
          fields self' !! key = Some (with_value f (Fin s' c' (- digits_right f))) /\
          (to_Q (Fin s' c' (- digits_right f)) ==
           spec_quantize x (digits_right f) (bool_decide (key ∈ rounded)))%Q) /\
     (forall key, key ∉ ["WRK_DU_2V0_1"; "WRK_DU_6V0_1"]%string ->
        fields self' !! key = fields initial_program !! key)).
Proof.
  pose proof initial_program_in_precision as Hok.
  apply (multiply_is_product_with_size_check (NL_str "WRK_DU_5V1_1")
           "WRK_DU_2V0_1" ["WRK_DU_6V0_1"]%string {["WRK_DU_2V0_1"%string]}
           initial_program (Fin false 123456 (-1))
           (mkField "WRK_DU_2V0_1" 2 0 false (Fin false 99 0))
           (Fin false 12222144 (-1)) Hok).
  - vm_compute. reflexivity.
  - vm_compute. reflexivity.
  - intros x Hx. apply list_elem_of_singleton in Hx as ->. vm_compute. by eexists.
  - vm_compute. reflexivity.
  - right. split; vm_compute; intros H; discriminate H.
Defined.

(** X11: multiplying by one changes no value. In every state a run reaches
    by calls of [set] and [_multiply], a call of [_multiply] with a
    multiplicand that resolves to [1] and one receiver reports no size
    error, leaves that field with a value that denotes the same number,
    and leaves the other fields alone. *)
Theorem multiply_by_one_changes_no_value
    (multiplicand : NumberLike) (key : string) (rounded : gset string)
    (self : Program) (f : Field) :
  reachable self ->
  fields self !! key = Some f ->
  _resolve_value self multiplicand = Returns (Fin false 1 0) ->
  exists self' v,
    _multiply multiplicand key [] rounded self = (Returns false, self') /\
    fields self' !! key = Some (with_value f v) /\
    is_finite v = true /\
    (to_Q v == to_Q (value f))%Q /\
    (forall k, k <> key -> fields self' !! k = fields self !! k).
Proof.
  intros Hreach Hf Hmv.
  assert (Hok : registry_in_precision self).
  { intros k g Hg. by destruct (reachable_kept self Hreach k g Hg) as (_ & Hk & _). }
  destruct (reachable_kept self Hreach key f Hf)
    as ((Hfin & (n & Hn) & Hfit) & (Hdl & Hdr & Hpr) & Hctx).
  destruct (value f) as [s c e| |] eqn:Hv; [|done|done].
  cbn [in_context] in Hctx. rewrite !andb_true_iff, !Z.leb_le in Hctx.
  destruct Hctx as [[Hnd Helo] Hehi].
  assert (Hp : Decimal_mul (Fin false 1 0) (value f) = Returns (Fin s c e)).
  { rewrite Hv. unfold Decimal_mul. cbn [check_nans is_snan is_nan orb xorb].
    rewrite N.mul_1_l, Z.add_0_l. apply fix_finite_id; [done|done|].
    intros Hc. split; [done|].
    assert (Hlt : adjusted c e < digits_left f).
    { apply adjusted_lt; [lia|]. destruct Hfit as (_ & Hlo & Hhi).
      rewrite to_Q_signed in Hlo, Hhi. destruct s; lra. }
    ctx_lia. }
  destruct (_multiply_by_spec multiplicand key [] rounded self _ f s c e
              (to_Q (Fin s c e)) Hok Hmv Hf) as (b & self' & Hrun & Hb & _ & Hst).
  { intros k Hk. by apply elem_of_nil in Hk. }
  { exact Hp. }
  { reflexivity. }
  assert (b = false) as ->.
  { apply Hb. intros k Hk. apply list_elem_of_singleton in Hk as ->.
    unfold has_room. rewrite Hf.
    apply (spec_fits_comp f (to_Q (Fin s c e))); [|done].
    symmetry. by apply (spec_quantize_multiple _ _ n). }
  destruct (Hst eq_refl) as [Hin Hout].
  destruct (Hin key ltac:(by left)) as (f1 & s' & c' & Hf1 & Hf' & Hval).
  rewrite Hf in Hf1. inversion Hf1; subst f1.
  exists self', (Fin s' c' (- digits_right f)).
  split; [done|]. split; [done|]. split; [done|]. split.
  - rewrite Hval. by apply (spec_quantize_multiple _ _ n).
  - intros k Hk. apply Hout. intros Hin'. by apply list_elem_of_singleton in Hin'.
Qed.

Lemma multiply_by_one_changes_no_value_witness :
  exists self' v,
    _multiply (NL_int 1) "MULT1" [] ∅ initial_program = (Returns false, self') /\
    fields self' !! "MULT1"%string
      = Some (with_value (mkField "MULT1" 3 2 false (Fin false 8012 (-2))) v) /\
    is_finite v = true /\
    (to_Q v == to_Q (Fin false 8012 (-2)))%Q /\
    (forall k, k <> "MULT1"%string ->
               fields self' !! k = fields initial_program !! k).
Proof.
  apply (multiply_by_one_changes_no_value (NL_int 1) "MULT1" ∅ initial_program
           (mkField "MULT1" 3 2 false (Fin false 8012 (-2))) reachable_init).
  - vm_compute. reflexivity.
  - vm_compute. reflexivity.
Defined.

(* ===================================================================== *)
(** ** [_field_equals] compares numbers *)
(* ===================================================================== *)

(** [==] on finite decimals is equality of the numbers they denote. *)
Lemma Decimal_eq_finite (s1 s2 : bool) (c1 c2 : N) (e1 e2 : Z) :
  exists b,
    Decimal_eq (Fin s1 c1 e1) (Fin s2 c2 e2) = Returns b /\
    (b = true <-> (to_Q (Fin s1 c1 e1) == to_Q (Fin s2 c2 e2))%Q).
Proof.
  unfold Decimal_eq. cbn [is_snan is_nan orb Decimal_cmp].
  set (m := Z.min e1 e2).
  set (A := signed_coeff s1 c1 * 10 ^ (e1 - m)).
  set (B := signed_coeff s2 c2 * 10 ^ (e2 - m)).
  eexists. split; [reflexivity|].
  rewrite (to_Q_aligned s1 c1 e1 m), (to_Q_aligned s2 c2 e2 m) by lia.
  fold A B.
  assert (Hm : ~ (10 ^ m == 0)%Q).
  { pose proof (ten_pos m). lra. }
  rewrite (Qmult_inj_r _ _ _ Hm), inject_Z_injective.
  destruct (Z.compare_spec A B); split; intros; try done; lia.
Qed.

(** X12: [_field_equals] compares numbers, not texts. In every state a run
    reaches, for a field that exists and an expected value that resolves:
    when the expected value is a signaling NaN the comparison raises
    [InvalidOperation]; otherwise it returns, and it returns [True]
    exactly when the expected value is a finite number and denotes the
    same number as the value of the field, whatever the digits and the
    exponent either is written with. *)
Theorem field_equals_compares_numbers (self : Program) (name : string)
    (expected : NumberLike) (f : Field) (v : Decimal) :
  reachable self ->
  fields self !! name = Some f ->
  _resolve_value self expected = Returns v ->
  (is_snan v = true ->
   _field_equals self name expected = Raises InvalidOperation) /\
  (is_snan v = false ->
   exists b,
     _field_equals self name expected = Returns b /\
     (b = true <-> is_finite v = true /\ (to_Q (value f) == to_Q v)%Q)).
Proof.
  intros Hreach Hf Hv.
  destruct (reachable_kept self Hreach name f Hf) as ((Hfin & _) & _).
  unfold _field_equals, get_field. rewrite Hf. cbn [obind]. rewrite Hv. cbn [obind].
  destruct (value f) as [s1 c1 e1| |]; [|done|done].
  destruct v as [s2 c2 e2|s2|s2 [|]].
  - split; [done|]. intros _.
    destruct (Decimal_eq_finite s1 s2 c1 c2 e1 e2) as (b & Hb & Hiff).
    exists b. split; [done|]. rewrite Hiff. tauto.
  - split; [done|]. intros _. exists false. split.
    + unfold Decimal_eq. cbn [is_snan is_nan orb Decimal_cmp]. by destruct s2.
    + split; [done|]. by intros [? _].
  - split; [done|]. done.
  - split; [done|]. intros _. exists false. split; [done|].
    split; [done|]. by intros [? _].
Qed.

Lemma field_equals_compares_numbers_witness :
  (is_snan (Fin false 80120 (-3)) = true ->
   _field_equals initial_program "MULT1" (NL_str " 80.120 ") = Raises InvalidOperation) /\
  (is_snan (Fin false 80120 (-3)) = false ->
   exists b,
     _field_equals initial_program "MULT1" (NL_str " 80.120 ") = Returns b /\
     (b = true <-> is_finite (Fin false 80120 (-3)) = true /\
                   (to_Q (value (mkField "MULT1" 3 2 false (Fin false 8012 (-2)))) ==
                    to_Q (Fin false 80120 (-3)))%Q)).
Proof.
  apply (field_equals_compares_numbers initial_program "MULT1" (NL_str " 80.120 ")
           (mkField "MULT1" 3 2 false (Fin false 8012 (-2))) (Fin false 80120 (-3))
           reachable_init).
  - vm_compute. reflexivity.
  - vm_compute. reflexivity.
Defined.

(* ===================================================================== *)
(** ** The report: records of 120 characters *)
(* ===================================================================== *)

Lemma length_append (a b : string) :
  String.length (a +:+ b) = (String.length a + String.length b)%nat.
Proof. induction a as [|c a IH]; [done|]. simpl. by rewrite IH. Qed.

Lemma length_string_of_list_ascii (l : list ascii) :
  String.length (string_of_list_ascii l) = length l.
Proof. induction l as [|c l IH]; [done|]. simpl. by rewrite IH. Qed.

Lemma length_repeat_char (c : ascii) (n : Z) :
  String.length (repeat_char c n) = Z.to_nat n.
Proof.
  unfold repeat_char. by rewrite length_string_of_list_ascii, repeat_length.
Qed.

Lemma length_substring_0 (n : nat) (s : string) :
  String.length (substring 0 n s) = Nat.min n (String.length s).
Proof.
  revert s. induction n as [|n IH]; intros [|c s]; simpl; try done.
  by rewrite IH.
Qed.

Lemma length_ljust (width : Z) (text : string) :
  String.length (ljust width text)
  = Nat.max (Z.to_nat width) (String.length text).
Proof.
  unfold ljust, spaces. rewrite length_append, length_repeat_char. lia.
Qed.

Lemma write_line_lines (text : string) (p : ReportPrinter.t) :
  exists line,
    String.length line = 120%nat /\
    ReportPrinter.lines (ReportPrinter.write_line text p)
      = ReportPrinter.lines p ++ [line] /\
    ReportPrinter.record_count (ReportPrinter.write_line text p)
      = ReportPrinter.record_count p + 1 /\
    ReportPrinter.test_id (ReportPrinter.write_line text p) = ReportPrinter.test_id p.
Proof.
  eexists. split; [|by cbn].
  rewrite length_ljust, length_substring_0. lia.
Qed.

Lemma write_line_ok (text : string) (p : ReportPrinter.t) :
  printer_ok p -> printer_ok (ReportPrinter.write_line text p).
Proof.
  intros [Hl Hc].
  destruct (write_line_lines text p) as (line & Hlen & Hlines & Hcount & _).
  unfold printer_ok. rewrite Hlines, Hcount. split.
  - apply Forall_app. split; [done|]. by apply Forall_singleton.
  - rewrite length_app. cbn. lia.
Qed.

Lemma write_line_prefix (text : string) (p : ReportPrinter.t) :
  ReportPrinter.lines p `prefix_of`
  ReportPrinter.lines (ReportPrinter.write_line text p).
Proof. by eexists. Qed.

Lemma write_line_length (text : string) (p : ReportPrinter.t) :
  length (ReportPrinter.lines (ReportPrinter.write_line text p))
  = S (length (ReportPrinter.lines p)).
Proof. cbn. rewrite length_app. cbn. lia. Qed.

Lemma write_header_ok (p : ReportPrinter.t) :
  printer_ok p -> printer_ok (ReportPrinter.write_header p).
Proof. intros H. unfold ReportPrinter.write_header. by repeat apply write_line_ok. Qed.

Lemma write_footer_line_ok (count : Z) (description : string) (prefix_spaces : Z)
    (p : ReportPrinter.t) :
  printer_ok p ->
  printer_ok (ReportPrinter.write_footer_line count description prefix_spaces p).
Proof. intros H. by apply write_line_ok. Qed.

Lemma write_end_banner_ok (p : ReportPrinter.t) :
  printer_ok p -> printer_ok (ReportPrinter.write_end_banner p).
Proof. intros H. by apply write_line_ok. Qed.

Lemma _print_detail_ok (par_name : string) (self : NC101AProgram) :
  printer_ok (printer self) -> printer_ok (printer (_print_detail par_name self)).
Proof.
  intros H. unfold _print_detail. cbn [with_result with_printer printer].
  destruct (_ && _); by repeat apply write_line_ok.
Qed.

Lemma length_join_records (items : list string) :
  Forall (fun line => String.length line = 120%nat) items ->
  items <> [] ->
  String.length (join (String "010" EmptyString) items +:+ String "010" EmptyString)
  = (121 * length items)%nat.
Proof.
  induction 1 as [|x rest Hx Hrest IH]; [done|]. intros _.
  destruct rest as [|y rest].
  - cbn [join]. rewrite length_append, Hx. reflexivity.
  - specialize (IH ltac:(done)).
    change (join (String "010" EmptyString) (x :: y :: rest))
      with (x +:+ String "010" EmptyString +:+ join (String "010" EmptyString) (y :: rest)).
    rewrite !length_append. rewrite !length_append in IH. simpl in Hx. rewrite Hx.
    change (String.length (String "010" EmptyString)) with 1%nat in *.
    cbn [length] in *. lia.
Qed.


(* ===================================================================== *)
(** ** Results, counters and lines *)
(* ===================================================================== *)

Lemma _format_decimal_nonempty (value : Decimal) :
  truthy (Some (_format_decimal value)) = true.
Proof.
  unfold truthy, _format_decimal.
  destruct (String.eqb (if contains "." (format_f value)
                        then rstrip_char "." (rstrip_char "0" (format_f value))
                        else format_f value) EmptyString) eqn:E; [done|].
  by rewrite E.
Qed.

(** The lines a result takes: three for a failure that has a computed or
    a correct text, one otherwise. *)
Lemma _print_detail_effect (par_name : string) (self : NC101AProgram) :
  let self' := _print_detail par_name self in
  core self' = core self /\
  pass_counter self' = pass_counter self /\
  error_counter self' = error_counter self /\
  delete_counter self' = delete_counter self /\
  inspect_counter self' = inspect_counter self /\
  rec_ct self' = rec_ct self /\
  length (ReportPrinter.lines (printer self'))
  = (length (ReportPrinter.lines (printer self)) +
     if String.eqb (strip (p_or_f self)) "FAIL*" &&
        (truthy (computed_text self) || truthy (correct_text self))
     then 3 else 1)%nat.
Proof.
  unfold _print_detail. cbn [with_result with_printer core pass_counter
    error_counter delete_counter inspect_counter rec_ct printer].
  repeat split.
  destruct (_ && _); rewrite ?write_line_length; lia.
Qed.

Lemma _record_pass_effect (par_name rem : string) (self : NC101AProgram) :
  let self' := _record_pass par_name rem self in
  core self' = core self /\
  pass_counter self' = pass_counter self + 1 /\
  error_counter self' = error_counter self /\
  delete_counter self' = delete_counter self /\
  inspect_counter self' = inspect_counter self /\
  rec_ct self' = rec_ct self /\
  length (ReportPrinter.lines (printer self'))
  = S (length (ReportPrinter.lines (printer self))).
Proof.
  unfold _record_pass. cbv zeta.
  match goal with |- context [_print_detail ?p ?s] =>
    destruct (_print_detail_effect p s) as (H1 & H2 & H3 & H4 & H5 & H6 & H7)
  end.
  rewrite H1, H2, H3, H4, H5, H6, H7.
  cbn [with_result with_counters core pass_counter error_counter delete_counter
       inspect_counter rec_ct printer p_or_f computed_text correct_text].
  change (String.eqb (strip "PASS ") "FAIL*") with false. cbn [andb].
  repeat split. lia.
Qed.

Lemma _record_fail_effect (par_name : string)
    (computed correct : option (string + Decimal)) (rem : string)
    (self : NC101AProgram) :
  let self' := _record_fail par_name computed correct rem self in
  core self' = core self /\
  pass_counter self' = pass_counter self /\
  error_counter self' = error_counter self + 1 /\
  delete_counter self' = delete_counter self /\
  inspect_counter self' = inspect_counter self /\
  rec_ct self' = rec_ct self /\
  length (ReportPrinter.lines (printer self'))
  = (length (ReportPrinter.lines (printer self)) +
     if truthy (_format_value computed) || truthy (_format_value correct)
     then 3 else 1)%nat.
Proof.
  unfold _record_fail. cbv zeta.
  match goal with |- context [_print_detail ?p ?s] =>
    destruct (_print_detail_effect p s) as (H1 & H2 & H3 & H4 & H5 & H6 & H7)
  end.
  rewrite H1, H2, H3, H4, H5, H6, H7.
  cbn [with_result with_counters core pass_counter error_counter delete_counter
       inspect_counter rec_ct printer p_or_f computed_text correct_text].
  change (String.eqb (strip "FAIL*") "FAIL*") with true. cbn [andb].
  repeat split.
Qed.

Lemma evaluate_field_effect (expectation : string * string * NumberLike * string)
    (self self' : NC101AProgram) :
  evaluate_field expectation self = (Returns tt, self') ->
  core self' = core self /\
  pass_counter self' = pass_counter self + (if holds (core self) expectation then 1 else 0) /\
  error_counter self' = error_counter self + (if holds (core self) expectation then 0 else 1) /\
  length (ReportPrinter.lines (printer self'))
  = (length (ReportPrinter.lines (printer self)) +
     if holds (core self) expectation then 1 else 3)%nat.
Proof.
  destruct expectation as [[[par_name field_name] expected] rem].
  unfold evaluate_field, holds.
  destruct (_field_equals (core self) field_name expected) as [[|]|e]; [| |done].
  - intros [= <-].
    destruct (_record_pass_effect par_name EmptyString self)
      as (H1 & H2 & H3 & _ & _ & _ & H7).
    rewrite H1, H2, H3, H7. repeat split; lia.
  - destruct (f <~ get_field (core self) field_name;;
              v <~ _resolve_value (core self) expected;; Returns (value f, v))
      as [[computed correct]|e]; [|done].
    intros [= <-].
    destruct (_record_fail_effect par_name (Some (inr computed)) (Some (inr correct))
                rem self) as (H1 & H2 & H3 & _ & _ & _ & H7).
    rewrite H1, H2, H3, H7. cbn [_format_value]. rewrite _format_decimal_nonempty.
    cbn [orb]. repeat split; lia.
Qed.

(** X13: [_evaluate_fields] gives one result to each expectation. When the
    call returns, the registry is as it was, the pass counter has grown by
    the number of expectations whose field equals the expected value, the
    error counter by the number of the others, and the report by one line
    for each pass and three lines (the result, the computed and the
    correct value) for each failure. *)
Theorem evaluate_fields_counts_each_expectation (base_name : string)
    (expectations : list (string * string * NumberLike * string))
    (self self' : NC101AProgram) :
  _evaluate_fields base_name expectations self = (Returns tt, self') ->
  let passed := length (List.filter (holds (core self)) expectations) in
  let failed := (length expectations - passed)%nat in
  core self' = core self /\
  pass_counter self' = pass_counter self + Z.of_nat passed /\
  error_counter self' = error_counter self + Z.of_nat failed /\
  length (ReportPrinter.lines (printer self'))
  = (length (ReportPrinter.lines (printer self)) + passed + 3 * failed)%nat.
Proof.
  revert self. induction expectations as [|x rest IH]; intros self H.
  - cbn in H. inversion H; subst. cbn. repeat split; lia.
  - cbn [_evaluate_fields] in H.
    destruct (evaluate_field x self) as [[[]|e] self1] eqn:Hx; [|done].
    apply evaluate_field_effect in Hx as (Hc & Hp & He & Hl).
    apply IH in H as (Hc' & Hp' & He' & Hl'). rewrite Hc in *.
    pose proof (List.filter_length_le (holds (core self)) rest) as Hle.
    cbn [List.filter length]. cbn zeta in *.
    destruct (holds (core self) x); cbn [length]; repeat split; try done; lia.
Qed.

Lemma evaluate_fields_counts_each_expectation_witness :
  let expectations :=
    [("MPY-TEST-A"%string, "MULT1"%string, NL_str "80.120", EmptyString);
     ("MPY-TEST-B"%string, "MULT5"%string, NL_int 5, "WRONG"%string)] in
  let self' := snd (_evaluate_fields "MPY-TEST" expectations new_program) in
  let passed := length (List.filter (holds (core new_program)) expectations) in
  let failed := (length expectations - passed)%nat in
  core self' = core new_program /\
  pass_counter self' = pass_counter new_program + Z.of_nat passed /\
  error_counter self' = error_counter new_program + Z.of_nat failed /\
  length (ReportPrinter.lines (printer self'))
  = (length (ReportPrinter.lines (printer new_program)) + passed + 3 * failed)%nat.
Proof.
  apply (evaluate_fields_counts_each_expectation "MPY-TEST"
           [("MPY-TEST-A"%string, "MULT1"%string, NL_str "80.120", EmptyString);
            ("MPY-TEST-B"%string, "MULT5"%string, NL_int 5, "WRONG"%string)]
           new_program).
  vm_compute. reflexivity.
Defined.

(** X14: the first check of [run_case] can fail only when a size error is
    expected. When [run_case] returns, it has stored the starting value,
    multiplied, and counted exactly two results: the second is a pass
    exactly when the field still equals the starting value; the first is
    a pass exactly when [_multiply] reported a size error if
    [expect_size_error] is [True], and a pass whatever [_multiply]
    reported if it is [False]. *)
Theorem run_case_first_check_needs_expected_error
    (par_prefix : string) (multiplicand : NumberLike)
    (multiplier_field : string) (expect_size_error : bool)
    (on_size_value : string) (starting_value : NumberLike)
    (self self' : NC101AProgram) :
  run_case par_prefix multiplicand multiplier_field expect_size_error
    on_size_value starting_value self = (Returns tt, self') ->
  let arithmetic :=
    _multiply multiplicand multiplier_field [] ∅
      (snd (set_field multiplier_field starting_value false (core self))) in
  exists size_error unchanged : bool,
    fst arithmetic = Returns size_error /\
    core self' = snd arithmetic /\
    _field_equals (core self') multiplier_field starting_value = Returns unchanged /\
    let first := if expect_size_error then size_error else true in
    pass_counter self' =
      pass_counter self + (if first then 1 else 0) + (if unchanged then 1 else 0) /\
    error_counter self' =
      error_counter self + (if first then 0 else 1) + (if unchanged then 0 else 1) /\
    rec_ct self' = 0.
Proof.
  unfold run_case.
  destruct (set_field multiplier_field starting_value false
              (core (with_rec_ct self 1))) as [[r1|e1] c1] eqn:Hset; [|done].
  cbn [with_rec_ct core] in Hset. rewrite Hset. cbn [snd].
  cbn [with_wrk_xn with_core with_rec_ct core].
  destruct (_multiply multiplicand multiplier_field [] ∅ c1)
    as [[size_error|e2] c2] eqn:Hmul; [|done].
  cbn [with_wrk_xn with_core with_rec_ct core wrk_xn fst snd].
  set (first := if expect_size_error then size_error else true).
  match goal with
  | |- context [if ?b then _record_pass ?a ?r ?s else ?f] =>
      assert (Hb : b = first); [|rewrite Hb]
  end.
  { unfold first. destruct expect_size_error, size_error; try done;
      apply String.eqb_refl. }
  cbv zeta.
  match goal with
  | |- context [_field_equals (core ?X) _ _] => set (self1 := X)
  end.
  assert (H1 : core self1 = c2 /\
               pass_counter self1 = pass_counter self + (if first then 1 else 0) /\
               error_counter self1 = error_counter self + (if first then 0 else 1)).
  { unfold self1. destruct first.
    - match goal with |- context [_record_pass ?a ?r ?s] =>
        destruct (_record_pass_effect a r s) as (H1 & H2 & H3 & _) end.
      rewrite H1, H2, H3. cbn. repeat split; lia.
    - match goal with |- context [_record_fail ?a ?x ?y ?r ?s] =>
        destruct (_record_fail_effect a x y r s) as (H1 & H2 & H3 & _) end.
      rewrite H1, H2, H3. cbn. repeat split; lia. }
  clearbody self1. destruct H1 as (Hc1 & Hp1 & He1).
  cbv zeta. cbn [with_rec_ct core]. rewrite Hc1.
  destruct (_field_equals c2 multiplier_field starting_value) as [[|]|e3] eqn:Heq;
    [| |done].
  - intros [= <-]. exists size_error, true.
    destruct (_record_pass_effect (par_prefix +:+ "-2") EmptyString (with_rec_ct self1 2))
      as (H1 & H2 & H3 & _).
    cbn [with_rec_ct core pass_counter error_counter rec_ct] in *.
    cbv zeta. rewrite H1, H2, H3, Hc1. subst first. repeat split; try done; lia.
  - destruct (f <~ get_field c2 multiplier_field;;
              v <~ _resolve_value c2 starting_value;; Returns (value f, v))
      as [[computed correct]|e4]; [|done].
    intros [= <-]. exists size_error, false.
    destruct (_record_fail_effect (par_prefix +:+ "-2") (Some (inr computed))
                (Some (inr correct)) "WRONGLY AFFECTED BY SIZE ERROR"
                (with_rec_ct self1 2)) as (H1 & H2 & H3 & _).
    cbn [with_rec_ct core pass_counter error_counter rec_ct] in *.
    cbv zeta. rewrite H1, H2, H3, Hc1. subst first. repeat split; try done; lia.
Qed.

Lemma run_case_first_check_needs_expected_error_witness :
  let self' := snd (run_case "MPY-TEST-F1-14" (NL_str "A12THREES_DS_06V06")
                      "WRK_DS_02V00" false "0" (NL_str "99") new_program) in
  let arithmetic :=
    _multiply (NL_str "A12THREES_DS_06V06") "WRK_DS_02V00" [] ∅
      (snd (set_field "WRK_DS_02V00" (NL_str "99") false (core new_program))) in
  exists size_error unchanged : bool,
    fst arithmetic = Returns size_error /\
    core self' = snd arithmetic /\
    _field_equals (core self') "WRK_DS_02V00" (NL_str "99") = Returns unchanged /\
    let first := if false then size_error else true in
    pass_counter self' =
      pass_counter new_program + (if first then 1 else 0) + (if unchanged then 1 else 0) /\
    error_counter self' =
      error_counter new_program + (if first then 0 else 1) + (if unchanged then 0 else 1) /\
    rec_ct self' = 0.
Proof.
  apply (run_case_first_check_needs_expected_error "MPY-TEST-F1-14"
           (NL_str "A12THREES_DS_06V06") "WRK_DS_02V00" false "0" (NL_str "99")
           new_program).
  vm_compute. reflexivity.
Defined.

(* ===================================================================== *)
(** ** The invariant of the report *)
(* ===================================================================== *)

Lemma write_header_length (p : ReportPrinter.t) :
  length (ReportPrinter.lines (ReportPrinter.write_header p))
  = (length (ReportPrinter.lines p) + 14)%nat.
Proof. unfold ReportPrinter.write_header. rewrite !write_line_length. lia. Qed.

Lemma _finish_report_length (self : NC101AProgram) :
  length (ReportPrinter.lines (printer (_finish_report self)))
  = (length (ReportPrinter.lines (printer self)) + 11)%nat.
Proof.
  unfold _finish_report, ReportPrinter.write_footer_line, ReportPrinter.write_end_banner.
  cbn [with_printer printer]. rewrite !write_line_length. lia.
Qed.

Lemma _print_detail_report_ok (par_name : string) (self : NC101AProgram) :
  report_ok self -> report_ok (_print_detail par_name self).
Proof.
  intros (Hp & H1 & H2 & H3 & H4 & H5).
  destruct (_print_detail_effect par_name self) as (_ & E2 & E3 & E4 & E5 & _ & E7).
  unfold report_ok. rewrite E2, E3, E4, E5, E7.
  split; [by apply _print_detail_ok|]. repeat split; try done.
  destruct (_ && _); lia.
Qed.

Lemma _record_pass_report_ok (par_name rem : string) (self : NC101AProgram) :
  report_ok self -> report_ok (_record_pass par_name rem self).
Proof.
  intros (Hp & H1 & H2 & H3 & H4 & H5).
  destruct (_record_pass_effect par_name rem self) as (_ & E2 & E3 & E4 & E5 & _ & E7).
  unfold report_ok. rewrite E2, E3, E4, E5, E7.
  split; [by apply _print_detail_ok|]. repeat split; try done; lia.
Qed.

Lemma _record_fail_report_ok (par_name : string)
    (computed correct : option (string + Decimal)) (rem : string)
    (self : NC101AProgram) :
  report_ok self -> report_ok (_record_fail par_name computed correct rem self).
Proof.
  intros (Hp & H1 & H2 & H3 & H4 & H5).
  destruct (_record_fail_effect par_name computed correct rem self)
    as (_ & E2 & E3 & E4 & E5 & _ & E7).
  unfold report_ok. rewrite E2, E3, E4, E5, E7.
  split; [by apply _print_detail_ok|]. repeat split; try done; try lia.
  destruct (_ || _); lia.
Qed.

Lemma evaluate_field_report_ok (expectation : string * string * NumberLike * string)
    (self : NC101AProgram) :
  report_ok self -> report_ok (snd (evaluate_field expectation self)).
Proof.
  intros H. destruct expectation as [[[par_name field_name] expected] rem].
  unfold evaluate_field.
  destruct (_field_equals (core self) field_name expected) as [[|]|e]; cbn [snd].
  - by apply _record_pass_report_ok.
  - destruct (f <~ get_field (core self) field_name;;
              v <~ _resolve_value (core self) expected;; Returns (value f, v))
      as [[computed correct]|e]; cbn [snd]; [|done].
    by apply _record_fail_report_ok.
  - done.
Qed.

Lemma _evaluate_fields_report_ok (base_name : string)
    (expectations : list (string * string * NumberLike * string))
    (self : NC101AProgram) :
  report_ok self -> report_ok (snd (_evaluate_fields base_name expectations self)).
Proof.
  revert self. induction expectations as [|x rest IH]; intros self H; [done|].
  cbn [_evaluate_fields]. pose proof (evaluate_field_report_ok x self H) as H1.
  destruct (evaluate_field x self) as [[u|e] self1]; cbn [snd] in *; [|done].
  by apply IH.
Qed.

Lemma report_ok_with_rec_ct (self : NC101AProgram) (n : Z) :
  report_ok self -> report_ok (with_rec_ct self n).
Proof. intros H. exact H. Qed.

Lemma run_case_report_ok (par_prefix : string) (multiplicand : NumberLike)
    (multiplier_field : string) (expect_size_error : bool)
    (on_size_value : string) (starting_value : NumberLike)
    (self : NC101AProgram) :
  report_ok self ->
  report_ok (snd (run_case par_prefix multiplicand multiplier_field
                    expect_size_error on_size_value starting_value self)).
Proof.
  intros H. unfold run_case.
  destruct (set_field _ _ _ _) as [[r1|e1] c1]; [|exact H].
  cbn [with_wrk_xn with_core with_rec_ct core].
  destruct (_multiply _ _ _ _ _) as [[size_error|e2] c2]; [|exact H].
  cbn [with_wrk_xn with_core with_rec_ct core wrk_xn]. cbv zeta.
  match goal with
  | |- context [_field_equals (core ?X) _ _] => set (self1 := X)
  end.
  assert (H1 : report_ok self1).
  { unfold self1. destruct (String.eqb _ _);
      [apply _record_pass_report_ok|apply _record_fail_report_ok]; exact H. }
  clearbody self1.
  destruct (_field_equals _ _ _) as [[|]|e3]; cbn [snd].
  - apply report_ok_with_rec_ct, _record_pass_report_ok, report_ok_with_rec_ct, H1.
  - destruct (f <~ get_field _ _;; v <~ _resolve_value _ _;; Returns (value f, v))
      as [[computed correct]|e4]; cbn [snd].
    + apply report_ok_with_rec_ct, _record_fail_report_ok, report_ok_with_rec_ct, H1.
    + apply report_ok_with_rec_ct, H1.
  - apply report_ok_with_rec_ct, H1.
Qed.

Lemma _finish_report_report_ok (self : NC101AProgram) :
  report_ok self -> report_ok (_finish_report self).
Proof.
  intros (Hp & H1 & H2 & H3 & H4 & H5). unfold report_ok.
  rewrite _finish_report_length.
  change (pass_counter (_finish_report self)) with (pass_counter self).
  change (error_counter (_finish_report self)) with (error_counter self).
  change (delete_counter (_finish_report self)) with (delete_counter self).
  change (inspect_counter (_finish_report self)) with (inspect_counter self).
  split; [|repeat split; try done; lia].
  unfold _finish_report. cbn [with_printer printer].
  repeat first [apply write_line_ok | apply write_footer_line_ok
               | apply write_end_banner_ok]. done.
Qed.

Lemma reachable_report_ok (self : NC101AProgram) :
  reachable_report self -> report_ok self.
Proof.
  induction 1 as [|self c _ IH].
  - split; [by split; [constructor|]|]. by cbn.
  - destruct c; cbn [run_report_call]; try done.
    + destruct IH as (Hp & H1 & H2 & H3 & H4 & H5). unfold report_ok.
      cbn [with_printer printer pass_counter error_counter delete_counter
           inspect_counter].
      rewrite write_header_length.
      split; [by apply write_header_ok|]. repeat split; try done; lia.
    + by apply _print_detail_report_ok.
    + by apply _record_pass_report_ok.
    + by apply _record_fail_report_ok.
    + by apply _evaluate_fields_report_ok.
    + by apply run_case_report_ok.
    + by apply _finish_report_report_ok.
Qed.

(** X15: the report is made of records. In every state reached from a new
    program object by calls of its methods, whether they return or raise,
    every line of the printer has exactly 120 characters, [record_count]
    is the number of lines, and the text [write_report] writes for a
    report that has lines is 121 characters a line. *)
Theorem report_is_made_of_records (self : NC101AProgram) :
  reachable_report self ->
  Forall (fun line => String.length line = 120%nat)
    (ReportPrinter.lines (printer self)) /\
  ReportPrinter.record_count (printer self)
    = Z.of_nat (length (ReportPrinter.lines (printer self))) /\
  (ReportPrinter.lines (printer self) <> [] ->
   String.length (ReportPrinter.write_report (printer self))
   = (121 * length (ReportPrinter.lines (printer self)))%nat).
Proof.
  intros Hreach. destruct (reachable_report_ok self Hreach) as ([Hl Hc] & _).
  split; [done|]. split; [done|].
  intros Hne. unfold ReportPrinter.write_report.
  by apply length_join_records.
Qed.

Lemma report_is_made_of_records_witness :
  let self := run_report_call (Call_record_pass "MPY-TEST-F1-1" EmptyString)
                (run_report_call Call_write_header new_program) in
  Forall (fun line => String.length line = 120%nat)
    (ReportPrinter.lines (printer self)) /\
  ReportPrinter.record_count (printer self)
    = Z.of_nat (length (ReportPrinter.lines (printer self))) /\
  (ReportPrinter.lines (printer self) <> [] ->
   String.length (ReportPrinter.write_report (printer self))
   = (121 * length (ReportPrinter.lines (printer self)))%nat).
Proof.
  apply (report_is_made_of_records
           (run_report_call (Call_record_pass "MPY-TEST-F1-1" EmptyString)
              (run_report_call Call_write_header new_program))).
  apply reachable_report_call, reachable_report_call, reachable_report_init.
Defined.

(** X16: every counted result has its line. In every state reached from a
    new program object, the pass and error counters are not negative,
    together they do not exceed the number of records printed, and the
    delete and inspect counters are still zero: the footer can only say
    that no test was deleted and none requires inspection. *)
Theorem every_result_has_its_line (self : NC101AProgram) :
  reachable_report self ->
  0 <= pass_counter self /\ 0 <= error_counter self /\
  pass_counter self + error_counter self
    <= ReportPrinter.record_count (printer self) /\
  delete_counter self = 0 /\ inspect_counter self = 0.
Proof.
  intros Hreach.
  destruct (reachable_report_ok self Hreach) as ([_ Hc] & H1 & H2 & H3 & H4 & H5).
  rewrite Hc. done.
Qed.

Lemma every_result_has_its_line_witness :
  let self := run_report_call
                (Call_record_fail "MPY-TEST-F1-1" (Some (inr (Fin false 8012 (-2))))
                   (Some (inl "320.48"%string)) EmptyString)
                new_program in
  0 <= pass_counter self /\ 0 <= error_counter self /\
  pass_counter self + error_counter self
    <= ReportPrinter.record_count (printer self) /\
  delete_counter self = 0 /\ inspect_counter self = 0.
Proof.
  apply (every_result_has_its_line
           (run_report_call
              (Call_record_fail "MPY-TEST-F1-1" (Some (inr (Fin false 8012 (-2))))
                 (Some (inl "320.48"%string)) EmptyString)
              new_program)).
  apply reachable_report_call, reachable_report_init.
Defined.

(* ===================================================================== *)
(** ** Printing a decimal and reading it back *)
(* ===================================================================== *)

Lemma string_of_list_ascii_app (a b : list ascii) :
  string_of_list_ascii (a ++ b) = string_of_list_ascii a +:+ string_of_list_ascii b.
Proof. induction a as [|x a IH]; [done|]. simpl. by rewrite IH. Qed.

Lemma fold_digits_app (l : list ascii) (acc : N) :
  fold_left (fun acc a => (acc * 10 + (N_of_ascii a - 48))%N) l acc
  = (acc * 10 ^ N.of_nat (length l) + N_of_digits l)%N.
Proof.
  unfold N_of_digits. revert acc. induction l as [|a l IH]; intros acc.
  - cbn. lia.
  - cbn [fold_left length]. rewrite IH, (IH (0 * 10 + _)%N).
    rewrite Nat2N.inj_succ, N.pow_succ_r'. lia.
Qed.

Lemma N_of_digits_app (l1 l2 : list ascii) :
  N_of_digits (l1 ++ l2)
  = (N_of_digits l1 * 10 ^ N.of_nat (length l2) + N_of_digits l2)%N.
Proof.
  unfold N_of_digits at 1. rewrite fold_left_app, fold_digits_app. done.
Qed.

Lemma N_of_digits_zeros (k : nat) : N_of_digits (repeat "0"%char k) = 0%N.
Proof.
  induction k as [|k IH]; [done|].
  change (repeat "0"%char (S k)) with (["0"%char] ++ repeat "0"%char k).
  rewrite N_of_digits_app, IH. done.
Qed.

Lemma is_digit_code (n : N) :
  (n < 10)%N ->
  is_digit (ascii_of_N (48 + n)) = true /\
  (N_of_ascii (ascii_of_N (48 + n)) - 48 = n)%N.
Proof.
  intros Hn. unfold is_digit. rewrite N_ascii_embedding by lia.
  split; [|lia]. apply andb_true_iff. split; apply N.leb_le; lia.
Qed.

(** The digits of [c]: a non-empty list of digits that reads back as [c]. *)
Lemma digits_fuel_spec (fuel : nat) :
  forall (c : N) (acc : list ascii),
    (c < 2 ^ N.of_nat fuel)%N ->
    exists D,
      digits_fuel (S fuel) c acc = D ++ acc /\
      D <> [] /\ Forall (fun a => is_digit a = true) D /\ N_of_digits D = c.
Proof.
  induction fuel as [|fuel IH]; intros c acc Hc.
  - assert (c = 0%N) as -> by (cbn in Hc; lia).
    exists ["0"%char]. split; [done|]. split; [done|].
    split; [by repeat constructor|done].
  - cbn [digits_fuel]. destruct (c <? 10)%N eqn:E.
    + apply N.ltb_lt in E. destruct (is_digit_code (c mod 10)) as [H1 H2].
      { apply N.mod_lt. lia. }
      exists [ascii_of_N (48 + c mod 10)]. split; [done|]. split; [done|].
      split; [by constructor|].
      unfold N_of_digits. cbn [fold_left]. rewrite H2, N.mod_small by lia. lia.
    + apply N.ltb_ge in E.
      destruct (IH (c / 10)%N (ascii_of_N (48 + c mod 10) :: acc)) as (D & HD & Hne & Hdig & Hval).
      { rewrite Nat2N.inj_succ, N.pow_succ_r' in Hc.
        apply N.Div0.div_lt_upper_bound. lia. }
      destruct (is_digit_code (c mod 10)) as [H1 H2].
      { apply N.mod_lt. lia. }
      exists (D ++ [ascii_of_N (48 + c mod 10)]).
      cbn [digits_fuel] in HD. split; [by rewrite <- app_assoc|].
      split; [by destruct D|].
      split; [apply Forall_app; split; [done|by constructor]|].
      rewrite N_of_digits_app, Hval. unfold N_of_digits at 1. cbn [fold_left length].
      rewrite H2. pose proof (N.div_mod c 10 ltac:(lia)). lia.
Qed.

Lemma digits_of_N_spec (c : N) :
  digits_of_N c <> [] /\
  Forall (fun a => is_digit a = true) (digits_of_N c) /\
  N_of_digits (digits_of_N c) = c.
Proof.
  destruct (digits_fuel_spec (N.to_nat (N.size c)) c []) as (D & HD & H).
  { rewrite N2Nat.id. apply N.size_gt. }
  unfold digits_of_N. rewrite HD, app_nil_r. exact H.
Qed.

(** The characters of a printed number: digits, the sign and the point.
    Reading a text made of them drops nothing and changes no letter. *)
Lemma digit_is_plain (a : ascii) :
  is_digit a = true ->
  is_space a = false /\ a <> "_"%char /\ lower a = a /\ a <> "."%char /\
  Ascii.eqb a "0" = (N_of_ascii a =? 48)%N.
Proof.
  intros H. destruct a as [[] [] [] [] [] [] [] []]; vm_compute in H; try discriminate H;
    repeat split; done.
Qed.

Lemma lstrip_plain (l : list ascii) :
  Forall (fun a => is_space a = false) l -> lstrip l = l.
Proof. intros [|a r Ha _]; [done|]. cbn. by rewrite Ha. Qed.

Lemma strip_chars_plain (l : list ascii) :
  Forall (fun a => is_space a = false) l -> strip_chars l = l.
Proof.
  intros H. unfold strip_chars. rewrite (lstrip_plain l H).
  rewrite lstrip_plain; [apply rev_involutive|].
  by apply List.Forall_rev.
Qed.

Lemma filter_underscore_plain (l : list ascii) :
  Forall (fun a => a <> "_"%char) l -> filter (fun a => a <> "_"%char) l = l.
Proof.
  induction 1 as [|a r Ha _ IH]; [done|].
  rewrite filter_cons_True by done. by rewrite IH.
Qed.

Lemma map_lower_plain (l : list ascii) :
  Forall (fun a => lower a = a) l -> map lower l = l.
Proof. induction 1 as [|a r Ha _ IH]; [done|]. cbn. by rewrite Ha, IH. Qed.

Lemma span_digits_app (D rest : list ascii) :
  Forall (fun a => is_digit a = true) D ->
  match rest with [] => True | a :: _ => is_digit a = false end ->
  span_digits (D ++ rest) = (D, rest).
Proof.
  intros HD Hrest. induction HD as [|a D Ha _ IH].
  - destruct rest as [|a r]; [done|]. cbn. by rewrite Hrest.
  - cbn. by rewrite Ha, IH.
Qed.

Lemma parse_sign_digit (a : ascii) (r : list ascii) :
  is_digit a = true -> parse_sign (a :: r) = (false, a :: r).
Proof.
  intros H. destruct a as [[] [] [] [] [] [] [] []]; try reflexivity;
    vm_compute in H; discriminate H.
Qed.

(** Reading a sign, digits and a fraction. *)
Lemma Decimal_of_string_plain (s : bool) (ip fp : list ascii) :
  ip <> [] ->
  Forall (fun a => is_digit a = true) ip ->
  Forall (fun a => is_digit a = true) fp ->
  Decimal_of_string (string_of_list_ascii (sign_chars s ++ ip ++ with_point fp))
  = Returns (Fin s (N_of_digits (ip ++ fp)) (- Z.of_nat (length fp))).
Proof.
  intros Hne Hip Hfp. unfold Decimal_of_string.
  rewrite list_ascii_of_string_of_list_ascii.
  assert (Hplain : Forall (fun a => is_space a = false /\ a <> "_"%char /\ lower a = a)
                     (sign_chars s ++ ip ++ with_point fp)).
  { apply Forall_app. split; [destruct s; by repeat constructor|].
    apply Forall_app. split.
    - eapply Forall_impl; [exact Hip|]. intros a Ha.
      by destruct (digit_is_plain a Ha) as (? & ? & ? & _).
    - destruct fp as [|b fp]; [constructor|]. cbn [with_point].
      constructor; [done|].
      eapply Forall_impl; [exact Hfp|]. intros a Ha.
      by destruct (digit_is_plain a Ha) as (? & ? & ? & _). }
  rewrite strip_chars_plain
    by (eapply Forall_impl; [exact Hplain|]; by intros a (? & _)).
  rewrite filter_underscore_plain
    by (eapply Forall_impl; [exact Hplain|]; by intros a (_ & ? & _)).
  rewrite map_lower_plain
    by (eapply Forall_impl; [exact Hplain|]; by intros a (_ & _ & ?)).
  destruct ip as [|a ip]; [done|]. inversion Hip as [|? ? Ha Hip']; subst.
  assert (Hsign : parse_sign (sign_chars s ++ (a :: ip) ++ with_point fp)
                  = (s, (a :: ip) ++ with_point fp)).
  { destruct s; [done|]. cbn [sign_chars app]. by apply parse_sign_digit. }
  rewrite Hsign. unfold parse_number.
  rewrite (span_digits_app (a :: ip) (with_point fp) Hip)
    by (by destruct fp).
  destruct fp as [|b fp].
  - cbn [with_point]. rewrite app_nil_r. cbn [app length]. done.
  - cbn [with_point].
    pose proof (span_digits_app (b :: fp) [] Hfp I) as E. rewrite app_nil_r in E.
    rewrite E. cbn [app]. done.
Qed.

Lemma lstrip_char_split (c : ascii) (m : list ascii) :
  exists k, m = repeat c k ++ lstrip_char c m.
Proof.
  induction m as [|a m (k & IH)]; [by exists 0%nat|].
  cbn [lstrip_char]. destruct (Ascii.eqb a c) eqn:E.
  - apply Ascii.eqb_eq in E as ->. exists (S k). cbn. by rewrite <- IH.
  - by exists 0%nat.
Qed.

Lemma lstrip_char_head (c : ascii) (m : list ascii) :
  match lstrip_char c m with [] => True | a :: _ => a <> c end.
Proof.
  induction m as [|a m IH]; [done|]. cbn [lstrip_char].
  destruct (Ascii.eqb a c) eqn:E; [done|]. by apply Ascii.eqb_neq in E.
Qed.

Lemma lstrip_char_app (c x : ascii) (A B : list ascii) :
  x <> c -> lstrip_char c (A ++ x :: B) = lstrip_char c A ++ x :: B.
Proof.
  intros Hx. induction A as [|a A IH].
  - cbn. apply Ascii.eqb_neq in Hx. by rewrite Hx.
  - cbn. by destruct (Ascii.eqb a c).
Qed.

Lemma lstrip_char_keep (c a : ascii) (m : list ascii) :
  a <> c -> lstrip_char c (a :: m) = a :: m.
Proof. intros Ha. cbn. apply Ascii.eqb_neq in Ha. by rewrite Ha. Qed.

Lemma rev_repeat_char (c : ascii) (k : nat) : rev (repeat c k) = repeat c k.
Proof.
  induction k as [|k IH]; [done|]. cbn [repeat rev]. rewrite IH.
  symmetry. apply repeat_cons.
Qed.

(** A fraction without its trailing zeros. *)
Lemma trim_zeros (fp : list ascii) :
  Forall (fun a => is_digit a = true) fp ->
  let fp' := rev (lstrip_char "0" (rev fp)) in
  Forall (fun a => is_digit a = true) fp' /\
  (exists k, fp = fp' ++ repeat "0"%char k) /\
  match rev fp' with [] => True | a :: _ => a <> "0"%char end.
Proof.
  intros Hfp fp'. destruct (lstrip_char_split "0" (rev fp)) as [k Hk].
  assert (E : fp = fp' ++ repeat "0"%char k).
  { rewrite <- (rev_involutive fp), Hk, rev_app_distr, rev_repeat_char. done. }
  split; [|split].
  - rewrite E in Hfp. by apply Forall_app in Hfp as [? _].
  - by exists k.
  - unfold fp'. rewrite rev_involutive. apply lstrip_char_head.
Qed.

Lemma digits_zeros (k : nat) :
  Forall (fun a => is_digit a = true) (repeat "0"%char k).
Proof. induction k as [|k IH]; [constructor|]. by constructor. Qed.

(** [format(value, "f")] of a number: a sign, digits and a fraction that
    denote the number. *)
Lemma format_f_plain (s : bool) (c : N) (e : Z) :
  let e' := if (c =? 0)%N && (0 <? e) then 0 else e in
  exists ip fp,
    format_f (Fin s c e) = string_of_list_ascii (sign_chars s ++ ip ++ with_point fp) /\
    ip <> [] /\
    Forall (fun a => is_digit a = true) ip /\
    Forall (fun a => is_digit a = true) fp /\
    0 <= e' + Z.of_nat (length fp) /\
    Z.of_N (N_of_digits (ip ++ fp)) = Z.of_N c * 10 ^ (e' + Z.of_nat (length fp)).
Proof.
  intros e'. unfold format_f. fold e'.
  destruct (digits_of_N_spec c) as (Hne & Hdig & Hval).
  set (ds := digits_of_N c) in *. set (n := Z.of_nat (length ds)).
  destruct (e' + n <? 0) eqn:E1; [|destruct (n <? e' + n) eqn:E2].
  - apply Z.ltb_lt in E1.
    exists ["0"%char], (repeat "0"%char (Z.to_nat (- (e' + n))) ++ ds).
    split; [done|]. split; [done|]. split; [by repeat constructor|].
    split; [apply Forall_app; split; [apply digits_zeros|done]|].
    rewrite length_app, repeat_length.
    replace (e' + Z.of_nat (Z.to_nat (- (e' + n)) + length ds)) with 0 by lia.
    split; [done|].
    rewrite !N_of_digits_app, N_of_digits_zeros, Hval.
    change (N_of_digits ["0"%char]) with 0%N. lia.
  - apply Z.ltb_lt in E2.
    exists (ds ++ repeat "0"%char (Z.to_nat (e' + n - n))), [].
    split; [done|]. split; [by destruct ds|].
    split; [apply Forall_app; split; [done|apply digits_zeros]|].
    split; [constructor|]. cbn [length]. split; [lia|].
    rewrite app_nil_r, N_of_digits_app, N_of_digits_zeros, Hval, repeat_length.
    rewrite N.add_0_r, N2Z.inj_mul, N2Z.inj_pow, nat_N_Z.
    do 2 f_equal. lia.
  - apply Z.ltb_ge in E1, E2.
    set (k := Z.to_nat (e' + n)).
    assert (Hk : (k <= length ds)%nat) by lia.
    exists (match take k ds with [] => ["0"%char] | i => i end), (drop k ds).
    split; [done|]. split; [by destruct (take k ds)|].
    split.
    { destruct (take k ds) eqn:Et; [by repeat constructor|].
      rewrite <- Et. by apply Forall_take. }
    split; [by apply Forall_drop|].
    rewrite length_drop.
    replace (e' + Z.of_nat (length ds - k)) with 0 by lia.
    split; [done|].
    destruct (take k ds) eqn:Et.
    + change (["0"%char] ++ drop k ds) with (["0"%char] ++ drop k ds).
      rewrite N_of_digits_app. change (N_of_digits ["0"%char]) with 0%N.
      assert (k = 0%nat) as ->.
      { destruct k; [done|]. destruct ds; [done|]. done. }
      rewrite drop_0, Hval. lia.
    + rewrite <- Et, take_drop, Hval. lia.
Qed.

Lemma no_point_in_digits (l : list ascii) :
  Forall (fun a => is_digit a = true) l -> existsb (Ascii.eqb ".") l = false.
Proof.
  induction 1 as [|a l Ha _ IH]; [done|]. cbn [existsb]. rewrite IH, orb_false_r.
  apply (proj2 (Ascii.eqb_neq _ _)). intros <-. done.
Qed.

(** Dropping the trailing zeros of the fraction, and the point when no
    fraction is left. *)
Lemma rstrip_plain (s : bool) (ip fp : list ascii) :
  ip <> [] ->
  Forall (fun a => is_digit a = true) ip ->
  Forall (fun a => is_digit a = true) fp ->
  let text := string_of_list_ascii (sign_chars s ++ ip ++ with_point fp) in
  (if contains "." text then rstrip_char "." (rstrip_char "0" text) else text)
  = string_of_list_ascii
      (sign_chars s ++ ip ++ with_point (rev (lstrip_char "0" (rev fp)))).
Proof.
  intros Hne Hip Hfp text. unfold contains, text.
  rewrite list_ascii_of_string_of_list_ascii.
  assert (Hrev : exists a m, rev ip = a :: m /\ a <> "."%char).
  { destruct (rev ip) as [|a m] eqn:E.
    - apply (f_equal (@rev ascii)) in E. rewrite rev_involutive in E. done.
    - exists a, m. split; [done|].
      pose proof (List.Forall_rev Hip) as H. rewrite E in H.
      inversion H as [|? ? Ha _]; subst. by destruct (digit_is_plain a Ha) as (_ & _ & _ & ? & _). }
  destruct Hrev as (a & m & Hrev & Ha).
  destruct fp as [|b fp0].
  - cbn [with_point rev lstrip_char]. rewrite app_nil_r, existsb_app.
    rewrite (no_point_in_digits ip Hip), orb_false_r.
    by destruct s.
  - set (fp := b :: fp0) in *. change (with_point fp) with ("."%char :: fp).
    rewrite !existsb_app. cbn [existsb]. change (Ascii.eqb "." ".") with true.
    rewrite orb_true_l, !orb_true_r.
    unfold rstrip_char. rewrite !list_ascii_of_string_of_list_ascii.
    set (R := rev (sign_chars s ++ ip)).
    assert (E1 : rev (sign_chars s ++ ip ++ "."%char :: fp) = rev fp ++ "."%char :: R).
    { rewrite app_assoc, rev_app_distr. cbn [rev]. by rewrite <- app_assoc. }
    rewrite E1, lstrip_char_app by done.
    set (X := lstrip_char "0" (rev fp)).
    assert (E2 : rev (X ++ "."%char :: R) = sign_chars s ++ ip ++ "."%char :: rev X).
    { rewrite rev_app_distr. cbn [rev]. unfold R. rewrite rev_involutive.
      by rewrite <- !app_assoc. }
    rewrite E2. f_equal.
    assert (E3 : rev (sign_chars s ++ ip ++ "."%char :: rev X) = X ++ "."%char :: R).
    { rewrite <- E2. apply rev_involutive. }
    rewrite E3.
    destruct X as [|x X'] eqn:EX.
    + cbn [app rev with_point lstrip_char]. change (Ascii.eqb "." ".") with true.
      cbn iota. unfold R. rewrite rev_app_distr.
      assert (lstrip_char "." (rev ip ++ rev (sign_chars s))
              = rev ip ++ rev (sign_chars s)) as ->.
      { rewrite Hrev. cbn [app]. by apply lstrip_char_keep. }
      rewrite <- rev_app_distr, rev_involutive. by rewrite app_nil_r.
    + assert (Hx : x <> "."%char).
      { pose proof (List.Forall_rev Hfp) as H.
        destruct (lstrip_char_split "0" (rev fp)) as [k Hk].
        fold X in Hk. rewrite EX in Hk. rewrite Hk in H. apply Forall_app in H as [_ H].
        inversion H as [|? ? Hx' _]; subst.
        by destruct (digit_is_plain x Hx') as (_ & _ & _ & ? & _). }
      cbn [app]. rewrite lstrip_char_keep by done.
      change (x :: X' ++ "."%char :: R) with ((x :: X') ++ "."%char :: R).
      rewrite E2.
      destruct (rev (x :: X')) eqn:ErX; [|done].
      apply (f_equal (@rev ascii)) in ErX. rewrite rev_involutive in ErX. done.
Qed.

(** X17: a printed decimal reads back as the same number. For a finite
    decimal, the text of [_format_decimal] is read by [Decimal(text)] as a
    decimal of the same sign, with an exponent that is not positive, that
    denotes the same number; the text of an infinity or a NaN reads back
    as that infinity or NaN. *)
Theorem format_decimal_reads_back (d : Decimal) :
  match d with
  | Fin s c e =>
      exists c' e',
        Decimal_of_string (_format_decimal d) = Returns (Fin s c' e') /\
        e' <= 0 /\
        (to_Q (Fin s c' e') == to_Q d)%Q
  | _ => Decimal_of_string (_format_decimal d) = Returns d
  end.
Proof.
  destruct d as [s c e|s|s signal].
  2:{ by destruct s. }
  2:{ by destruct s, signal. }
  destruct (format_f_plain s c e) as (ip & fp & Hfmt & Hne & Hip & Hfp & Hpos & Hval).
  set (e0 := if (c =? 0)%N && (0 <? e) then 0 else e) in *.
  destruct (trim_zeros fp Hfp) as (Hfp' & (k & Hk) & _).
  set (fp' := rev (lstrip_char "0" (rev fp))) in *.
  assert (Htext : _format_decimal (Fin s c e)
                  = string_of_list_ascii (sign_chars s ++ ip ++ with_point fp')).
  { unfold _format_decimal. rewrite Hfmt, (rstrip_plain s ip fp Hne Hip Hfp).
    fold fp'. destruct s, ip; done. }
  rewrite Htext, (Decimal_of_string_plain s ip fp' Hne Hip Hfp').
  set (C := N_of_digits (ip ++ fp')).
  exists C, (- Z.of_nat (length fp')). split; [done|]. split; [lia|].
  assert (HC : Z.of_N C * 10 ^ Z.of_nat k
               = Z.of_N c * 10 ^ (e0 + Z.of_nat (length fp') + Z.of_nat k)).
  { rewrite Hk, length_app, repeat_length in Hval, Hpos.
    rewrite app_assoc, N_of_digits_app, N_of_digits_zeros, repeat_length in Hval.
    fold C in Hval. rewrite N.add_0_r, N2Z.inj_mul, N2Z.inj_pow, nat_N_Z in Hval.
    change (Z.of_N 10) with 10 in Hval. rewrite Hval. do 2 f_equal. lia. }
  rewrite Hk, length_app, repeat_length in Hpos.
  destruct (N.eq_dec c 0%N) as [->|Hc].
  - assert (C = 0%N) as ->.
    { assert (0 < 10 ^ Z.of_nat k) by (apply Z.pow_pos_nonneg; lia). nia. }
    by rewrite !to_Q_zero_coeff.
  - assert (e0 = e) as He0.
    { unfold e0. apply N.eqb_neq in Hc. by rewrite Hc. }
    rewrite He0 in *.
    assert (HQ : (inject_Z (Z.of_N C) * 10 ^ (- Z.of_nat (length fp'))
                  == inject_Z (Z.of_N c) * 10 ^ e)%Q).
    { apply (f_equal inject_Z) in HC.
      assert (HC' : (inject_Z (Z.of_N C) * 10 ^ Z.of_nat k ==
                     inject_Z (Z.of_N c) * 10 ^ (e + Z.of_nat (length fp') + Z.of_nat k))%Q).
      { rewrite !scale_up by lia. by rewrite HC. }
      rewrite (ten_add (e + Z.of_nat (length fp')) (Z.of_nat k)), Qmult_assoc in HC'.
      apply Qmult_inj_r in HC'; [|pose proof (ten_pos (Z.of_nat k)); lra].
      rewrite HC', ten_add, <- !Qmult_assoc, <- ten_add.
      replace (Z.of_nat (length fp') + - Z.of_nat (length fp')) with 0 by lia.
      change (10 ^ 0)%Q with 1%Q. ring. }
    rewrite !to_Q_signed. destruct s; by rewrite HQ.
Qed.

(* ===================================================================== *)
(** ** On the numbers of the program the context never rounds *)
(* ===================================================================== *)

Lemma ndigits_mul (a b : N) : ndigits (a * b) <= ndigits a + ndigits b.
Proof.
  destruct (N.eq_dec a 0%N) as [->|Ha].
  { rewrite N.mul_0_l. pose proof (ndigits_pos b). change (ndigits 0) with 1. lia. }
  destruct (N.eq_dec b 0%N) as [->|Hb].
  { rewrite N.mul_0_r. pose proof (ndigits_pos a). change (ndigits 0) with 1. lia. }
  destruct (ndigits_bounds a ltac:(lia)) as (Ha1 & _ & Ha2).
  destruct (ndigits_bounds b ltac:(lia)) as (Hb1 & _ & Hb2).
  apply ndigits_le; [lia| |lia].
  rewrite N2Z.inj_mul, Z.pow_add_r by lia.
  apply Z.mul_lt_mono_nonneg; lia.
Qed.

Lemma set_program_number (f f' : Field) (raw : NumberLike) (rounded : bool)
    (r : outcome bool) :
  program_picture f /\ program_number (value f) = true ->
  set f raw rounded = (r, f') ->
  program_picture f' /\ program_number (value f') = true.
Proof.
  intros [Hpic Hnum] H. destruct (decide (r = Returns true)) as [->|Hr].
  2:{ by rewrite (set_unchanged _ _ _ _ _ H Hr). }
  apply set_true_inv in H as (d & q & _ & Hq & Hfit & ->).
  split; [done|]. cbn [with_value value].
  destruct Hpic as (Hdl & Hdr & Hw).
  apply _fits_true_inv in Hfit as (Hfin & (_ & Hlo & Hhi) & _).
  pose proof (_quantize_returns_finite _ _ _ _ Hq Hfin) as Hd.
  destruct (_quantize_spec _ _ _ _ Hq Hd ltac:(ctx_lia)) as ((s & c & ->) & _).
  cbn [program_number]. rewrite !andb_true_iff, !Z.leb_le.
  split; [split|]; [|lia|lia].
  destruct (N.eq_dec c 0%N) as [->|Hc]; [done|].
  assert (Hadj : adjusted c (- digits_right f) < digits_left f).
  { apply adjusted_lt; [lia|]. rewrite to_Q_signed in Hlo, Hhi. destruct s; lra. }
  unfold adjusted in Hadj. lia.
Qed.

Lemma set_field_constants (key : string) (raw : NumberLike) (rounded : bool)
    (self : Program) :
  constants (snd (set_field key raw rounded self)) = constants self.
Proof.
  unfold set_field, get_field. destruct (fields self !! key); [|done].
  by destruct (set _ _ _).
Qed.

Lemma _multiply_constants (multiplicand : NumberLike) (multiplier : string)
    (additional : list string) (rounded : gset string) (self : Program) :
  constants (snd (_multiply multiplicand multiplier additional rounded self))
  = constants self.
Proof.
  destruct (_multiply multiplicand multiplier additional rounded self)
    as [r self'] eqn:H. cbn [snd].
  apply _multiply_inv in H as [(e & _ & ->)|(mv & f0 & S & p & _ & _ & HS & _ & H)];
    [done|].
  pose proof (take_snapshots_snapshot_of _ _ _ HS) as Hsnap.
  apply take_snapshots_spec in HS as (Hn & _ & _).
  by apply (store_loop_touched S rounded p self _ Hsnap self self' _
              eq_refl (touched_refl _ _) Hn) in H as (Hc & _).
Qed.

Lemma reachable_constants (self : Program) :
  reachable self -> constants self = constants initial_program.
Proof.
  induction 1 as [|self c _ IH]; [done|].
  destruct c; cbn [run]; [by rewrite set_field_constants|by rewrite _multiply_constants].
Qed.

(** Every field of a run holds a number of the program, and so is every
    constant. *)
Lemma reachable_program_numbers (self : Program) :
  reachable self ->
  (forall key f, fields self !! key = Some f ->
     program_picture f /\ program_number (value f) = true) /\
  (forall key v, constants self !! key = Some v -> program_number v = true).
Proof.
  intros Hreach. split.
  - apply (reachable_preserves
             (fun f => program_picture f /\ program_number (value f) = true)
             set_program_number); [|done].
    assert (H : map_Forall
                  (fun _ f => bool_decide (0 <= digits_left f /\ 0 <= digits_right f /\
                                           digits_left f + digits_right f <= 18) = true /\
                              program_number (value f) = true)
                  (fields initial_program)).
    { apply (bool_decide_unpack _). vm_compute. exact I. }
    intros key f Hf. apply (H key) in Hf as [Hf1 Hf2]. split; [|done].
    by apply bool_decide_eq_true_1 in Hf1.
  - rewrite (reachable_constants self Hreach).
    assert (H : map_Forall (fun _ v => program_number v = true)
                  (constants initial_program)).
    { apply (bool_decide_unpack _). vm_compute. exact I. }
    intros key v Hv. by apply (H key).
Qed.

(** The product of two numbers of the program is exact in the context. *)
Lemma program_numbers_multiply (a b : Decimal) :
  program_number a = true -> program_number b = true ->
  exists s c e,
    Decimal_mul a b = Returns (Fin s c e) /\
    (to_Q (Fin s c e) == to_Q a * to_Q b)%Q.
Proof.
  destruct a as [s1 c1 e1| |], b as [s2 c2 e2| |]; try done.
  cbn [program_number]. rewrite !andb_true_iff, !Z.leb_le.
  intros [[Ha1 Ha2] Ha3] [[Hb1 Hb2] Hb3].
  exists (xorb s1 s2), (c1 * c2)%N, (e1 + e2). split; [|apply to_Q_mul].
  unfold Decimal_mul. cbn [check_nans is_snan is_nan orb].
  pose proof (ndigits_mul c1 c2) as Hm.
  apply fix_finite_id; [ctx_lia|ctx_lia|]. intros _. unfold adjusted. ctx_lia.
Qed.

(** X18: on the numbers of the program [_multiply] is exact. In every state
    a run reaches, every field value and every constant is a number of at
    most 18 digits with an exponent between -18 and 0. For a multiplicand
    that resolves to such a number and receivers that exist, the context
    neither rounds nor overflows the product: [_multiply] returns; it
    reports a size error exactly when some receiver has no room for the
    exact product quantized to its own digits, and then the program is as
    it was; otherwise every receiver holds the exact product quantized to
    its own digits and no other field has changed. *)
Theorem multiply_is_exact_on_program_numbers (self : Program) :
  reachable self ->
  (forall key f, fields self !! key = Some f -> program_number (value f) = true) /\
  (forall key v, constants self !! key = Some v -> program_number v = true) /\
  forall (multiplicand : NumberLike) (multiplier : string)
         (additional : list string) (rounded : gset string)
         (mv : Decimal) (f0 : Field),
    _resolve_value self multiplicand = Returns mv ->
    program_number mv = true ->
    fields self !! multiplier = Some f0 ->
    (forall k, k ∈ additional -> is_Some (fields self !! k)) ->
    let x := (to_Q mv * to_Q (value f0))%Q in
    exists b self',
      _multiply multiplicand multiplier additional rounded self = (Returns b, self') /\
      (b = false <->
       forall key, key ∈ multiplier :: additional ->
                   has_room (fields self) rounded x key) /\
      (b = true -> self' = self) /\
      (b = false ->
       (forall key, key ∈ multiplier :: additional ->
          exists f s' c',
            fields self !! key = Some f /\
            fields self' !! key = Some (with_value f (Fin s' c' (- digits_right f))) /\
            (to_Q (Fin s' c' (- digits_right f)) ==
             spec_quantize x (digits_right f) (bool_decide (key ∈ rounded)))%Q) /\
       (forall key, key ∉ multiplier :: additional ->
          fields self' !! key = fields self !! key)).
Proof.
  intros Hreach. destruct (reachable_program_numbers self Hreach) as [Hf Hc].
  split; [intros key f Hk; by destruct (Hf key f Hk)|]. split; [done|].
  intros multiplicand multiplier additional rounded mv f0 Hmv Hnum Hf0 Hadd x.
  destruct (Hf multiplier f0 Hf0) as [_ Hnum0].
  destruct (program_numbers_multiply mv (value f0) Hnum Hnum0) as (s & c & e & Hp & Hx).
  assert (Hok : registry_in_precision self).
  { intros key f Hk. destruct (Hf key f Hk) as [(H1 & H2 & H3) _].
    unfold picture_in_precision, prec. lia. }
  apply (_multiply_by_spec _ _ _ _ _ _ _ _ _ _ _ Hok Hmv Hf0 Hadd Hp Hx).
Qed.

Lemma multiply_is_exact_on_program_numbers_witness :
  (forall key f, fields initial_program !! key = Some f ->
                 program_number (value f) = true) /\
  (forall key v, constants initial_program !! key = Some v ->
                 program_number v = true) /\
  forall (multiplicand : NumberLike) (multiplier : string)
         (additional : list string) (rounded : gset string)
         (mv : Decimal) (f0 : Field),
    _resolve_value initial_program multiplicand = Returns mv ->
    program_number mv = true ->
    fields initial_program !! multiplier = Some f0 ->
    (forall k, k ∈ additional -> is_Some (fields initial_program !! k)) ->
    let x := (to_Q mv * to_Q (value f0))%Q in
    exists b self',
      _multiply multiplicand multiplier additional rounded initial_program
        = (Returns b, self') /\
      (b = false <->
       forall key, key ∈ multiplier :: additional ->
                   has_room (fields initial_program) rounded x key) /\
      (b = true -> self' = initial_program) /\
      (b = false ->
       (forall key, key ∈ multiplier :: additional ->
          exists f s' c',
            fields initial_program !! key = Some f /\
            fields self' !! key = Some (with_value f (Fin s' c' (- digits_right f))) /\
            (to_Q (Fin s' c' (- digits_right f)) ==
             spec_quantize x (digits_right f) (bool_decide (key ∈ rounded)))%Q) /\
       (forall key, key ∉ multiplier :: additional ->
          fields self' !! key = fields initial_program !! key)).
Proof.
  apply (multiply_is_exact_on_program_numbers initial_program reachable_init).
Defined.

(* ===================================================================== *)
(** ** The registry between calls *)
(* ===================================================================== *)

Section FieldInvariantAt.
Variable P : Field -> Prop.
Hypothesis P_set :
  forall (f f' : Field) (raw : NumberLike) (rounded : bool) (r : outcome bool),
    P f -> set f raw rounded = (r, f') -> P f'.
Variable k : string.

Lemma set_field_preserves_at (key : string) (raw : NumberLike) (rounded : bool)
    (self : Program) :
  (forall g, fields self !! k = Some g -> P g) ->
  forall g, fields (snd (set_field key raw rounded self)) !! k = Some g -> P g.
Proof.
  intros Hself. unfold set_field, get_field.
  destruct (fields self !! key) as [f|] eqn:Hf; [|done].
  destruct (set f raw rounded) as [r f'] eqn:Hset. cbn [snd with_fields fields].
  intros g. destruct (decide (key = k)) as [->|Hne].
  - rewrite lookup_insert_eq. intros [= <-].
    by apply (P_set f f' raw rounded r); [apply Hself|].
  - rewrite lookup_insert_ne by done. apply Hself.
Qed.

Lemma store_loop_preserves_at (S : gmap string Decimal) (rounded : gset string)
    (product : Decimal) (self0 : Program) (names : list string) :
  snapshot_of S (fields self0) ->
  (forall g, fields self0 !! k = Some g -> P g) ->
  forall (self self' : Program) (r : outcome bool),
    touched S (fields self0) (fields self) ->
    (forall x, x ∈ names -> is_Some (S !! x)) ->
    (forall g, fields self !! k = Some g -> P g) ->
    store_loop S rounded product names self = (r, self') ->
    forall g, fields self' !! k = Some g -> P g.
Proof.
  intros HS H0. induction names as [|key rest IH]; intros self self' r Ht Hn Hself H.
  - simpl in H. by inversion H; subst.
  - simpl in H. unfold get_field in H.
    destruct (fields self !! key) as [field|] eqn:Hfield.
    2:{ by inversion H; subst. }
    destruct (set field (NL_Decimal product) (bool_decide (key ∈ rounded)))
      as [r1 field'] eqn:Hset.
    assert (HSkey : is_Some (S !! key)) by (apply Hn; by left).
    pose proof (touched_set _ _ _ _ _ _ _ _ _ Ht Hfield HSkey Hset) as Ht'.
    assert (Hself' : forall g,
              fields (with_fields self (<[key := field']> (fields self))) !! k = Some g ->
              P g).
    { cbn [with_fields fields]. intros g.
      destruct (decide (key = k)) as [->|Hne].
      - rewrite lookup_insert_eq. intros [= <-].
        by apply (P_set _ _ _ _ _ (Hself field Hfield) Hset).
      - rewrite lookup_insert_ne by done. apply Hself. }
    destruct r1 as [[|]|e].
    + apply (IH (with_fields self (<[key := field']> (fields self))) self' r);
        [exact Ht'| |exact Hself'|exact H].
      intros x Hx. apply Hn. by right.
    + simpl in H. rewrite (restore_touched S _ _ HS Ht') in H.
      inversion H; subst. intros g. cbn [with_fields fields]. apply H0.
    + by inversion H; subst.
Qed.

Lemma _multiply_preserves_at (multiplicand : NumberLike) (multiplier : string)
    (additional : list string) (rounded : gset string) (self : Program) :
  (forall g, fields self !! k = Some g -> P g) ->
  forall g,
    fields (snd (_multiply multiplicand multiplier additional rounded self)) !! k
      = Some g -> P g.
Proof.
  intros Hself.
  destruct (_multiply multiplicand multiplier additional rounded self)
    as [r self'] eqn:H. cbn [snd].
  apply _multiply_inv in H as [(e & _ & ->)|(mv & f0 & S & p & _ & _ & HS & _ & H)];
    [done|].
  pose proof (take_snapshots_snapshot_of _ _ _ HS) as Hsnap.
  apply take_snapshots_spec in HS as (Hn & _ & _).
  by apply (store_loop_preserves_at S rounded p self _ Hsnap Hself self self' r
              (touched_refl _ _) Hn Hself).
Qed.
End FieldInvariantAt.

(** What [set] stores has exactly [digits_right] fractional digits. *)
Lemma stored_exactly_quantized (f : Field) (d q : Decimal) (rounded : bool) :
  picture_in_precision f ->
  _quantize f d rounded = Returns q -> _fits f q = Returns true ->
  exactly_quantized (with_value f q).
Proof.
  intros (Hdl & Hdr & Hp) Hq Hfit.
  apply _fits_true_inv in Hfit as (Hfin & _ & _).
  pose proof (_quantize_returns_finite _ _ _ _ Hq Hfin) as Hd.
  by destruct (_quantize_spec _ _ _ _ Hq Hd ltac:(ctx_lia)) as (Hex & _).
Qed.

Lemma set_exactly_quantized (f f' : Field) (raw : NumberLike) (rounded : bool) :
  picture_in_precision f ->
  set f raw rounded = (Returns true, f') -> exactly_quantized f'.
Proof.
  intros Hpic H. apply set_true_inv in H as (d & q & _ & Hq & Hfit & ->).
  by apply (stored_exactly_quantized f d q rounded).
Qed.

Lemma set_keeps_exactly_quantized (f f' : Field) (raw : NumberLike)
    (rounded : bool) (r : outcome bool) :
  picture_in_precision f /\ exactly_quantized f ->
  set f raw rounded = (r, f') ->
  picture_in_precision f' /\ exactly_quantized f'.
Proof.
  intros [Hpic Hex] H. destruct (decide (r = Returns true)) as [->|Hr].
  - split; [|by apply (set_exactly_quantized f f' raw rounded)].
    apply set_true_inv in H as (d & q & _ & _ & _ & ->). done.
  - by rewrite (set_unchanged _ _ _ _ _ H Hr).
Qed.

Lemma set_keeps_fraction_within (f f' : Field) (raw : NumberLike)
    (rounded : bool) (r : outcome bool) :
  picture_in_precision f /\ fraction_within f ->
  set f raw rounded = (r, f') ->
  picture_in_precision f' /\ fraction_within f'.
Proof.
  intros [Hpic Hex] H. destruct (decide (r = Returns true)) as [->|Hr].
  - destruct (set_exactly_quantized f f' raw rounded Hpic H) as (s & c & Hv).
    apply set_true_inv in H as (d & q & _ & _ & _ & ->). split; [done|].
    exists s, c, (- digits_right (with_value f q)). split; [done|lia].
  - by rewrite (set_unchanged _ _ _ _ _ H Hr).
Qed.

Lemma initial_program_fraction_within :
  forall key f, fields initial_program !! key = Some f ->
  picture_in_precision f /\ fraction_within f.
Proof.
  intros key f Hf. destruct (initial_program_kept key f Hf) as (_ & Hpic & _).
  split; [done|].
  assert (H : map_Forall (fun _ f => at_rest_check f = true)
                (fields initial_program)).
  { apply (bool_decide_unpack _). vm_compute. exact I. }
  apply (H key) in Hf. unfold at_rest_check in Hf.
  destruct (value f) as [s c e| |] eqn:Hv; [|done|done].
  apply andb_true_iff in Hf as [He _]. apply Z.leb_le in He.
  by exists s, c, e.
Qed.

(** C8, as stated, fails: [_add_field] stores the initial value as it is
    written, not quantized, and a field keeps it until a [set] or a
    [_multiply] stores into it. After a multiply that ends in a size error
    and restores its receiver, and a successful [set] on another field, the
    receiver [WRK_DU_0V12_1] (twelve fractional digits) still holds
    [0.00001], with five, and [WRK_DS_06V06] (six fractional digits) still
    holds [0], with none. *)
Lemma fields_not_all_exactly_quantized :
  let size_error_call :=
    Call_multiply (NL_str "1000000") "WRK_DU_0V12_1" [] ∅ in
  let after_size_error := snd (run size_error_call initial_program) in
  let after := snd (run (Call_set "MULT1" (NL_str "80.12") false) after_size_error) in
  let restored := mkField "WRK_DU_0V12_1" 0 12 false (Fin false 1 (-5)) in
  let untouched := mkField "WRK_DS_06V06" 6 6 true (Fin false 0 0) in
  reachable after /\
  fst (run size_error_call initial_program) = Returns true /\
  fst (run (Call_set "MULT1" (NL_str "80.12") false) after_size_error) = Returns true /\
  fields after !! "WRK_DU_0V12_1"%string = Some restored /\
  ~ exactly_quantized restored /\
  fields after !! "WRK_DS_06V06"%string = Some untouched /\
  ~ exactly_quantized untouched.
Proof.
  split; [apply reachable_call, reachable_call, reachable_init|].
  repeat split; try (vm_compute; reflexivity).
  - intros (s & c & H). cbn in H. discriminate H.
  - intros (s & c & H). cbn in H. discriminate H.
Qed.

(** C8 (amended). In every program state reached from the initialized
    registry by calls of [set] and [_multiply], whatever they return or
    raise, every field holds a finite number that is a whole number of
    units of [10^-digits_right], written with at most [digits_right]
    fractional digits, within the width and sign of the field. A field
    that has exactly [digits_right] fractional digits keeps exactly that
    many through every call, the restoring loop of a size error included;
    and a field has exactly that many once a [set] that returned [True],
    or a [_multiply] that reported no size error, has stored into it. *)
Theorem reachable_fields_normalized (self : Program) :
  reachable self ->
  (forall key f, fields self !! key = Some f -> at_rest f /\ fraction_within f) /\
  (forall (c : call) key f f',
     fields self !! key = Some f -> exactly_quantized f ->
     fields (snd (run c self)) !! key = Some f' -> exactly_quantized f') /\
  (forall key raw rounded f',
     fst (run (Call_set key raw rounded) self) = Returns true ->
     fields (snd (run (Call_set key raw rounded) self)) !! key = Some f' ->
     exactly_quantized f') /\
  (forall multiplicand multiplier additional rounded key f',
     fst (run (Call_multiply multiplicand multiplier additional rounded) self)
       = Returns false ->
     key ∈ multiplier :: additional ->
     fields (snd (run (Call_multiply multiplicand multiplier additional rounded) self))
       !! key = Some f' ->
     exactly_quantized f').
Proof.
  intros Hreach.
  assert (Hpic : forall key f, fields self !! key = Some f -> picture_in_precision f).
  { intros key f Hf. by destruct (reachable_kept self Hreach key f Hf) as (_ & ? & _). }
  split; [|split; [|split]].
  - intros key f Hf. split; [by destruct (reachable_kept self Hreach key f Hf)|].
    by destruct (reachable_preserves
                   (fun g => picture_in_precision g /\ fraction_within g)
                   set_keeps_fraction_within initial_program_fraction_within
                   self Hreach key f Hf).
  - intros c key f f' Hf Hex Hf'.
    assert (H0 : forall g, fields self !! key = Some g ->
                           picture_in_precision g /\ exactly_quantized g).
    { intros g Hg. rewrite Hf in Hg. inversion Hg; subst g.
      split; [by apply (Hpic key)|done]. }
    destruct c as [k raw rounded|multiplicand multiplier additional rounded];
      cbn [run] in Hf'.
    + by destruct (set_field_preserves_at _ set_keeps_exactly_quantized key
                     k raw rounded self H0 f' Hf').
    + by destruct (_multiply_preserves_at _ set_keeps_exactly_quantized key
                     multiplicand multiplier additional rounded self H0 f' Hf').
  - intros key raw rounded f'. cbn [run]. unfold set_field, get_field.
    destruct (fields self !! key) as [f|] eqn:Hf; [|done].
    destruct (set f raw rounded) as [r f1] eqn:Hset. cbn [fst snd with_fields fields].
    intros -> Hf'. rewrite lookup_insert_eq in Hf'. inversion Hf'; subst f1.
    apply (set_exactly_quantized f f' raw rounded); [by apply (Hpic key)|done].
  - intros multiplicand multiplier additional rounded key f'. cbn [run].
    destruct (_multiply multiplicand multiplier additional rounded self)
      as [r self'] eqn:H. cbn [fst snd]. intros -> Hkey Hf'.
    apply _multiply_success in H as (mv & f0 & p & _ & _ & _ & Hst & _).
    destruct (Hst key Hkey) as (f & q & Hf & Hq & Hfit & Hf1).
    rewrite Hf1 in Hf'. inversion Hf'; subst f'.
    apply (stored_exactly_quantized f p q _ (Hpic key f Hf) Hq Hfit).
Qed.

Lemma reachable_fields_normalized_witness :
  let after_size_error :=
    snd (run (Call_multiply (NL_str "4.99") "MULT6" ["WRK_DU_2V0_1"]%string
                {["MULT6"%string]}) initial_program) in
  let after_set := snd (run (Call_set "MULT6" (NL_str "7.9") false) after_size_error) in
  fields after_set !! "MULT6"%string = Some (mkField "MULT6" 2 0 false (Fin false 7 0)) /\
  at_rest (mkField "MULT6" 2 0 false (Fin false 7 0)) /\
  fraction_within (mkField "MULT6" 2 0 false (Fin false 7 0)) /\
  exactly_quantized (mkField "MULT6" 2 0 false (Fin false 7 0)).
Proof.
  assert (Hf : fields
                 (snd (run (Call_set "MULT6" (NL_str "7.9") false)
                    (snd (run (Call_multiply (NL_str "4.99") "MULT6"
                                 ["WRK_DU_2V0_1"]%string {["MULT6"%string]})
                            initial_program)))) !! "MULT6"%string
               = Some (mkField "MULT6" 2 0 false (Fin false 7 0)))
    by (vm_compute; reflexivity).
  split; [exact Hf|].
  pose proof (reachable_fields_normalized
                (snd (run (Call_set "MULT6" (NL_str "7.9") false)
                   (snd (run (Call_multiply (NL_str "4.99") "MULT6"
                                ["WRK_DU_2V0_1"]%string {["MULT6"%string]})
                           initial_program))))
                (reachable_call _ _ (reachable_call _ _ reachable_init)))
    as (H1 & _ & _ & _).
  destruct (H1 "MULT6"%string _ Hf) as [Ha Hw]. split; [exact Ha|]. split; [exact Hw|].
  pose proof (reachable_fields_normalized
                (snd (run (Call_multiply (NL_str "4.99") "MULT6"
                             ["WRK_DU_2V0_1"]%string {["MULT6"%string]})
                        initial_program))
                (reachable_call _ _ reachable_init)) as (_ & _ & H3 & _).
  apply (H3 "MULT6"%string (NL_str "7.9") false); [vm_compute; reflexivity|exact Hf].
Defined.
